(** * Stepper driver (components/sys/drivers/stepper.c)

    A shallow embedding of the RMT based stepper driver of Lua RTOS for
    ESP32: the channel table [stepper], the interrupt handler [rmt_isr], the
    generation task [acceleration_profile_task] and the operations
    [stepper_setup], [stepper_move], [stepper_start] and [stepper_stop].

    C integers are [Z] with the wrap-around of their width written out;
    bit masks use [Z.land], [Z.lor], [Z.lnot], [Z.shiftl] and [Z.shiftr].
    The channel table and the circular buffers are lists updated by index. *)

From Stdlib Require Import ZArith Bool Lia.
From stdpp Require Import base list.

#[local] Open Scope Z_scope.

(** ** Machine integers *)

Definition u8 (z : Z) : Z := z mod 2 ^ 8.
Definition u32 (z : Z) : Z := z mod 2 ^ 32.

(** [BIT(n)] and [1 << n]. *)
Definition BIT (n : Z) : Z := Z.shiftl 1 n.

(** [x & y] used as a C condition. *)
Definition tst (x y : Z) : bool := negb (Z.land x y =? 0).

(** ** What <drivers/stepper.h> and <motion/motion.h> declare

    The header of the driver is not part of the sources at hand: its
    constants are parameters of the development. *)

Class StepperH := {
  NSTEP : Z;                       (* number of channel slots *)
  STEPPER_RMT_BUFF_SIZE : Z;       (* items of the RMT playback window *)
  STEPPER_RMT_DATA_SIZE : Z;       (* capacity of a circular buffer *)
  STEPPER_PULSE_TICKS : Z;         (* width of the step pulse *)
  USE_HARDWARE_LOCKS : bool        (* CONFIG_LUA_RTOS_USE_HARDWARE_LOCKS *)
}.

(** The motion library and the floating point expressions of the driver.
    [step_ticks t] is [floor(t * 1000000000.0) / STEPPER_RMT_NANOS_PER_TICK];
    [step_count u spu] is [floor(fabs(u) * spu)]. *)
Class MotionH := {
  real : Type;
  motion_t : Type;
  motion_init : motion_t;                          (* memset 0 *)
  real_zero : real;
  real_recip : real -> real;                       (* 1.0 / x *)
  real_fabs : real -> real;
  real_ge0 : real -> bool;                         (* x >= 0.0 *)
  step_count : real -> real -> Z;
  step_ticks : real -> Z;
  motion_prepare : real * real * real * real * real * real * real -> motion_t -> motion_t;
  motion_next : motion_t -> real * motion_t
}.

(** ** RMT items

    [rmt_item32_t]: duration0:15, level0:1, duration1:15, level1:1, and the
    same 32 bits as [val]. *)

Record rmt_item32_t := {
  level0 : Z; duration0 : Z;
  level1 : Z; duration1 : Z
}.

Definition field (w v : Z) : Z := v mod 2 ^ w.

Definition rmt_val (it : rmt_item32_t) : Z :=
  Z.lor (Z.lor (field 15 (duration0 it)) (Z.shiftl (field 1 (level0 it)) 15))
        (Z.lor (Z.shiftl (field 15 (duration1 it)) 16)
               (Z.shiftl (field 1 (level1 it)) 31)).

Definition rmt_of_val (v : Z) : rmt_item32_t :=
  {| duration0 := Z.land v 32767;
     level0 := Z.land (Z.shiftr v 15) 1;
     duration1 := Z.land (Z.shiftr v 16) 32767;
     level1 := Z.land (Z.shiftr v 31) 1 |}.

(** Ticks covered by a buffer word, and by a run of buffer words. *)
Definition item_ticks (v : Z) : Z :=
  duration0 (rmt_of_val v) + duration1 (rmt_of_val v).

Definition items_ticks (l : list Z) : Z :=
  foldr (fun v acc => item_ticks v + acc) 0 l.

(** A word that asserts the step signal: level 1 in its first half. *)
Definition is_pulse (v : Z) : bool := level0 (rmt_of_val v) =? 1.

Section Driver.

Context `{H : StepperH} `{M : MotionH}.

(** ** Channels: [stepper_t]

    The fields that the driver uses, the counters and indices as
    [uint32_t].  Two fields are ghosts.  [next_calls] counts the calls of
    [motion_next] on the channel's motion model since the last
    [stepper_move].  [stray_store] records that a store went through
    [rmt_data] where no array slot is: through the NULL pointer, or at an
    index outside of the array.  C leaves such a store undefined, and the
    task that makes it goes no further ([Fault] below). *)

Record stepper_t := {
  setup : bool;
  step_pin : Z;
  dir_pin : Z;
  steps_per_unit : real;
  units_per_step : real;
  min_spd : real;
  max_spd : real;
  mac_acc : real;
  dir : Z;
  motion : motion_t;
  steps : Z;
  rmt_ticks : Z;
  rmt_ticks_remain : Z;
  rmt_data : list Z;          (* calloc'ed array; [] while NULL *)
  rmt_data_head : Z;
  rmt_data_tail : Z;
  rmt_offset : Z;
  rmt_start : bool;
  rmt_started : bool;
  next_calls : nat;
  stray_store : bool
}.

(** [memset(stepper, 0, ...)]. *)
Definition stepper_zero : stepper_t :=
  {| setup := false; step_pin := 0; dir_pin := 0;
     steps_per_unit := real_zero; units_per_step := real_zero;
     min_spd := real_zero; max_spd := real_zero; mac_acc := real_zero;
     dir := 0; motion := motion_init; steps := 0;
     rmt_ticks := 0; rmt_ticks_remain := 0; rmt_data := [];
     rmt_data_head := 0; rmt_data_tail := 0; rmt_offset := 0;
     rmt_start := false; rmt_started := false; next_calls := 0%nat;
     stray_store := false |}.

Definition set_steps (v : Z) (p : stepper_t) : stepper_t :=
  {| setup := setup p; step_pin := step_pin p; dir_pin := dir_pin p;
     steps_per_unit := steps_per_unit p; units_per_step := units_per_step p;
     min_spd := min_spd p; max_spd := max_spd p; mac_acc := mac_acc p;
     dir := dir p; motion := motion p; steps := v;
     rmt_ticks := rmt_ticks p; rmt_ticks_remain := rmt_ticks_remain p;
     rmt_data := rmt_data p; rmt_data_head := rmt_data_head p;
     rmt_data_tail := rmt_data_tail p; rmt_offset := rmt_offset p;
     rmt_start := rmt_start p; rmt_started := rmt_started p;
     next_calls := next_calls p; stray_store := stray_store p |}.

Definition set_rmt_ticks (v : Z) (p : stepper_t) : stepper_t :=
  {| setup := setup p; step_pin := step_pin p; dir_pin := dir_pin p;
     steps_per_unit := steps_per_unit p; units_per_step := units_per_step p;
     min_spd := min_spd p; max_spd := max_spd p; mac_acc := mac_acc p;
     dir := dir p; motion := motion p; steps := steps p;
     rmt_ticks := v; rmt_ticks_remain := rmt_ticks_remain p;
     rmt_data := rmt_data p; rmt_data_head := rmt_data_head p;
     rmt_data_tail := rmt_data_tail p; rmt_offset := rmt_offset p;
     rmt_start := rmt_start p; rmt_started := rmt_started p;
     next_calls := next_calls p; stray_store := stray_store p |}.

Definition set_rmt_ticks_remain (v : Z) (p : stepper_t) : stepper_t :=
  {| setup := setup p; step_pin := step_pin p; dir_pin := dir_pin p;
     steps_per_unit := steps_per_unit p; units_per_step := units_per_step p;
     min_spd := min_spd p; max_spd := max_spd p; mac_acc := mac_acc p;
     dir := dir p; motion := motion p; steps := steps p;
     rmt_ticks := rmt_ticks p; rmt_ticks_remain := v;
     rmt_data := rmt_data p; rmt_data_head := rmt_data_head p;
     rmt_data_tail := rmt_data_tail p; rmt_offset := rmt_offset p;
     rmt_start := rmt_start p; rmt_started := rmt_started p;
     next_calls := next_calls p; stray_store := stray_store p |}.

Definition set_rmt_data (v : list Z) (p : stepper_t) : stepper_t :=
  {| setup := setup p; step_pin := step_pin p; dir_pin := dir_pin p;
     steps_per_unit := steps_per_unit p; units_per_step := units_per_step p;
     min_spd := min_spd p; max_spd := max_spd p; mac_acc := mac_acc p;
     dir := dir p; motion := motion p; steps := steps p;
     rmt_ticks := rmt_ticks p; rmt_ticks_remain := rmt_ticks_remain p;
     rmt_data := v; rmt_data_head := rmt_data_head p;
     rmt_data_tail := rmt_data_tail p; rmt_offset := rmt_offset p;
     rmt_start := rmt_start p; rmt_started := rmt_started p;
     next_calls := next_calls p; stray_store := stray_store p |}.

Definition set_rmt_data_head (v : Z) (p : stepper_t) : stepper_t :=
  {| setup := setup p; step_pin := step_pin p; dir_pin := dir_pin p;
     steps_per_unit := steps_per_unit p; units_per_step := units_per_step p;
     min_spd := min_spd p; max_spd := max_spd p; mac_acc := mac_acc p;
     dir := dir p; motion := motion p; steps := steps p;
     rmt_ticks := rmt_ticks p; rmt_ticks_remain := rmt_ticks_remain p;
     rmt_data := rmt_data p; rmt_data_head := v;
     rmt_data_tail := rmt_data_tail p; rmt_offset := rmt_offset p;
     rmt_start := rmt_start p; rmt_started := rmt_started p;
     next_calls := next_calls p; stray_store := stray_store p |}.

Definition set_rmt_data_tail (v : Z) (p : stepper_t) : stepper_t :=
  {| setup := setup p; step_pin := step_pin p; dir_pin := dir_pin p;
     steps_per_unit := steps_per_unit p; units_per_step := units_per_step p;
     min_spd := min_spd p; max_spd := max_spd p; mac_acc := mac_acc p;
     dir := dir p; motion := motion p; steps := steps p;
     rmt_ticks := rmt_ticks p; rmt_ticks_remain := rmt_ticks_remain p;
     rmt_data := rmt_data p; rmt_data_head := rmt_data_head p;
     rmt_data_tail := v; rmt_offset := rmt_offset p;
     rmt_start := rmt_start p; rmt_started := rmt_started p;
     next_calls := next_calls p; stray_store := stray_store p |}.

Definition set_rmt_offset (v : Z) (p : stepper_t) : stepper_t :=
  {| setup := setup p; step_pin := step_pin p; dir_pin := dir_pin p;
     steps_per_unit := steps_per_unit p; units_per_step := units_per_step p;
     min_spd := min_spd p; max_spd := max_spd p; mac_acc := mac_acc p;
     dir := dir p; motion := motion p; steps := steps p;
     rmt_ticks := rmt_ticks p; rmt_ticks_remain := rmt_ticks_remain p;
     rmt_data := rmt_data p; rmt_data_head := rmt_data_head p;
     rmt_data_tail := rmt_data_tail p; rmt_offset := v;
     rmt_start := rmt_start p; rmt_started := rmt_started p;
     next_calls := next_calls p; stray_store := stray_store p |}.

Definition set_rmt_start (v : bool) (p : stepper_t) : stepper_t :=
  {| setup := setup p; step_pin := step_pin p; dir_pin := dir_pin p;
     steps_per_unit := steps_per_unit p; units_per_step := units_per_step p;
     min_spd := min_spd p; max_spd := max_spd p; mac_acc := mac_acc p;
     dir := dir p; motion := motion p; steps := steps p;
     rmt_ticks := rmt_ticks p; rmt_ticks_remain := rmt_ticks_remain p;
     rmt_data := rmt_data p; rmt_data_head := rmt_data_head p;
     rmt_data_tail := rmt_data_tail p; rmt_offset := rmt_offset p;
     rmt_start := v; rmt_started := rmt_started p;
     next_calls := next_calls p; stray_store := stray_store p |}.

(** [motion_next(&pstepper->motion)]: the model advances, the call is counted. *)
Definition call_motion_next (p : stepper_t) : real * stepper_t :=
  let '(t, m) := motion_next (motion p) in
  (t,
   {| setup := setup p; step_pin := step_pin p; dir_pin := dir_pin p;
      steps_per_unit := steps_per_unit p; units_per_step := units_per_step p;
      min_spd := min_spd p; max_spd := max_spd p; mac_acc := mac_acc p;
      dir := dir p; motion := m; steps := steps p;
      rmt_ticks := rmt_ticks p; rmt_ticks_remain := rmt_ticks_remain p;
      rmt_data := rmt_data p; rmt_data_head := rmt_data_head p;
      rmt_data_tail := rmt_data_tail p; rmt_offset := rmt_offset p;
      rmt_start := rmt_start p; rmt_started := rmt_started p;
      next_calls := S (next_calls p); stray_store := stray_store p |}).

Definition set_rmt_started (v : bool) (p : stepper_t) : stepper_t :=
  {| setup := setup p; step_pin := step_pin p; dir_pin := dir_pin p;
     steps_per_unit := steps_per_unit p; units_per_step := units_per_step p;
     min_spd := min_spd p; max_spd := max_spd p; mac_acc := mac_acc p;
     dir := dir p; motion := motion p; steps := steps p;
     rmt_ticks := rmt_ticks p; rmt_ticks_remain := rmt_ticks_remain p;
     rmt_data := rmt_data p; rmt_data_head := rmt_data_head p;
     rmt_data_tail := rmt_data_tail p; rmt_offset := rmt_offset p;
     rmt_start := rmt_start p; rmt_started := v;
     next_calls := next_calls p; stray_store := stray_store p |}.

(** ** Hardware: the RMT peripheral and the GPIO pins

    Registers are functions of the channel; [RMTMEM] is a function of the
    channel and of the index of the item. *)

Inductive rmt_reg :=
  | div_cnt | mem_size | carrier_en | carrier_out_lv
  | tx_start | mem_rd_rst | mem_wr_rst | tx_conti_mode | mem_owner
  | ref_always_on | idle_out_en | idle_out_lv
  | carrier_high | carrier_low | tx_lim.

Definition rmt_reg_eqb (a b : rmt_reg) : bool :=
  match a, b with
  | div_cnt, div_cnt | mem_size, mem_size | carrier_en, carrier_en
  | carrier_out_lv, carrier_out_lv | tx_start, tx_start
  | mem_rd_rst, mem_rd_rst | mem_wr_rst, mem_wr_rst
  | tx_conti_mode, tx_conti_mode | mem_owner, mem_owner
  | ref_always_on, ref_always_on | idle_out_en, idle_out_en
  | idle_out_lv, idle_out_lv | carrier_high, carrier_high
  | carrier_low, carrier_low | tx_lim, tx_lim => true
  | _, _ => false
  end.

Record hw_t := {
  RMT_ch : Z -> rmt_reg -> Z;
  RMTMEM : Z -> Z -> Z;
  RMT_fifo_mask : Z;
  RMT_mem_tx_wrap_en : Z;
  RMT_int_ena : Z;
  RMT_int_clr : list Z;         (* values written to int_clr, latest first *)
  gpio_level : Z -> bool;       (* gpio_ll_pin_set / gpio_ll_pin_clr *)
  gpio_output : Z -> bool       (* gpio_pin_output *)
}.

Definition rmt_write (ch : Z) (r : rmt_reg) (v : Z) (hw : hw_t) : hw_t :=
  {| RMT_ch := fun c r' => if (c =? ch) && rmt_reg_eqb r' r then v else RMT_ch hw c r';
     RMTMEM := RMTMEM hw; RMT_fifo_mask := RMT_fifo_mask hw;
     RMT_mem_tx_wrap_en := RMT_mem_tx_wrap_en hw; RMT_int_ena := RMT_int_ena hw;
     RMT_int_clr := RMT_int_clr hw;
     gpio_level := gpio_level hw; gpio_output := gpio_output hw |}.

Definition rmtmem_write (ch idx v : Z) (hw : hw_t) : hw_t :=
  {| RMT_ch := RMT_ch hw;
     RMTMEM := fun c i => if (c =? ch) && (i =? idx) then v else RMTMEM hw c i;
     RMT_fifo_mask := RMT_fifo_mask hw;
     RMT_mem_tx_wrap_en := RMT_mem_tx_wrap_en hw; RMT_int_ena := RMT_int_ena hw;
     RMT_int_clr := RMT_int_clr hw;
     gpio_level := gpio_level hw; gpio_output := gpio_output hw |}.

Definition int_clr_write (v : Z) (hw : hw_t) : hw_t :=
  {| RMT_ch := RMT_ch hw; RMTMEM := RMTMEM hw; RMT_fifo_mask := RMT_fifo_mask hw;
     RMT_mem_tx_wrap_en := RMT_mem_tx_wrap_en hw; RMT_int_ena := RMT_int_ena hw;
     RMT_int_clr := v :: RMT_int_clr hw;
     gpio_level := gpio_level hw; gpio_output := gpio_output hw |}.

Definition rmt_globals_write (fifo wrap ena : Z) (hw : hw_t) : hw_t :=
  {| RMT_ch := RMT_ch hw; RMTMEM := RMTMEM hw; RMT_fifo_mask := fifo;
     RMT_mem_tx_wrap_en := wrap; RMT_int_ena := ena;
     RMT_int_clr := RMT_int_clr hw;
     gpio_level := gpio_level hw; gpio_output := gpio_output hw |}.

Definition gpio_write (pin : Z) (v : bool) (hw : hw_t) : hw_t :=
  {| RMT_ch := RMT_ch hw; RMTMEM := RMTMEM hw; RMT_fifo_mask := RMT_fifo_mask hw;
     RMT_mem_tx_wrap_en := RMT_mem_tx_wrap_en hw; RMT_int_ena := RMT_int_ena hw;
     RMT_int_clr := RMT_int_clr hw;
     gpio_level := fun p => if p =? pin then v else gpio_level hw p;
     gpio_output := gpio_output hw |}.

Definition gpio_set_output (pin : Z) (hw : hw_t) : hw_t :=
  {| RMT_ch := RMT_ch hw; RMTMEM := RMTMEM hw; RMT_fifo_mask := RMT_fifo_mask hw;
     RMT_mem_tx_wrap_en := RMT_mem_tx_wrap_en hw; RMT_int_ena := RMT_int_ena hw;
     RMT_int_clr := RMT_int_clr hw;
     gpio_level := gpio_level hw;
     gpio_output := fun p => if p =? pin then true else gpio_output hw p |}.

(** The four stores that stop the RMT transmission of a channel. *)
Definition rmt_halt (ch : Z) (hw : hw_t) : hw_t :=
  rmt_write ch mem_rd_rst 0
    (rmt_write ch mem_rd_rst 1
       (rmt_write ch tx_start 0
          (rmtmem_write ch 0 0 hw))).

(** ** The state of the driver: its file-scope variables and the hardware *)

Record driver := {
  stepper : list stepper_t;               (* stepper[NSTEP] *)
  acceleration_queue : option (list Z);   (* NULL, or the pending requests, oldest first *)
  acceleration_profile_task_h : bool;     (* handle is not NULL *)
  isr_h : bool;                           (* handle is not NULL *)
  start_mask : Z;                         (* uint32_t *)
  start_num : Z;                          (* uint8_t *)
  waiting_task : option Z;                (* NULL, or a task *)
  notified : list (option Z);             (* targets of xTaskNotifyGive, latest first *)
  hw : hw_t
}.

Definition set_stepper (v : list stepper_t) (st : driver) : driver :=
  {| stepper := v; acceleration_queue := acceleration_queue st;
     acceleration_profile_task_h := acceleration_profile_task_h st;
     isr_h := isr_h st; start_mask := start_mask st; start_num := start_num st;
     waiting_task := waiting_task st; notified := notified st; hw := hw st |}.

Definition set_queue (v : option (list Z)) (st : driver) : driver :=
  {| stepper := stepper st; acceleration_queue := v;
     acceleration_profile_task_h := acceleration_profile_task_h st;
     isr_h := isr_h st; start_mask := start_mask st; start_num := start_num st;
     waiting_task := waiting_task st; notified := notified st; hw := hw st |}.

Definition set_task_h (v : bool) (st : driver) : driver :=
  {| stepper := stepper st; acceleration_queue := acceleration_queue st;
     acceleration_profile_task_h := v;
     isr_h := isr_h st; start_mask := start_mask st; start_num := start_num st;
     waiting_task := waiting_task st; notified := notified st; hw := hw st |}.

Definition set_isr_h (v : bool) (st : driver) : driver :=
  {| stepper := stepper st; acceleration_queue := acceleration_queue st;
     acceleration_profile_task_h := acceleration_profile_task_h st;
     isr_h := v; start_mask := start_mask st; start_num := start_num st;
     waiting_task := waiting_task st; notified := notified st; hw := hw st |}.

Definition set_start_mask (v : Z) (st : driver) : driver :=
  {| stepper := stepper st; acceleration_queue := acceleration_queue st;
     acceleration_profile_task_h := acceleration_profile_task_h st;
     isr_h := isr_h st; start_mask := v; start_num := start_num st;
     waiting_task := waiting_task st; notified := notified st; hw := hw st |}.

Definition set_start_num (v : Z) (st : driver) : driver :=
  {| stepper := stepper st; acceleration_queue := acceleration_queue st;
     acceleration_profile_task_h := acceleration_profile_task_h st;
     isr_h := isr_h st; start_mask := start_mask st; start_num := v;
     waiting_task := waiting_task st; notified := notified st; hw := hw st |}.

Definition set_waiting_task (v : option Z) (st : driver) : driver :=
  {| stepper := stepper st; acceleration_queue := acceleration_queue st;
     acceleration_profile_task_h := acceleration_profile_task_h st;
     isr_h := isr_h st; start_mask := start_mask st; start_num := start_num st;
     waiting_task := v; notified := notified st; hw := hw st |}.

Definition set_hw (v : hw_t) (st : driver) : driver :=
  {| stepper := stepper st; acceleration_queue := acceleration_queue st;
     acceleration_profile_task_h := acceleration_profile_task_h st;
     isr_h := isr_h st; start_mask := start_mask st; start_num := start_num st;
     waiting_task := waiting_task st; notified := notified st; hw := v |}.

(** [xTaskNotifyGive(waiting_task)] and [vTaskNotifyGiveFromISR]. *)
Definition notify_give (st : driver) : driver :=
  {| stepper := stepper st; acceleration_queue := acceleration_queue st;
     acceleration_profile_task_h := acceleration_profile_task_h st;
     isr_h := isr_h st; start_mask := start_mask st; start_num := start_num st;
     waiting_task := waiting_task st;
     notified := waiting_task st :: notified st; hw := hw st |}.

(** [xQueueSend(acceleration_queue, &v, ...)]. *)
Definition queue_send (v : Z) (st : driver) : driver :=
  set_queue (option_map (fun q => q ++ [v]) (acceleration_queue st)) st.

(** ** [stepper_stop]  (lines 605-637) *)

(** The [while (testMask != (1 << (NSTEP - 1)))] loop.  [testMask] is
    doubled in every round, so [n] rounds are left when
    [testMask = 1 << (NSTEP - 1 - n)]; the recursion is on a bound of the
    number of rounds. *)
Fixpoint stop_loop (n : nat) (mask testMask channel : Z) (st : driver) : driver :=
  match n with
  | O => st
  | S n' =>
    if testMask =? BIT (NSTEP - 1) then st
    else
      let st1 :=
        if tst (start_mask st) testMask then
          let st_a := set_hw (rmt_halt channel (hw st)) st in
          let st_b := if 0 <? start_num st_a
                      then set_start_num (u8 (start_num st_a - 1)) st_a
                      else st_a in
          set_start_mask (Z.land (start_mask st_b) (Z.lnot mask)) st_b
        else st in
      stop_loop n' mask (Z.shiftl testMask 1) (u8 (channel + 1)) st1
  end.

Definition stepper_stop (mask : Z) (st : driver) : driver :=
  let st1 := stop_loop (Z.to_nat NSTEP) mask 1 0 st in
  if start_num st1 =? 0 then notify_give st1 else st1.

(** ** [stepper_start]  (lines 546-592)

    The part of [stepper_start] that runs before the caller blocks in
    [ulTaskNotifyTake]; [self] is [xTaskGetCurrentTaskHandle()]. *)

(** The [while (testMask != (1 << (NSTEP - 1)))] loop over [pstepper]. *)
Fixpoint start_dir_loop (n : nat) (mask testMask : Z) (ps : list stepper_t)
    (h : hw_t) : hw_t :=
  match n with
  | O => h
  | S n' =>
    if testMask =? BIT (NSTEP - 1) then h
    else
      match ps with
      | [] => h
      | p :: ps' =>
        let h1 :=
          if tst mask testMask then
            if negb (dir p =? 0) then gpio_write (dir_pin p) true h
            else gpio_write (dir_pin p) false h
          else h in
        start_dir_loop n' mask (Z.shiftl testMask 1) ps' h1
      end
  end.

(** [for (i = 0; i < NSTEP; i++) if (start_mask & (1 << i)) start_num++;] *)
Fixpoint count_started (n : nat) (i : Z) (smask num : Z) : Z :=
  match n with
  | O => num
  | S n' =>
    count_started n' (i + 1) smask
      (if tst smask (BIT i) then u8 (num + 1) else num)
  end.

Definition stepper_start (self : Z) (mask : Z) (st : driver) : driver :=
  let h1 := start_dir_loop (Z.to_nat NSTEP) mask 1 (stepper st) (hw st) in
  let st1 := set_hw h1 st in
  let st2 := set_start_mask (Z.lor (start_mask st1) (u32 mask)) st1 in
  let st3 := set_waiting_task (Some self) st2 in
  let st4 := set_start_num (count_started (Z.to_nat NSTEP) 0 (start_mask st3) 0) st3 in
  queue_send (start_mask st4) st4.

(** ** Circular buffer accesses *)

(** [(i + 1) % STEPPER_RMT_DATA_SIZE]. *)
Definition ring_next (i : Z) : Z := (i + 1) mod STEPPER_RMT_DATA_SIZE.

(** [pstepper->rmt_data[i]] as an rvalue.  A read outside the array yields
    whatever lies there; the model reads 0. *)
Definition data_read (p : stepper_t) (i : Z) : Z :=
  default 0 (rmt_data p !! Z.to_nat i).

(** [pstepper->rmt_data[pstepper->rmt_data_head]] names a slot of the array
    that [rmt_data] points to: [rmt_data] is not NULL (the model's [[]]) and
    the head is an index of the array. *)
Definition store_ok (p : stepper_t) : bool :=
  (0 <=? rmt_data_head p) &&
  (rmt_data_head p <? Z.of_nat (length (rmt_data p))).

(** [pstepper->rmt_data[pstepper->rmt_data_head] = v;]
    [pstepper->rmt_data_head = next;]
    (lines 180-183, 222-225, 258-261 and 287-290).  Where the slot exists
    the word is stored and the head moves.  Where it does not, on a channel
    that has no buffer, the store is the undefined one: nothing is stored,
    the head stays, and [stray_store] is set.  What the loops below still
    compute in a round after that is of no account: [task_step] drops the
    round and the task is in [Fault]. *)
Definition push_at (v next : Z) (p : stepper_t) : stepper_t :=
  {| setup := setup p; step_pin := step_pin p; dir_pin := dir_pin p;
     steps_per_unit := steps_per_unit p; units_per_step := units_per_step p;
     min_spd := min_spd p; max_spd := max_spd p; mac_acc := mac_acc p;
     dir := dir p; motion := motion p; steps := steps p;
     rmt_ticks := rmt_ticks p; rmt_ticks_remain := rmt_ticks_remain p;
     rmt_data := if store_ok p
                 then <[Z.to_nat (rmt_data_head p) := v]> (rmt_data p)
                 else rmt_data p;
     rmt_data_head := if store_ok p then next else rmt_data_head p;
     rmt_data_tail := rmt_data_tail p; rmt_offset := rmt_offset p;
     rmt_start := rmt_start p; rmt_started := rmt_started p;
     next_calls := next_calls p;
     stray_store := if store_ok p then stray_store p else true |}.

(** ** [rmt_isr]  (lines 88-153) *)

(** [xQueueSendFromISR]: the request is dropped when the queue, created
    with room for 100 requests, is full. *)
Definition queue_send_from_isr (v : Z) (st : driver) : driver :=
  match acceleration_queue st with
  | Some q => if (length q <? 100)%nat then set_queue (Some (q ++ [v])) st else st
  | None => st
  end.

(** The [while ((i < (STEPPER_RMT_BUFF_SIZE >> 1)) && (tail != head))]
    loop; [n] is the number of values [i] may still take. *)
Fixpoint isr_drain (n : nat) (channel i : Z) (p : stepper_t) (h : hw_t)
    : Z * stepper_t * hw_t :=
  match n with
  | O => (i, p, h)
  | S n' =>
    if negb (rmt_data_tail p =? rmt_data_head p) then
      let h1 := rmtmem_write channel (rmt_offset p + i)
                  (data_read p (rmt_data_tail p)) h in
      let p1 := set_rmt_data_tail (ring_next (rmt_data_tail p)) p in
      isr_drain n' channel (i + 1) p1 h1
    else (i, p, h)
  end.

Definition isr_channel (intr_st channel : Z) (st : driver) : driver :=
  let st1 :=
    if tst intr_st (BIT (channel * 3)) then
      let st_a := set_hw (int_clr_write (BIT (channel * 3))
                            (rmt_halt channel (hw st))) st in
      let st_b := set_start_mask
                    (Z.land (start_mask st_a) (Z.lnot (BIT channel))) st_a in
      let st_c := set_start_num (u8 (start_num st_b - 1)) st_b in
      if start_num st_c =? 0 then notify_give st_c else st_c
    else st in
  if tst intr_st (BIT (24 + channel)) then
    match stepper st1 !! Z.to_nat channel with
    | None => st1
    | Some p =>
      let h1 := int_clr_write (BIT (24 + channel)) (hw st1) in
      let '(i, p1, h2) :=
        isr_drain (Z.to_nat (Z.shiftr STEPPER_RMT_BUFF_SIZE 1)) channel 0 p h1 in
      let p2 := set_rmt_offset
                  ((rmt_offset p1 + Z.shiftr STEPPER_RMT_BUFF_SIZE 1)
                     mod STEPPER_RMT_BUFF_SIZE) p1 in
      let st2 := set_hw h2
                   (set_stepper (<[Z.to_nat channel := p2]> (stepper st1)) st1) in
      if 0 <? i then queue_send_from_isr (BIT channel) st2 else st2
    end
  else st1.

(** [for (channel = 0; channel < NSTEP; channel++)]. *)
Fixpoint isr_loop (n : nat) (intr_st channel : Z) (st : driver) : driver :=
  match n with
  | O => st
  | S n' => isr_loop n' intr_st (channel + 1) (isr_channel intr_st channel st)
  end.

Definition rmt_isr (intr_st : Z) (st : driver) : driver :=
  isr_loop (Z.to_nat NSTEP) intr_st 0 st.

(** ** [acceleration_profile_task]  (lines 155-336) *)

Definition mk_item (l0 d0 l1 d1 : Z) : Z :=
  rmt_val {| level0 := l0; duration0 := d0; level1 := l1; duration1 := d1 |}.

(** The [while (rmt_ticks > 0)] loop (lines 203-270) with its locals
    [first], [rmt_ticks] and [next].  It yields [next] and the channel at
    its exit; the recursion is on a bound [n] of the number of rounds, and
    [None] stands for a bound that was too small. *)
Fixpoint encode_items (n : nat) (first : bool) (ticks next : Z) (p : stepper_t)
    : option (Z * stepper_t) :=
  match n with
  | O => None
  | S n' =>
    if 0 <? ticks then
      if first then
        if u32 (ticks - STEPPER_PULSE_TICKS) <? 32767 then
          let v := mk_item 1 STEPPER_PULSE_TICKS 0 (u32 (ticks - STEPPER_PULSE_TICKS)) in
          encode_items n' false 0 next
            (push_at v next (set_rmt_ticks_remain 0 p))
        else
          let v := mk_item 1 STEPPER_PULSE_TICKS 0 32767 in
          encode_items n' false (u32 (ticks - 32767)) next (push_at v next p)
      else
        let next1 := ring_next (rmt_data_head p) in
        if negb (next1 =? rmt_data_tail p) then
          if ticks <? Z.shiftl 32767 1 then
            let d0 := field 15 (Z.shiftr ticks 1) in
            let v := mk_item 0 d0 0 (u32 (ticks - d0)) in
            encode_items n' false 0 next1
              (push_at v next1 (set_rmt_ticks_remain 0 p))
          else
            let v := mk_item 0 32767 0 32767 in
            encode_items n' false (u32 (u32 (ticks - 32767) - 32767)) next1
              (push_at v next1 p)
        else Some (next1, set_rmt_ticks_remain ticks p)
    else Some (next, p)
  end.

(** Rounds the loop can take from [ticks]: the first item, then one item
    for every 65534 ticks of what the first item leaves, and the exit. *)
Definition encode_rounds (ticks : Z) : nat :=
  Z.to_nat (Z.max ticks (u32 (ticks - 32767)) / 65534 + 3).

(** One round of [while ((pstepper->steps > 0) && (next != tail))]
    (lines 190-296): the new [next] and the channel. *)
Definition step_body (next : Z) (p : stepper_t) : Z * stepper_t :=
  let '(ticks, p1) :=
    if rmt_ticks_remain p =? 0 then
      let '(t, p0) := call_motion_next p in
      let p' := set_rmt_ticks (u32 (step_ticks t)) p0 in
      (rmt_ticks p', p')
    else (rmt_ticks_remain p, p) in
  match encode_items (encode_rounds ticks) true ticks next p1 with
  | None => (next, p1)
  | Some (next1, p2) =>
    if 0 <? rmt_ticks_remain p2 then (next1, p2)
    else
      let p3 := set_steps (u32 (steps p2 - 1)) p2 in
      if steps p3 =? 0 then
        let next2 := ring_next (rmt_data_head p3) in
        if negb (next2 =? rmt_data_tail p3)
        then (next2, push_at 0 next2 p3)
        else (next2, p3)
      else (ring_next (rmt_data_head p3), p3)
  end.

(** The [for (idx = 0; idx < STEPPER_RMT_BUFF_SIZE; idx++)] loop
    (lines 317-322). *)
Fixpoint start_copy (n : nat) (stepper_num idx : Z) (p : stepper_t) (h : hw_t)
    : stepper_t * hw_t :=
  match n with
  | O => (p, h)
  | S n' =>
    let h1 := rmtmem_write stepper_num idx
                (data_read p (rmt_data_tail p + idx)) h in
    let p1 := set_rmt_data_tail (ring_next (rmt_data_tail p)) p in
    start_copy n' stepper_num (idx + 1) p1 h1
  end.

(** Where the task stands: blocked in [xQueueReceive]; at the test of the
    first [while (cycle_mask)]; at the test of the [while] over the steps
    of a channel; at the test of the second [while (cycle_mask)]; or
    stopped by an access that C leaves undefined: of [stepper] outside
    the table, or a store through [rmt_data] where no slot is. *)
Inductive task_pc :=
  | Waiting
  | Fill (cycle_for_mask cycle_mask stepper_num : Z)
  | Steps (cycle_for_mask cycle_mask stepper_num next : Z)
  | Start (cycle_for_mask cycle_mask stepper_num : Z)
  | Fault.

Definition put_stepper (i : Z) (p : stepper_t) (st : driver) : driver :=
  set_stepper (<[Z.to_nat i := p]> (stepper st)) st.

(** One test of a loop condition of the task and the round it admits.  A
    round with a stray store is the end of the task: it is in [Fault], and
    the model keeps the state of before the round, of which nothing is
    known from there on. *)
Definition task_step (c : task_pc * driver) : task_pc * driver :=
  let '(pc, st) := c in
  match pc with
  | Waiting =>
    match acceleration_queue st with
    | Some (m :: q) => (Fill m m 0, set_queue (Some q) st)
    | _ => (Waiting, st)
    end
  | Fill cfm cm n =>
    if cm =? 0 then (Start cfm cfm 0, st)
    else if tst cm 1 then
      match stepper st !! Z.to_nat n with
      | None => (Fault, st)
      | Some p =>
        let next := ring_next (rmt_data_head p) in
        if (steps p =? 0) && negb (next =? rmt_data_tail p) then
          let p1 := push_at 0 next p in
          if stray_store p1 then (Fault, st)
          else (Fill cfm cm n, put_stepper n p1 st)
        else (Steps cfm cm n (ring_next (rmt_data_head p)), st)
      end
    else (Fill cfm (Z.shiftr cm 1) (u8 (n + 1)), st)
  | Steps cfm cm n next =>
    match stepper st !! Z.to_nat n with
    | None => (Fault, st)
    | Some p =>
      if (0 <? steps p) && negb (next =? rmt_data_tail p) then
        let '(next1, p1) := step_body next p in
        if stray_store p1 then (Fault, st)
        else (Steps cfm cm n next1, put_stepper n p1 st)
      else (Fill cfm (Z.shiftr cm 1) (u8 (n + 1)), st)
    end
  | Start cfm cm n =>
    if cm =? 0 then (Waiting, st)
    else if tst cm 1 then
      match stepper st !! Z.to_nat n with
      | None => (Fault, st)
      | Some p =>
        if rmt_start p && negb (rmt_started p) then
          let '(p1, h1) :=
            start_copy (Z.to_nat STEPPER_RMT_BUFF_SIZE) n 0 p (hw st) in
          let h2 := rmt_write n tx_start 1 (rmt_write n mem_rd_rst 1 h1) in
          (Start cfm (Z.shiftr cm 1) (u8 (n + 1)),
           set_hw h2 (put_stepper n (set_rmt_started true p1) st))
        else (Start cfm (Z.shiftr cm 1) (u8 (n + 1)), st)
      end
    else (Start cfm (Z.shiftr cm 1) (u8 (n + 1)), st)
  | Fault => (Fault, st)
  end.

(** The task after [n] loop tests. *)
Fixpoint task_run (n : nat) (c : task_pc * driver) : task_pc * driver :=
  match n with
  | O => c
  | S n' => task_run n' (task_step c)
  end.

(** ** Results of the operations *)

Inductive stepper_err :=
  | STEPPER_ERR_NOT_ENOUGH_MEMORY
  | STEPPER_ERR_INVALID_UNIT
  | STEPPER_ERR_NO_MORE_UNITS
  | STEPPER_ERR_UNIT_NOT_SETUP
  | STEPPER_ERR_INVALID_PIN
  | STEPPER_ERR_INVALID_DIRECTION
  | STEPPER_ERR_INVALID_ACCELERATION
  | OTHER_DRIVER_ERR (code : Z).        (* an error of the GPIO or lock layer *)

(** A call returns [NULL] ([None]) or an error, with the value left in its
    output argument and the new state; or it indexes [stepper] outside
    [0 .. NSTEP-1], which C leaves undefined. *)
Inductive outcome (A : Type) :=
  | Returns (err : option stepper_err) (out : A) (st : driver)
  | OutOfBounds (index : Z).

Arguments Returns {A} err out st.
Arguments OutOfBounds {A} index.

(** ** [stepper_setup]  (lines 341-494) *)

(** What the collaborators of [stepper_setup] answer. *)
Record setup_env := {
  calloc_ok : bool;                 (* calloc returned a buffer *)
  queue_ok : bool;                  (* xQueueCreate returned a queue *)
  task_ok : bool;                   (* xTaskCreatePinnedToCore returned pdTRUE *)
  lock_step_err : option Z;         (* driver_lock on the step pin *)
  lock_dir_err : option Z;          (* driver_lock on the dir pin *)
  gpio_step_err : option Z;         (* gpio_pin_output(step_pin) *)
  gpio_dir_err : option Z           (* gpio_pin_output(dir_pin) *)
}.

(** [for (i = 0; i < NSTEP; i++) if (!stepper[i].setup) { *unit = i; break; }]:
    the values of [i] and of [*unit] after the loop. *)
Fixpoint find_free (n : nat) (i unit : Z) (ps : list stepper_t) : Z * Z :=
  match n with
  | O => (i, unit)
  | S n' =>
    match ps with
    | [] => (i, unit)
    | p :: ps' =>
      if negb (setup p) then (i, u8 i)
      else find_free n' (i + 1) unit ps'
    end
  end.

(** The register stores of lines 432-478 for channel [unit]. *)
Definition rmt_configure (unit pin : Z) (h : hw_t) : hw_t :=
  let h1 := rmt_write unit div_cnt 2 h in
  let h2 := rmt_globals_write 1 (RMT_mem_tx_wrap_en h1) (RMT_int_ena h1) h1 in
  let h3 := rmt_write unit mem_wr_rst 1 (rmt_write unit mem_rd_rst 1 h2) in
  let h4 := rmt_write unit tx_conti_mode 0 h3 in
  let h5 := rmt_globals_write (RMT_fifo_mask h4) 1 (RMT_int_ena h4) h4 in
  let h6 := rmt_write unit tx_lim (Z.shiftr STEPPER_RMT_BUFF_SIZE 1) h5 in
  let h7 := rmt_write unit mem_owner 0 (rmt_write unit mem_size 1 h6) in
  let h8 := rmt_write unit ref_always_on 1 h7 in
  let h9 := rmt_write unit idle_out_lv 0 (rmt_write unit idle_out_en 1 h8) in
  let h10 := rmt_write unit carrier_out_lv 0 (rmt_write unit carrier_en 0 h9) in
  let h11 := rmt_write unit carrier_low 0 (rmt_write unit carrier_high 0 h10) in
  let h12 := gpio_set_output pin h11 in
  let h13 := rmt_globals_write (RMT_fifo_mask h12) (RMT_mem_tx_wrap_en h12)
               (Z.lor (RMT_int_ena h12) (BIT (unit * 3))) h12 in
  rmt_globals_write (RMT_fifo_mask h13) (RMT_mem_tx_wrap_en h13)
    (Z.lor (RMT_int_ena h13) (BIT (24 + unit))) h13.

(** Lines 423-430. *)
Definition configure_slot (step dir_ : Z) (min_s max_s max_a stpu : real)
    (p : stepper_t) : stepper_t :=
  {| setup := true; step_pin := step; dir_pin := dir_;
     steps_per_unit := stpu; units_per_step := real_recip stpu;
     min_spd := min_s; max_spd := max_s; mac_acc := max_a;
     dir := dir p; motion := motion p; steps := steps p;
     rmt_ticks := rmt_ticks p; rmt_ticks_remain := rmt_ticks_remain p;
     rmt_data := rmt_data p; rmt_data_head := rmt_data_head p;
     rmt_data_tail := rmt_data_tail p; rmt_offset := rmt_offset p;
     rmt_start := rmt_start p; rmt_started := rmt_started p;
     next_calls := next_calls p; stray_store := stray_store p |}.

Definition err_of (e : Z) : option stepper_err := Some (OTHER_DRIVER_ERR e).

(** [unit0] is what the caller's [*unit] holds at the call. *)
Definition stepper_setup (env : setup_env) (step_pin_ dir_pin_ : Z)
    (min_s max_s max_a stpu : real) (unit0 : Z) (st : driver) : outcome Z :=
  if 31 <? step_pin_ then Returns (Some STEPPER_ERR_INVALID_PIN) unit0 st
  else
    let '(i, unit) := find_free (Z.to_nat NSTEP) 0 unit0 (stepper st) in
    if NSTEP <? i then Returns (Some STEPPER_ERR_NO_MORE_UNITS) unit st
    else
      match stepper st !! Z.to_nat unit with
      | None => OutOfBounds unit
      | Some p =>
        if negb (calloc_ok env) then
          Returns (Some STEPPER_ERR_NOT_ENOUGH_MEMORY) unit
            (put_stepper unit (set_rmt_data [] p) st)
        else
          let p1 := set_rmt_data_tail 0 (set_rmt_data_head 0
                      (set_rmt_data
                         (replicate (Z.to_nat STEPPER_RMT_DATA_SIZE) 0) p)) in
          let st1 := put_stepper unit p1 st in
          (* lines 380-391: [inl] when the task exists or was created *)
          let task :=
            if acceleration_profile_task_h st1 then inl st1
            else if negb (queue_ok env) then inr (set_queue None st1)
            else if negb (task_ok env) then inr (set_queue (Some []) st1)
            else inl (set_task_h true (set_queue (Some []) st1)) in
          match task with
          | inr st2 => Returns (Some STEPPER_ERR_NOT_ENOUGH_MEMORY) unit st2
          | inl st2 =>
            match (if USE_HARDWARE_LOCKS then lock_step_err env else None) with
            | Some e => Returns (err_of e) unit st2
            | None =>
            match (if USE_HARDWARE_LOCKS then lock_dir_err env else None) with
            | Some e => Returns (err_of e) unit st2
            | None =>
            match gpio_step_err env with
            | Some e => Returns (err_of e) unit st2
            | None =>
            let st3 := set_hw (gpio_set_output step_pin_ (hw st2)) st2 in
            match gpio_dir_err env with
            | Some e => Returns (err_of e) unit st3
            | None =>
              let h4 := gpio_write dir_pin_ false
                          (gpio_write step_pin_ false
                             (gpio_set_output dir_pin_ (hw st3))) in
              let st5 := put_stepper unit
                           (configure_slot step_pin_ dir_pin_ min_s max_s max_a stpu p1)
                           (set_hw h4 st3) in
              let st6 := set_hw (rmt_configure unit step_pin_ (hw st5)) st5 in
              Returns None unit (set_isr_h true st6)
            end end end end
          end
      end.

(** ** [stepper_move]  (lines 496-544) *)

(** Lines 511-539 on the slot of the unit. *)
Definition prepare_move (units initial_spd target_spd acc jerk : real)
    (p : stepper_t) : stepper_t :=
  {| setup := setup p; step_pin := step_pin p; dir_pin := dir_pin p;
     steps_per_unit := steps_per_unit p; units_per_step := units_per_step p;
     min_spd := min_spd p; max_spd := max_spd p; mac_acc := mac_acc p;
     dir := if real_ge0 units then 1 else 0;
     motion := motion_prepare
                 (initial_spd, target_spd, acc, jerk, real_fabs units,
                  steps_per_unit p, units_per_step p) (motion p);
     steps := u32 (step_count units (steps_per_unit p));
     rmt_ticks := rmt_ticks p; rmt_ticks_remain := 0;
     rmt_data := rmt_data p; rmt_data_head := 0;
     rmt_data_tail := 0; rmt_offset := 0;
     rmt_start := true; rmt_started := false;
     next_calls := 0%nat; stray_store := stray_store p |}.

Definition stepper_move (unit : Z) (units initial_spd target_spd acc jerk : real)
    (st : driver) : outcome () :=
  if NSTEP <? unit then Returns (Some STEPPER_ERR_INVALID_UNIT) tt st
  else
    match stepper st !! Z.to_nat unit with
    | None => OutOfBounds unit
    | Some p =>
      if negb (setup p) then Returns (Some STEPPER_ERR_UNIT_NOT_SETUP) tt st
      else
        Returns None tt
          (put_stepper unit (prepare_move units initial_spd target_spd acc jerk p) st)
    end.

(** [stepper_init]: the table is zeroed. *)
Definition stepper_init (h : hw_t) : driver :=
  {| stepper := replicate (Z.to_nat NSTEP) stepper_zero;
     acceleration_queue := None; acceleration_profile_task_h := false;
     isr_h := false; start_mask := 0; start_num := 0;
     waiting_task := None; notified := []; hw := h |}.

(** ** The driver among its three contexts

    What can happen between two loop tests of the task: the task makes
    its next test, the RMT raises an interrupt with status [intr_st], or a
    thread calls [stepper_start] or [stepper_stop]. *)
Inductive event :=
  | TaskTest
  | Interrupt (intr_st : Z)
  | CallStart (self mask : Z)
  | CallStop (mask : Z).

Definition sys_step (e : event) (c : task_pc * driver) : task_pc * driver :=
  match e with
  | TaskTest => task_step c
  | Interrupt intr_st => (fst c, rmt_isr intr_st (snd c))
  | CallStart self mask => (fst c, stepper_start self mask (snd c))
  | CallStop mask => (fst c, stepper_stop mask (snd c))
  end.

Fixpoint sys_run (es : list event) (c : task_pc * driver) : task_pc * driver :=
  match es with
  | [] => c
  | e :: es' => sys_run es' (sys_step e c)
  end.

(** A step is pending when its encoding was suspended: the carry is not 0. *)
Definition pending (p : stepper_t) : Z :=
  if rmt_ticks_remain p =? 0 then 0 else 1.

(** [steps] and [rmt_ticks_remain] hold values of [uint32_t]. *)
Definition typed (p : stepper_t) : bool :=
  (0 <=? steps p) && (steps p <? 4294967296) &&
  (0 <=? rmt_ticks_remain p) && (rmt_ticks_remain p <? 4294967296).

(** Calls of [motion_next] so far, plus the steps still to be taken, less
    the pending step: the quantity that the task keeps constant. *)
Definition account (p : stepper_t) : Z :=
  Z.of_nat (next_calls p) + steps p - pending p.

Definition keeps_account (p p' : stepper_t) : Prop :=
  typed p = true -> typed p' = true /\ account p' = account p.

(** Head and tail index the circular buffer. *)
Definition in_ring (p : stepper_t) : Prop :=
  0 <= rmt_data_head p < STEPPER_RMT_DATA_SIZE /\
  0 <= rmt_data_tail p < STEPPER_RMT_DATA_SIZE.

(** The same of every channel, and of the local [next] of the task. *)
Definition rings_ok (c : task_pc * driver) : Prop :=
  Forall in_ring (stepper (snd c)) /\
  match fst c with
  | Steps _ _ _ next => 0 <= next < STEPPER_RMT_DATA_SIZE
  | _ => True
  end.

(** The stores of a run of the encoding loop, one after the other: the
    first store of a run that begins a round moves the head to the [next]
    of the task, every other store to the slot after the head. *)
Fixpoint push_all (first : bool) (next : Z) (ws : list Z) (p : stepper_t)
    : stepper_t :=
  match ws with
  | [] => p
  | v :: ws' =>
    push_all false next ws'
      (push_at v (if first then next else ring_next (rmt_data_head p)) p)
  end.

(** The first item of a step of [T] ticks (lines 204-225): what it holds
    at level 0 after the pulse, and the ticks that the loop has left to
    encode after it. *)
Definition first_low (T : Z) : Z :=
  if u32 (T - STEPPER_PULSE_TICKS) <? 32767
  then u32 (T - STEPPER_PULSE_TICKS) else 32767.

Definition after_first (T : Z) : Z :=
  if u32 (T - STEPPER_PULSE_TICKS) <? 32767 then 0 else u32 (T - 32767).

(** [q'] is [q] after a round of the loop over the steps that encoded [T]
    ticks from the slot [next] on.  Its stores were, in this order: the
    first item, with the pulse and [first_low T]; the words [ws], which
    hold level 0 only; and, when this was the last step, an end marker.
    The durations of [ws] and the ticks [left] when the buffer filled come
    to [after_first T].  The carry is [left], or the one of [q] where
    [left] is 0 and the loop ended on its own test; the step is counted
    down when the carry is 0. *)
Definition round_encodes (T next : Z) (q q' : stepper_t) : Prop :=
  exists ws e left,
    rmt_data q'
    = rmt_data (push_all true next
                  (mk_item 1 STEPPER_PULSE_TICKS 0 (first_low T) :: ws ++ e) q) /\
    rmt_data_head q'
    = rmt_data_head (push_all true next
                       (mk_item 1 STEPPER_PULSE_TICKS 0 (first_low T) :: ws ++ e) q) /\
    Forall (fun v => is_pulse v = false) ws /\
    items_ticks ws + left = after_first T /\ 0 <= left /\
    (rmt_ticks_remain q' = left \/
     left = 0 /\ rmt_ticks_remain q' = rmt_ticks_remain q) /\
    steps q' = (if rmt_ticks_remain q' =? 0 then u32 (steps q - 1) else steps q) /\
    (e = [] \/ e = [0] /\ steps q' = 0).

(** The items of a circular buffer: the slots from the tail up to the head. *)
Definition occupancy (p : stepper_t) : Z :=
  (rmt_data_head p - rmt_data_tail p) mod STEPPER_RMT_DATA_SIZE.

(** The slots that the producer may still fill before the slot after the
    head is the tail. *)
Definition free_slots (p : stepper_t) : Z :=
  (rmt_data_tail p - rmt_data_head p - 1) mod STEPPER_RMT_DATA_SIZE.

(** What bounds the rounds of the loop over the steps of a channel: the
    steps left, then the free slots, then whether the test of the loop can
    still pass. *)
Definition rounds_left (next : Z) (p : stepper_t) : Z :=
  steps p * (2 * STEPPER_RMT_DATA_SIZE) + 2 * free_slots p
  + (if next =? rmt_data_tail p then 0 else 1).

(** The channel has its buffer: [rmt_data] points to the array of
    [STEPPER_RMT_DATA_SIZE] words that [stepper_setup] allocates, and no
    store of the task has strayed. *)
Definition has_buffer (p : stepper_t) : Prop :=
  length (rmt_data p) = Z.to_nat STEPPER_RMT_DATA_SIZE /\
  stray_store p = false.

(** Every channel that the mask [m] names has its buffer. *)
Definition buffers_of (m : Z) (st : driver) : Prop :=
  forall i p, 0 <= i -> Z.testbit m i = true ->
    stepper st !! Z.to_nat i = Some p -> has_buffer p.

(** The task, left alone, comes from [c] to the place [pc'] of its loop
    after some loop tests, and has taken nothing more from its queue. *)
Definition leads (c : task_pc * driver) (pc' : task_pc) : Prop :=
  exists k,
    fst (task_run k c) = pc' /\
    acceleration_queue (snd (task_run k c)) = acceleration_queue (snd c).

(** ** The driver and its callers

    The calls of [stepper_setup] and [stepper_move] beside the events
    above.  A call that indexes [stepper] outside of the table ends the
    run: what the program does from there is not defined. *)
Inductive api_event :=
  | Sys (e : event)
  | CallSetup (env : setup_env) (step_pin_ dir_pin_ : Z)
      (min_s max_s max_a stpu : real) (unit0 : Z)
  | CallMove (unit : Z) (units initial_spd target_spd acc jerk : real).

Definition api_step (e : api_event) (c : task_pc * driver)
    : option (task_pc * driver) :=
  match e with
  | Sys e' => Some (sys_step e' c)
  | CallSetup env step_pin_ dir_pin_ min_s max_s max_a stpu unit0 =>
    match stepper_setup env step_pin_ dir_pin_ min_s max_s max_a stpu unit0
            (snd c) with
    | Returns _ _ st => Some (fst c, st)
    | OutOfBounds _ => None
    end
  | CallMove unit units initial_spd target_spd acc jerk =>
    match stepper_move unit units initial_spd target_spd acc jerk (snd c) with
    | Returns _ _ st => Some (fst c, st)
    | OutOfBounds _ => None
    end
  end.

Fixpoint api_run (es : list api_event) (c : task_pc * driver)
    : option (task_pc * driver) :=
  match es with
  | [] => Some c
  | e :: es' =>
    match api_step e c with
    | Some c' => api_run es' c'
    | None => None
    end
  end.

(** The table has its [NSTEP] slots, heads and tails index the buffers,
    the counters hold 32-bit values, and a configured channel has a step
    pin that passed the check of [stepper_setup]. *)
Definition well_formed (c : task_pc * driver) : Prop :=
  length (stepper (snd c)) = Z.to_nat NSTEP /\
  rings_ok c /\
  Forall (fun p => typed p = true /\ (setup p = true -> step_pin p <= 31))
    (stepper (snd c)).

End Driver.

Arguments Returns {M A} err out st.
Arguments OutOfBounds {M A} index.

(** * A concrete board *)
Module Board.

#[export] Instance esp32 : StepperH :=
  {| NSTEP := 8; STEPPER_RMT_BUFF_SIZE := 64; STEPPER_RMT_DATA_SIZE := 256;
     STEPPER_PULSE_TICKS := 40; USE_HARDWARE_LOCKS := false |}.

(** A motion model of constant period: reals are integers, a model is the
    number of ticks of each of its steps (the target speed argument). *)
#[export] Instance constant_period : MotionH :=
  {| real := Z; motion_t := Z; motion_init := 0;
     real_zero := 0; real_recip := fun x => x; real_fabs := Z.abs;
     real_ge0 := fun x => 0 <=? x;
     step_count := fun u spu => Z.abs u * spu;
     step_ticks := fun t => t;
     motion_prepare := fun c m => let '(_, v, _, _, _, _, _) := c in v;
     motion_next := fun m => (m, m) |}.

Definition hw0 : hw_t :=
  {| RMT_ch := fun _ _ => 0; RMTMEM := fun _ _ => 0; RMT_fifo_mask := 0;
     RMT_mem_tx_wrap_en := 0; RMT_int_ena := 0; RMT_int_clr := [];
     gpio_level := fun _ => false; gpio_output := fun _ => false |}.

Definition env_ok : setup_env :=
  {| calloc_ok := true; queue_ok := true; task_ok := true;
     lock_step_err := None; lock_dir_err := None;
     gpio_step_err := None; gpio_dir_err := None |}.

Definition state_after {A} (d : driver) (o : outcome A) : driver :=
  match o with Returns _ _ st => st | OutOfBounds _ => d end.

Definition result_of {A} (o : outcome A) : option (option stepper_err * A) :=
  match o with Returns e a _ => Some (e, a) | OutOfBounds _ => None end.

(** [n] calls of [stepper_setup] from [k]: step pin [2k], dir pin [2k+1],
    one step per unit, the caller's [*unit] initialised to 0. *)
Fixpoint setups (n : nat) (k : Z) (st : driver) : driver :=
  match n with
  | O => st
  | S n' =>
    setups n' (k + 1)
      (state_after st (stepper_setup env_ok (2 * k) (2 * k + 1) 0 0 0 1 0 st))
  end.

(** All eight channels configured. *)
Definition all8 : driver := setups 8 0 (stepper_init hw0).

(** [stepper_move(unit, units, 0, period, 0, 0)] on [st]. *)
Definition moved (unit units period : Z) (st : driver) : driver :=
  state_after st (stepper_move unit units 0 period 0 0 st).

(** The state once the task, woken by [stepper_start(mask)] of task 1, has
    made [n] loop tests. *)
Definition cycle (n : nat) (mask : Z) (st : driver) : task_pc * driver :=
  task_run n (Waiting, stepper_start 1 mask st).

Definition chan (i : nat) (c : task_pc * driver) : stepper_t :=
  default stepper_zero (stepper (snd c) !! i).

(** Channels 0 and 2 moving 100 and 250 steps of 2000 ticks, started
    together; after 361 loop tests the task waits for the next request. *)
Definition two_running : driver :=
  snd (cycle 361 5 (moved 2 250 2000 (moved 0 100 2000 all8))).

(** Channel 0 moving 200 steps of 70000 ticks, two items each: the first
    cycle fills the 255 free slots and suspends step 128 after its first
    item; a threshold interrupt then frees 32 slots and requests a refill,
    and the task resumes the step. *)
Definition long_move : driver := moved 0 200 70000 all8.

Definition first_fill : list event := CallStart 1 1 :: repeat TaskTest 134.

Definition refill : list event := Interrupt (BIT 24) :: repeat TaskTest 3.

(** One configured channel only. *)
Definition one_channel : driver := setups 1 0 (stepper_init hw0).

(** [long_move] after the first fill: the buffer of channel 0 is full. *)
Definition filled : driver := snd (sys_run first_fill (Waiting, long_move)).

(** One step of 2000 ticks encoded, the task about to start the
    transmission of channel 0. *)
Definition about_to_start : driver := snd (cycle 5 1 (moved 0 1 2000 all8)).

(** [calloc] fails. *)
Definition env_no_memory : setup_env :=
  {| calloc_ok := false; queue_ok := true; task_ok := true;
     lock_step_err := None; lock_dir_err := None;
     gpio_step_err := None; gpio_dir_err := None |}.

(** A request for channel 0 waits in the queue. *)
Definition requested : driver := stepper_start 1 1 (moved 0 5 2000 one_channel).

(** A step of 100000 ticks about to be encoded, and what the encoding loop
    makes of it. *)
Definition step_input : stepper_t := chan 0 (Waiting, moved 0 1 100000 all8).

Definition step_output : Z * stepper_t :=
  default (0, step_input)
    (encode_items (encode_rounds 100000) true 100000 1 step_input).

(** Channel 0 configured, channel 1 requested: the task has taken the mask
    2 and shifted it once. *)
Definition unserved : driver := snd (cycle 2 2 one_channel).

(** A session: a setup, a move, a start, a cycle of the task, an interrupt. *)
Definition session : list api_event :=
  [CallSetup env_ok 0 1 0 0 0 1 0; CallMove 0 3 0 2000 0 0;
   Sys (CallStart 1 1)] ++ map Sys (repeat TaskTest 12)
  ++ [Sys (Interrupt (BIT 24)); Sys (CallStop 1)].

Definition after_session : task_pc * driver :=
  default (Waiting, stepper_init hw0)
    (api_run session (Waiting, stepper_init hw0)).

End Board.

(** * Facts that hold for every board and every motion model *)

Section DriverFacts.

Context `{H : StepperH} `{M : MotionH}.

#[local] Ltac Zify.zify_post_hook ::= Z.div_mod_to_equations.

Lemma u32_range z : 0 <= u32 z < 4294967296.
Proof. unfold u32. change (2 ^ 32) with 4294967296. lia. Qed.

Lemma u8_range z : 0 <= u8 z < 256.
Proof. unfold u8. change (2 ^ 8) with 256. lia. Qed.

Lemma u32_id z : 0 <= z < 4294967296 -> u32 z = z.
Proof. unfold u32. change (2 ^ 32) with 4294967296. lia. Qed.

Lemma typed_spec p :
  typed p = true <->
  0 <= steps p < 4294967296 /\ 0 <= rmt_ticks_remain p < 4294967296.
Proof. unfold typed. rewrite !andb_true_iff. lia. Qed.

(** *** [stepper_stop] *)

Lemma stop_loop_start_num n : forall mask testMask channel st,
  0 <= start_num st ->
  0 <= start_num (stop_loop n mask testMask channel st) <= start_num st.
Proof.
  induction n as [|n IH]; intros mask testMask channel st Hst; cbn [stop_loop].
  - lia.
  - destruct (testMask =? BIT (NSTEP - 1)); [lia|].
    destruct (tst (start_mask st) testMask).
    + match goal with |- context [stop_loop n ?a ?b ?c ?s] =>
        specialize (IH a b c s); set (s1 := s) in * end.
      assert (Hs1 : start_num s1 =
                    if 0 <? start_num st then u8 (start_num st - 1)
                    else start_num st).
      { subst s1. cbn [set_hw start_num]. destruct (0 <? start_num st); reflexivity. }
      pose proof (u8_range (start_num st - 1)) as Hu.
      destruct (0 <? start_num st) eqn:Hpos.
      * assert (u8 (start_num st - 1) <= start_num st - 1)
          by (unfold u8; apply Z.mod_le; lia).
        lia.
      * lia.
    + apply IH. lia.
Qed.

Lemma stepper_stop_start_num mask st :
  0 <= start_num st ->
  0 <= start_num (stepper_stop mask st) <= start_num st.
Proof.
  intros Hst. unfold stepper_stop.
  pose proof (stop_loop_start_num (Z.to_nat NSTEP) mask 1 0 st Hst).
  destruct (start_num _ =? 0); cbn [notify_give start_num]; lia.
Qed.

Lemma stop_loop_stepper n : forall mask testMask channel st,
  stepper (stop_loop n mask testMask channel st) = stepper st.
Proof.
  induction n as [|n IH]; intros; cbn [stop_loop]; [reflexivity|].
  destruct (testMask =? BIT (NSTEP - 1)); [reflexivity|].
  rewrite IH.
  destruct (tst (start_mask st) testMask); [|reflexivity].
  cbn [set_hw start_num]. destruct (0 <? start_num st); reflexivity.
Qed.

Lemma stepper_stop_stepper mask st :
  stepper (stepper_stop mask st) = stepper st.
Proof.
  unfold stepper_stop. destruct (start_num _ =? 0); cbn [notify_give stepper];
    apply stop_loop_stepper.
Qed.

Lemma stepper_start_stepper self mask st :
  stepper (stepper_start self mask st) = stepper st.
Proof.
  unfold stepper_start, queue_send. reflexivity.
Qed.

(** *** The loops over [testMask] stop at the bit of channel [NSTEP - 1] *)

Lemma BIT_pow n : 0 <= n -> BIT n = 2 ^ n.
Proof. intros Hn. unfold BIT. rewrite Z.shiftl_mul_pow2 by assumption. lia. Qed.

Lemma BIT_inj a b : 0 <= a -> 0 <= b -> BIT a = BIT b -> a = b.
Proof.
  intros Ha Hb. rewrite !BIT_pow by assumption.
  apply Z.pow_inj_r; lia.
Qed.

Lemma BIT_double n : 0 <= n -> Z.shiftl (BIT n) 1 = BIT (n + 1).
Proof. intros Hn. unfold BIT. apply Z.shiftl_shiftl. assumption. Qed.

(** With [n] rounds left up to the bit of channel [NSTEP - 1], more rounds
    in the bound change nothing: the loop leaves by its test. *)
Lemma stop_loop_bound n : forall k j mask channel st,
  (1 <= n)%nat -> 0 <= j -> Z.of_nat n = NSTEP - j ->
  stop_loop (n + k) mask (BIT j) channel st
  = stop_loop n mask (BIT j) channel st.
Proof.
  induction n as [|n IH]; intros k j mask channel st Hn Hj Hnj; [lia|].
  cbn [stop_loop Nat.add].
  destruct (BIT j =? BIT (NSTEP - 1)) eqn:E; [reflexivity|].
  assert (j <> NSTEP - 1) by (intros ->; lia).
  rewrite BIT_double by assumption.
  apply IH; lia.
Qed.

(** The direction loop of [stepper_start] never looks at the last channel
    of the table. *)
Lemma start_dir_loop_ignores_last n : forall j mask ps q q' h,
  (1 <= n)%nat -> 0 <= j -> Z.of_nat n = NSTEP - j ->
  length ps = (n - 1)%nat ->
  start_dir_loop n mask (BIT j) (ps ++ [q]) h
  = start_dir_loop n mask (BIT j) (ps ++ [q']) h.
Proof.
  induction n as [|n IH]; intros j mask ps q q' h Hn Hj Hnj Hlen; [lia|].
  cbn [start_dir_loop].
  destruct (BIT j =? BIT (NSTEP - 1)) eqn:E; [reflexivity|].
  assert (j <> NSTEP - 1) by (intros ->; lia).
  destruct ps as [|p ps]; [cbn in Hlen; lia|].
  cbn [app]. rewrite BIT_double by assumption.
  apply IH; cbn in Hlen; lia.
Qed.

(** *** [stepper_setup]: the search for a free slot *)

Lemma find_free_le n : forall i unit ps,
  fst (find_free n i unit ps) <= i + Z.of_nat n.
Proof.
  induction n as [|n IH]; intros i unit ps; cbn [find_free]; [cbn; lia|].
  destruct ps as [|p ps]; [cbn; lia|].
  destruct (negb (setup p)); [cbn; lia|].
  specialize (IH (i + 1) unit ps). lia.
Qed.

(** The test [i > NSTEP] after the search never holds. *)
Lemma stepper_setup_never_exhausted env step_pin_ dir_pin_ min_s max_s max_a
    stpu unit0 st e unit st' :
  0 <= NSTEP ->
  stepper_setup env step_pin_ dir_pin_ min_s max_s max_a stpu unit0 st
    = Returns e unit st' ->
  e <> Some STEPPER_ERR_NO_MORE_UNITS.
Proof.
  intros HN. unfold stepper_setup.
  destruct (31 <? step_pin_); [intros [= <- _ _]; discriminate|].
  pose proof (find_free_le (Z.to_nat NSTEP) 0 unit0 (stepper st)) as Hle.
  destruct (find_free _ _ _ _) as [i u]. cbn [fst] in Hle.
  destruct (NSTEP <? i) eqn:Hi; [lia|].
  destruct (stepper st !! Z.to_nat u) as [p|]; [|discriminate].
  destruct (negb (calloc_ok env)); [intros [= <- _ _]; discriminate|].
  destruct (acceleration_profile_task_h _);
    [|destruct (negb (queue_ok env));
      [intros [= <- _ _]; discriminate
      |destruct (negb (task_ok env)); [intros [= <- _ _]; discriminate|]]].
  all: destruct USE_HARDWARE_LOCKS;
    repeat match goal with
    | |- context [match ?o with Some _ => _ | None => _ end] => destruct o
    end;
    intros [= <- _ _]; discriminate.
Qed.

(** With a free slot, the search yields the lowest free index. *)
Lemma find_free_lowest ps : forall n i unit k p,
  ps !! k = Some p -> setup p = false ->
  (forall j q, (j < k)%nat -> ps !! j = Some q -> setup q = true) ->
  (k < n)%nat ->
  find_free n i unit ps = (i + Z.of_nat k, u8 (i + Z.of_nat k)).
Proof.
  induction ps as [|p0 ps IH]; intros n i unit k p Hk Hp Hlow Hn;
    [discriminate|].
  destruct n as [|n]; [lia|]. cbn [find_free].
  destruct k as [|k].
  - cbn in Hk. injection Hk as ->. rewrite Hp. cbn [negb].
    replace (i + Z.of_nat 0) with i by lia. reflexivity.
  - rewrite (Hlow 0%nat p0) by first [lia|reflexivity]. cbn [negb].
    replace (i + Z.of_nat (S k)) with (i + 1 + Z.of_nat k) by lia.
    apply (IH n (i + 1) unit k p); [assumption..| |lia].
    intros j q Hj Hq. apply (Hlow (S j) q); [lia|exact Hq].
Qed.

(** *** [stepper_move]: the range check *)

Lemma move_above_NSTEP unit units initial_spd target_spd acc jerk st :
  NSTEP < unit ->
  stepper_move unit units initial_spd target_spd acc jerk st
  = Returns (Some STEPPER_ERR_INVALID_UNIT) () st.
Proof.
  intros Hu. unfold stepper_move.
  destruct (NSTEP <? unit) eqn:E; [reflexivity|lia].
Qed.

Lemma move_not_setup unit units initial_spd target_spd acc jerk st p :
  unit <= NSTEP -> stepper st !! Z.to_nat unit = Some p -> setup p = false ->
  stepper_move unit units initial_spd target_spd acc jerk st
  = Returns (Some STEPPER_ERR_UNIT_NOT_SETUP) () st.
Proof.
  intros Hu Hp Hs. unfold stepper_move.
  destruct (NSTEP <? unit) eqn:E; [lia|].
  rewrite Hp, Hs. reflexivity.
Qed.

(** Unit [NSTEP] passes the range check, whatever the table holds. *)
Lemma move_unit_NSTEP_not_invalid units initial_spd target_spd acc jerk st
    e st' :
  stepper_move NSTEP units initial_spd target_spd acc jerk st
    = Returns e () st' ->
  e <> Some STEPPER_ERR_INVALID_UNIT.
Proof.
  unfold stepper_move. rewrite Z.ltb_irrefl.
  destruct (stepper st !! Z.to_nat NSTEP) as [p|]; [|discriminate].
  destruct (negb (setup p)); intros [= <- _]; discriminate.
Qed.

(** *** The task: the end marker *)

(** After an end marker on a channel that has its buffer the task is back
    at the same test for the same channel: the marker is written again as
    long as a slot is free. *)
Lemma end_marker_repeats cfm cm n st p :
  cm <> 0 -> tst cm 1 = true ->
  stepper st !! Z.to_nat n = Some p ->
  steps p = 0 -> ring_next (rmt_data_head p) <> rmt_data_tail p ->
  store_ok p = true -> stray_store p = false ->
  task_step (Fill cfm cm n, st)
  = (Fill cfm cm n,
     put_stepper n (push_at 0 (ring_next (rmt_data_head p)) p) st).
Proof.
  intros Hcm Hbit Hp Hs Hfree Hok Hstray. unfold task_step.
  destruct (cm =? 0) eqn:E; [lia|].
  rewrite Hbit, Hp, Hs.
  destruct (ring_next (rmt_data_head p) =? rmt_data_tail p) eqn:E2; [lia|].
  cbn [stray_store push_at andb negb Z.eqb]. rewrite Hok, Hstray. reflexivity.
Qed.

(** *** The encoder: the first item of a long step *)

(** When the step does not fit the first item, the item carries the pulse
    and 32767 more ticks, and only 32767 ticks are taken off the step. *)
Lemma first_item_of_long_step n ticks next p :
  0 < ticks -> 32767 <= u32 (ticks - STEPPER_PULSE_TICKS) ->
  encode_items (S n) true ticks next p
  = encode_items n false (u32 (ticks - 32767)) next
      (push_at (mk_item 1 STEPPER_PULSE_TICKS 0 32767) next p).
Proof.
  intros Ht Hlong. cbn [encode_items].
  destruct (0 <? ticks) eqn:E1; [|lia].
  destruct (u32 (ticks - STEPPER_PULSE_TICKS) <? 32767) eqn:E2; [lia|].
  reflexivity.
Qed.

(** *** The encoding loop *)

(** The loop writes items and the carry, nothing else. *)
Lemma encode_items_frame n : forall first ticks next p next' p',
  encode_items n first ticks next p = Some (next', p') ->
  steps p' = steps p /\ next_calls p' = next_calls p /\ motion p' = motion p /\
  (0 <= ticks < 4294967296 ->
   0 <= rmt_ticks_remain p < 4294967296 ->
   0 <= rmt_ticks_remain p' < 4294967296).
Proof.
  induction n as [|n IH]; intros first ticks next p next' p' E;
    cbn [encode_items] in E; [discriminate|].
  destruct (0 <? ticks) eqn:Ht.
  - destruct first.
    + destruct (u32 (ticks - STEPPER_PULSE_TICKS) <? 32767);
        apply IH in E; cbn in E; destruct E as (E1 & E2 & E3 & E4);
        repeat split; try assumption; intros; apply E4;
        try apply u32_range; lia.
    + destruct (negb (ring_next (rmt_data_head p) =? rmt_data_tail p)).
      * destruct (ticks <? Z.shiftl 32767 1);
          apply IH in E; cbn in E; destruct E as (E1 & E2 & E3 & E4);
          repeat split; try assumption; intros; apply E4;
          try apply u32_range; lia.
      * injection E as <- <-. cbn. repeat split; lia.
  - injection E as <- <-. repeat split; lia.
Qed.

Lemma encode_items_ticks n : forall first ticks next p next' p',
  encode_items n first ticks next p = Some (next', p') ->
  rmt_ticks p' = rmt_ticks p.
Proof.
  induction n as [|n IH]; intros first ticks next p next' p' E;
    cbn [encode_items] in E; [discriminate|].
  destruct (0 <? ticks).
  - destruct first.
    + destruct (u32 (ticks - STEPPER_PULSE_TICKS) <? 32767);
        apply IH in E; exact E.
    + destruct (negb (ring_next (rmt_data_head p) =? rmt_data_tail p)).
      * destruct (ticks <? Z.shiftl 32767 1); apply IH in E; exact E.
      * injection E as <- <-. reflexivity.
  - injection E as <- <-. reflexivity.
Qed.

(** After the first item every round takes 65534 ticks or ends the loop. *)
Lemma encode_more_total n : forall ticks next p,
  0 <= ticks < 4294967296 ->
  ticks / 65534 + 2 <= Z.of_nat n ->
  is_Some (encode_items n false ticks next p).
Proof.
  induction n as [|n IH]; intros ticks next p Ht Hn; [lia|].
  cbn [encode_items].
  destruct (0 <? ticks) eqn:Hpos; [|eauto].
  destruct (negb (ring_next (rmt_data_head p) =? rmt_data_tail p)); [|eauto].
  change (Z.shiftl 32767 1) with 65534.
  destruct (ticks <? 65534) eqn:Hlt.
  - destruct n as [|n]; [lia|]. cbn. eauto.
  - assert (E : u32 (u32 (ticks - 32767) - 32767) = ticks - 65534).
    { rewrite (u32_id (ticks - 32767)) by lia. rewrite u32_id by lia. lia. }
    rewrite E. apply IH; lia.
Qed.

Lemma encode_items_total ticks next p :
  0 <= ticks < 4294967296 ->
  is_Some (encode_items (encode_rounds ticks) true ticks next p).
Proof.
  intros Ht. unfold encode_rounds.
  pose proof (u32_range (ticks - 32767)) as Hw.
  set (m := Z.max ticks (u32 (ticks - 32767))).
  assert (Hm : 0 <= m < 4294967296) by (subst m; lia).
  assert (Hm1 : ticks <= m) by (subst m; lia).
  assert (Hm2 : u32 (ticks - 32767) <= m) by (subst m; lia).
  destruct (Z.to_nat (m / 65534 + 3)) as [|n] eqn:En; [lia|].
  cbn [encode_items].
  destruct (0 <? ticks); [|eauto].
  destruct (u32 (ticks - STEPPER_PULSE_TICKS) <? 32767).
  - apply encode_more_total; lia.
  - apply encode_more_total; [apply u32_range|].
    assert (u32 (ticks - 32767) / 65534 <= m / 65534)
      by (apply Z.div_le_mono; lia).
    lia.
Qed.

(** *** One call of [motion_next] for every step *)

Lemma keeps_account_refl p : keeps_account p p.
Proof. intros Hp. split; [assumption|reflexivity]. Qed.

Lemma keeps_account_trans p q r :
  keeps_account p q -> keeps_account q r -> keeps_account p r.
Proof.
  intros Hpq Hqr Hp. destruct (Hpq Hp) as [Hq E1].
  destruct (Hqr Hq) as [Hr E2]. split; [assumption|congruence].
Qed.

(** Channels that agree on the four fields of the account. *)
Lemma keeps_account_fields p p' :
  steps p' = steps p -> rmt_ticks_remain p' = rmt_ticks_remain p ->
  next_calls p' = next_calls p -> keeps_account p p'.
Proof.
  intros E1 E2 E3 Hp. unfold typed, account, pending in *.
  rewrite E1, E2, E3. split; [assumption|reflexivity].
Qed.

Lemma table_refl (l : list stepper_t) : Forall2 keeps_account l l.
Proof. apply Forall_Forall2_diag, Forall_forall. intros; apply keeps_account_refl. Qed.

Lemma table_trans (l k m : list stepper_t) :
  Forall2 keeps_account l k -> Forall2 keeps_account k m ->
  Forall2 keeps_account l m.
Proof. apply Forall2_trans. apply keeps_account_trans. Qed.

Lemma table_insert (l : list stepper_t) i p p' :
  l !! i = Some p -> keeps_account p p' ->
  Forall2 keeps_account l (<[i:=p']> l).
Proof.
  intros Hi Hp. rewrite <- (list_insert_id l i p Hi) at 1.
  apply Forall2_insert; [apply table_refl|assumption].
Qed.

(** A round of the loop over the steps: a new step costs one call and is
    either counted down or left pending; a pending step costs no call. *)
Lemma step_body_account next p :
  0 < steps p -> keeps_account p (snd (step_body next p)).
Proof.
  intros Hpos Hp. apply typed_spec in Hp as Hp'. destruct Hp' as [Hs Hr].
  unfold step_body.
  set (start := if rmt_ticks_remain p =? 0 then _ else _).
  assert (Hstart :
    0 <= fst start < 4294967296 /\
    steps (snd start) = steps p /\
    rmt_ticks_remain (snd start) = rmt_ticks_remain p /\
    next_calls (snd start)
    = if rmt_ticks_remain p =? 0 then S (next_calls p) else next_calls p).
  { subst start. destruct (rmt_ticks_remain p =? 0).
    - unfold call_motion_next. destruct (motion_next (motion p)) as [t m].
      cbn. pose proof (u32_range (step_ticks t)). repeat split; lia.
    - cbn. repeat split; lia. }
  destruct start as [ticks p1]. cbn [fst snd] in Hstart.
  destruct Hstart as (Ht & E1 & E2 & E3).
  destruct (encode_items_total ticks next p1 Ht) as [[next1 p2] E].
  rewrite E.
  apply encode_items_frame in E. destruct E as (F1 & F2 & F3 & F4).
  specialize (F4 Ht). rewrite E2 in F4. specialize (F4 Hr).
  assert (Hcalls : Z.of_nat (next_calls p2)
                   = Z.of_nat (next_calls p) + (1 - pending p)).
  { rewrite F2, E3. unfold pending. destruct (rmt_ticks_remain p =? 0); lia. }
  destruct (0 <? rmt_ticks_remain p2) eqn:Hrem; cbn [snd].
  - split; [apply typed_spec; lia|].
    unfold account. unfold pending at 1.
    destruct (rmt_ticks_remain p2 =? 0) eqn:Hz; lia.
  - assert (Hz : rmt_ticks_remain p2 = 0) by lia.
    assert (Hdec : u32 (steps p2 - 1) = steps p - 1)
      by (rewrite u32_id; lia).
    assert (Hend : forall q, steps q = steps p - 1 ->
                   rmt_ticks_remain q = 0 -> next_calls q = next_calls p2 ->
                   typed q = true /\ account q = account p).
    { intros q Q1 Q2 Q3. split; [apply typed_spec; lia|].
      assert (Q4 : pending q = 0) by (unfold pending; rewrite Q2; reflexivity).
      unfold account. rewrite Q1, Q3, Q4. lia. }
    cbn [steps set_steps].
    destruct (u32 (steps p2 - 1) =? 0);
      [destruct (negb _)|]; cbn [snd]; apply Hend; cbn; lia.
Qed.

(** The copy into the playback window moves the tail only. *)
Lemma start_copy_fields n : forall stepper_num idx p h,
  let p' := fst (start_copy n stepper_num idx p h) in
  steps p' = steps p /\ rmt_ticks_remain p' = rmt_ticks_remain p /\
  next_calls p' = next_calls p.
Proof.
  induction n as [|n IH]; intros stepper_num idx p h; cbn [start_copy].
  - cbn. auto.
  - match goal with |- context [start_copy n ?a ?b ?c ?d] =>
      specialize (IH a b c d) end.
    cbn in *. exact IH.
Qed.

(** A loop test of the task keeps the account of every channel. *)
Lemma task_step_account c :
  Forall2 keeps_account (stepper (snd c)) (stepper (snd (task_step c))).
Proof.
  destruct c as [pc st]. unfold task_step.
  destruct pc as [|cfm cm n|cfm cm n next|cfm cm n|]; cbn [snd].
  - destruct (acceleration_queue st) as [[|m q]|]; cbn; apply table_refl.
  - destruct (cm =? 0); [apply table_refl|].
    destruct (tst cm 1); [|apply table_refl].
    destruct (stepper st !! Z.to_nat n) as [p|] eqn:Hp; [|apply table_refl].
    destruct (_ && _); cbv zeta; [|apply table_refl].
    destruct (stray_store _); [apply table_refl|]. cbn.
    apply (table_insert _ _ p); [assumption|].
    apply keeps_account_fields; reflexivity.
  - destruct (stepper st !! Z.to_nat n) as [p|] eqn:Hp; [|apply table_refl].
    destruct ((0 <? steps p) && _) eqn:Hc; [|apply table_refl].
    apply andb_true_iff in Hc as [Hc _].
    pose proof (step_body_account next p ltac:(lia)) as Hb.
    destruct (step_body next p) as [next1 p1].
    destruct (stray_store p1); [apply table_refl|]. cbn.
    apply (table_insert _ _ p); assumption.
  - destruct (cm =? 0); [apply table_refl|].
    destruct (tst cm 1); [|apply table_refl].
    destruct (stepper st !! Z.to_nat n) as [p|] eqn:Hp; [|apply table_refl].
    destruct (_ && _); [|apply table_refl].
    pose proof (start_copy_fields (Z.to_nat STEPPER_RMT_BUFF_SIZE) n 0 p (hw st))
      as (E1 & E2 & E3).
    destruct (start_copy _ _ _ _ _) as [p1 h1]. cbn in *.
    apply (table_insert _ _ p); [assumption|].
    apply keeps_account_fields; assumption.
  - apply table_refl.
Qed.

(** The interrupt handler moves tails and offsets only. *)
Lemma isr_drain_fields n : forall channel i p h,
  let p' := snd (fst (isr_drain n channel i p h)) in
  steps p' = steps p /\ rmt_ticks_remain p' = rmt_ticks_remain p /\
  next_calls p' = next_calls p.
Proof.
  induction n as [|n IH]; intros channel i p h; cbn [isr_drain].
  - cbn. auto.
  - destruct (negb _); [|cbn; auto].
    match goal with |- context [isr_drain n ?a ?b ?c ?d] =>
      specialize (IH a b c d) end.
    cbn in *. exact IH.
Qed.

Lemma isr_channel_account intr_st channel st :
  Forall2 keeps_account (stepper st) (stepper (isr_channel intr_st channel st)).
Proof.
  unfold isr_channel.
  set (st1 := if tst intr_st (BIT (channel * 3)) then _ else st).
  assert (E : stepper st1 = stepper st).
  { subst st1. destruct (tst intr_st (BIT (channel * 3))); [|reflexivity].
    destruct (_ =? 0); reflexivity. }
  destruct (tst intr_st (BIT (24 + channel))); [|rewrite E; apply table_refl].
  destruct (stepper st1 !! Z.to_nat channel) as [p|] eqn:Hp;
    [|rewrite E; apply table_refl].
  pose proof (isr_drain_fields (Z.to_nat (Z.shiftr STEPPER_RMT_BUFF_SIZE 1))
                channel 0 p (int_clr_write (BIT (24 + channel)) (hw st1)))
    as (E1 & E2 & E3).
  destruct (isr_drain _ _ _ _ _) as [[i p1] h2]. cbn [fst snd] in *.
  assert (Ht : Forall2 keeps_account (stepper st)
                 (<[Z.to_nat channel :=
                      set_rmt_offset
                        ((rmt_offset p1 + Z.shiftr STEPPER_RMT_BUFF_SIZE 1)
                           mod STEPPER_RMT_BUFF_SIZE) p1]> (stepper st1))).
  { rewrite E in *. apply (table_insert _ _ p); [assumption|].
    apply keeps_account_fields; assumption. }
  destruct (0 <? i); [|exact Ht].
  unfold queue_send_from_isr. cbn [acceleration_queue set_hw set_stepper].
  destruct (acceleration_queue st1) as [q|]; [|exact Ht].
  destruct (length q <? 100)%nat; exact Ht.
Qed.

Lemma isr_loop_account n : forall intr_st channel st,
  Forall2 keeps_account (stepper st) (stepper (isr_loop n intr_st channel st)).
Proof.
  induction n as [|n IH]; intros; cbn [isr_loop]; [apply table_refl|].
  eapply table_trans; [apply isr_channel_account|apply IH].
Qed.

Lemma sys_step_account e c :
  Forall2 keeps_account (stepper (snd c)) (stepper (snd (sys_step e c))).
Proof.
  destruct e; cbn [sys_step snd].
  - apply task_step_account.
  - apply isr_loop_account.
  - rewrite stepper_start_stepper. apply table_refl.
  - rewrite stepper_stop_stepper. apply table_refl.
Qed.

Lemma sys_run_account es : forall c,
  Forall2 keeps_account (stepper (snd c)) (stepper (snd (sys_run es c))).
Proof.
  induction es as [|e es IH]; intros c; cbn [sys_run]; [apply table_refl|].
  eapply table_trans; [apply sys_step_account|apply IH].
Qed.

(** A round that resumes a pending step leaves the motion model alone. *)
Lemma step_body_resume next p :
  rmt_ticks_remain p <> 0 ->
  next_calls (snd (step_body next p)) = next_calls p /\
  motion (snd (step_body next p)) = motion p.
Proof.
  intros Hr. unfold step_body.
  destruct (rmt_ticks_remain p =? 0) eqn:Hz; [lia|].
  destruct (encode_items _ _ _ _ _) as [[next1 p2]|] eqn:E; [|cbn; auto].
  apply encode_items_frame in E. destruct E as (F1 & F2 & F3 & _).
  destruct (0 <? rmt_ticks_remain p2); [cbn; auto|].
  cbn [steps set_steps].
  destruct (u32 (steps p2 - 1) =? 0); [destruct (negb _)|]; cbn; auto.
Qed.

(** A round that begins a step asks the model once and keeps its answer. *)
Lemma step_body_fresh next p :
  rmt_ticks_remain p = 0 ->
  next_calls (snd (step_body next p)) = S (next_calls p) /\
  motion (snd (step_body next p)) = snd (motion_next (motion p)) /\
  rmt_ticks (snd (step_body next p))
  = u32 (step_ticks (fst (motion_next (motion p)))).
Proof.
  intros Hr. unfold step_body, call_motion_next. rewrite Hr.
  change (0 =? 0) with true. cbv iota.
  destruct (motion_next (motion p)) as [t m]. cbn [fst snd rmt_ticks set_rmt_ticks].
  destruct (encode_items _ _ _ _ _) as [[next1 p2]|] eqn:E; [|cbn; auto].
  pose proof (encode_items_ticks _ _ _ _ _ _ _ E) as F0.
  apply encode_items_frame in E. destruct E as (F1 & F2 & F3 & _).
  cbn in F0, F2, F3.
  destruct (0 <? rmt_ticks_remain p2); [cbn; auto|].
  cbn [steps set_steps].
  destruct (u32 (steps p2 - 1) =? 0); [destruct (negb _)|]; cbn; auto.
Qed.

(** *** Head and tail stay inside the buffer *)

Lemma ring_next_range i :
  0 < STEPPER_RMT_DATA_SIZE -> 0 <= ring_next i < STEPPER_RMT_DATA_SIZE.
Proof. intros Hd. unfold ring_next. apply Z.mod_pos_bound. assumption. Qed.

(** A store, stray or not, leaves the head where a slot can be. *)
Lemma push_at_ring v next p :
  in_ring p -> 0 <= next < STEPPER_RMT_DATA_SIZE -> in_ring (push_at v next p).
Proof.
  intros [Hh Ht] Hn. split; cbn; [destruct (store_ok p)|]; assumption.
Qed.

(** Where the slot exists the store is the plain one. *)
Lemma push_at_stored v next p :
  store_ok p = true ->
  push_at v next p
  = set_rmt_data_head next
      (set_rmt_data (<[Z.to_nat (rmt_data_head p) := v]> (rmt_data p)) p).
Proof. intros Hok. unfold push_at. rewrite Hok. reflexivity. Qed.

Lemma has_buffer_store_ok p : has_buffer p -> in_ring p -> store_ok p = true.
Proof.
  intros [Hlen _] [Hh _]. unfold store_ok. rewrite Hlen.
  apply andb_true_iff. split; [apply Z.leb_le|apply Z.ltb_lt]; lia.
Qed.

Lemma push_at_buffer v next p :
  has_buffer p -> in_ring p -> has_buffer (push_at v next p).
Proof.
  intros Hb Hp. rewrite push_at_stored by (apply has_buffer_store_ok; assumption).
  destruct Hb as [Hlen Hs]. split; cbn; [rewrite length_insert|]; assumption.
Qed.

Lemma push_at_length v next p :
  length (rmt_data (push_at v next p)) = length (rmt_data p).
Proof. cbn. destruct (store_ok p); [apply length_insert|reflexivity]. Qed.

Lemma push_at_head v next p :
  rmt_data_head (push_at v next p) = next \/
  rmt_data_head (push_at v next p) = rmt_data_head p.
Proof. cbn. destruct (store_ok p); auto. Qed.

Lemma encode_items_ring n : forall first ticks next p next' p',
  0 < STEPPER_RMT_DATA_SIZE ->
  encode_items n first ticks next p = Some (next', p') ->
  in_ring p -> 0 <= next < STEPPER_RMT_DATA_SIZE ->
  in_ring p' /\ 0 <= next' < STEPPER_RMT_DATA_SIZE.
Proof.
  induction n as [|n IH]; intros first ticks next p next' p' Hd E Hp Hn;
    cbn [encode_items] in E; [discriminate|].
  pose proof (ring_next_range (rmt_data_head p) Hd) as Hnext.
  destruct Hp as [Hh Ht].
  destruct (0 <? ticks).
  - destruct first.
    + destruct (u32 (ticks - STEPPER_PULSE_TICKS) <? 32767);
        apply IH in E; try assumption; apply push_at_ring; try assumption;
        split; cbn; assumption.
    + destruct (negb (ring_next (rmt_data_head p) =? rmt_data_tail p)).
      * destruct (ticks <? Z.shiftl 32767 1);
          apply IH in E; try assumption; apply push_at_ring; try assumption;
          split; cbn; assumption.
      * injection E as <- <-. split; [split; cbn; assumption|assumption].
  - injection E as <- <-. split; [split; assumption|assumption].
Qed.

Lemma step_body_ring next p :
  0 < STEPPER_RMT_DATA_SIZE ->
  in_ring p -> 0 <= next < STEPPER_RMT_DATA_SIZE ->
  in_ring (snd (step_body next p)) /\
  0 <= fst (step_body next p) < STEPPER_RMT_DATA_SIZE.
Proof.
  intros Hd Hp Hn. unfold step_body.
  set (start := if rmt_ticks_remain p =? 0 then _ else _).
  assert (Hstart : in_ring (snd start)).
  { subst start. destruct (rmt_ticks_remain p =? 0); [|exact Hp].
    unfold call_motion_next. destruct (motion_next (motion p)) as [t m].
    exact Hp. }
  destruct start as [ticks p1]. cbn [snd] in Hstart.
  destruct (encode_items _ _ _ _ _) as [[next1 p2]|] eqn:E;
    [|split; assumption].
  apply encode_items_ring in E; try assumption. destruct E as [Hp2 Hn1].
  destruct (0 <? rmt_ticks_remain p2); [split; assumption|].
  pose proof (ring_next_range (rmt_data_head p2) Hd) as Hnext.
  destruct Hp2 as [Hh Ht]. cbn [steps set_steps].
  destruct (u32 (steps p2 - 1) =? 0); [destruct (negb _)|];
    (split; [|cbn; assumption]);
    try (apply push_at_ring; [|assumption]); split; cbn; assumption.
Qed.

Lemma start_copy_ring n : forall stepper_num idx p h,
  0 < STEPPER_RMT_DATA_SIZE -> in_ring p ->
  in_ring (fst (start_copy n stepper_num idx p h)).
Proof.
  induction n as [|n IH]; intros stepper_num idx p h Hd Hp; cbn [start_copy];
    [exact Hp|].
  apply IH; [assumption|]. destruct Hp as [Hh Ht].
  split; cbn; [assumption|apply ring_next_range; assumption].
Qed.

Lemma isr_drain_ring n : forall channel i p h,
  0 < STEPPER_RMT_DATA_SIZE -> in_ring p ->
  in_ring (snd (fst (isr_drain n channel i p h))).
Proof.
  induction n as [|n IH]; intros channel i p h Hd Hp; cbn [isr_drain];
    [exact Hp|].
  destruct (negb _); [|exact Hp].
  apply IH; [assumption|]. destruct Hp as [Hh Ht].
  split; cbn; [assumption|apply ring_next_range; assumption].
Qed.

Lemma task_step_ring c :
  0 < STEPPER_RMT_DATA_SIZE -> rings_ok c -> rings_ok (task_step c).
Proof.
  intros Hd. destruct c as [pc st]. unfold rings_ok, task_step.
  cbn [fst snd]. intros [Hall Hpc].
  destruct pc as [|cfm cm n|cfm cm n next|cfm cm n|].
  - destruct (acceleration_queue st) as [[|m q]|]; cbn; auto.
  - destruct (cm =? 0); [cbn; auto|].
    destruct (tst cm 1); [|cbn; auto].
    destruct (stepper st !! Z.to_nat n) as [p|] eqn:Hp; [|cbn; auto].
    pose proof (Forall_lookup_1 _ _ _ _ Hall Hp) as Hr.
    pose proof (ring_next_range (rmt_data_head p) Hd) as Hnext.
    destruct (_ && _); cbv zeta; [|cbn; auto].
    destruct (stray_store _); [cbn; auto|]. cbn [fst snd].
    split; [|exact I]. apply Forall_insert; [assumption|].
    apply push_at_ring; assumption.
  - destruct (stepper st !! Z.to_nat n) as [p|] eqn:Hp; [|cbn; auto].
    pose proof (Forall_lookup_1 _ _ _ _ Hall Hp) as Hr.
    destruct (_ && _); [|cbn; auto].
    pose proof (step_body_ring next p Hd Hr Hpc) as [H1 H2].
    destruct (step_body next p) as [next1 p1].
    destruct (stray_store p1); [cbn; auto|]. cbn in *.
    split; [apply Forall_insert; assumption|assumption].
  - destruct (cm =? 0); [cbn; auto|].
    destruct (tst cm 1); [|cbn; auto].
    destruct (stepper st !! Z.to_nat n) as [p|] eqn:Hp; [|cbn; auto].
    pose proof (Forall_lookup_1 _ _ _ _ Hall Hp) as Hr.
    destruct (_ && _); [|cbn; auto].
    pose proof (start_copy_ring (Z.to_nat STEPPER_RMT_BUFF_SIZE) n 0 p (hw st)
                  Hd Hr) as Hc.
    destruct (start_copy _ _ _ _ _) as [p1 h1]. cbn in *.
    split; [|exact I]. apply Forall_insert; [assumption|exact Hc].
  - cbn; auto.
Qed.

Lemma isr_channel_ring intr_st channel st :
  0 < STEPPER_RMT_DATA_SIZE ->
  Forall in_ring (stepper st) ->
  Forall in_ring (stepper (isr_channel intr_st channel st)).
Proof.
  intros Hd Hall. unfold isr_channel.
  set (st1 := if tst intr_st (BIT (channel * 3)) then _ else st).
  assert (E : stepper st1 = stepper st).
  { subst st1. destruct (tst intr_st (BIT (channel * 3))); [|reflexivity].
    destruct (_ =? 0); reflexivity. }
  destruct (tst intr_st (BIT (24 + channel))); [|rewrite E; exact Hall].
  destruct (stepper st1 !! Z.to_nat channel) as [p|] eqn:Hp;
    [|rewrite E; exact Hall].
  rewrite E in Hp. pose proof (Forall_lookup_1 _ _ _ _ Hall Hp) as Hr.
  pose proof (isr_drain_ring (Z.to_nat (Z.shiftr STEPPER_RMT_BUFF_SIZE 1))
                channel 0 p (int_clr_write (BIT (24 + channel)) (hw st1))
                Hd Hr) as Hdr.
  destruct (isr_drain _ _ _ _ _) as [[i p1] h2]. cbn [fst snd] in Hdr.
  assert (Ht : Forall in_ring
                 (<[Z.to_nat channel :=
                      set_rmt_offset
                        ((rmt_offset p1 + Z.shiftr STEPPER_RMT_BUFF_SIZE 1)
                           mod STEPPER_RMT_BUFF_SIZE) p1]> (stepper st1))).
  { rewrite E. apply Forall_insert; [assumption|exact Hdr]. }
  destruct (0 <? i); [|exact Ht].
  unfold queue_send_from_isr. cbn [acceleration_queue set_hw set_stepper].
  destruct (acceleration_queue st1) as [q|]; [|exact Ht].
  destruct (length q <? 100)%nat; exact Ht.
Qed.

Lemma isr_loop_ring n : forall intr_st channel st,
  0 < STEPPER_RMT_DATA_SIZE ->
  Forall in_ring (stepper st) ->
  Forall in_ring (stepper (isr_loop n intr_st channel st)).
Proof.
  induction n as [|n IH]; intros intr_st channel st Hd Hall; cbn [isr_loop];
    [exact Hall|].
  apply IH; [assumption|]. apply isr_channel_ring; assumption.
Qed.

(** However the three contexts interleave, the head and the tail of every
    circular buffer stay in [0 .. STEPPER_RMT_DATA_SIZE - 1]. *)
Lemma sys_run_ring es : forall c,
  0 < STEPPER_RMT_DATA_SIZE -> rings_ok c -> rings_ok (sys_run es c).
Proof.
  induction es as [|e es IH]; intros c Hd Hc; cbn [sys_run]; [exact Hc|].
  apply IH; [assumption|].
  destruct e; cbn [sys_step].
  - apply task_step_ring; assumption.
  - destruct Hc as [Hall Hpc]. split; [|exact Hpc].
    apply isr_loop_ring; assumption.
  - destruct Hc as [Hall Hpc]. split; [|exact Hpc].
    cbn [snd]. rewrite stepper_start_stepper. exact Hall.
  - destruct Hc as [Hall Hpc]. split; [|exact Hpc].
    cbn [snd]. rewrite stepper_stop_stepper. exact Hall.
Qed.

(** The copy into the playback window takes an item in each of its rounds,
    whatever the buffer holds: the tail moves on [n] times. *)
Lemma start_copy_tail n : forall stepper_num idx p h,
  rmt_data_tail (fst (start_copy n stepper_num idx p h))
  = Nat.iter n ring_next (rmt_data_tail p).
Proof.
  induction n as [|n IH]; intros stepper_num idx p h; cbn [start_copy];
    [reflexivity|].
  rewrite IH. cbn [rmt_data_tail set_rmt_data_tail].
  symmetry. apply Nat.iter_succ_r.
Qed.

Lemma table_typed (Q : stepper_t -> stepper_t -> Prop) (l k : list stepper_t) :
  (forall p p', typed p = true -> account p' = account p -> Q p p') ->
  Forall2 keeps_account l k -> forallb typed l = true -> Forall2 Q l k.
Proof.
  intros HQ Hlk. induction Hlk as [|p p' l k Hp Hlk IH]; intros Ht.
  - constructor.
  - cbn in Ht. apply andb_true_iff in Ht as [Ht1 Ht2].
    constructor; [|apply IH; assumption].
    destruct (Hp Ht1) as [_ E]. apply HQ; assumption.
Qed.

(** C9. [stepper_stop] never takes the count of active channels below
    zero: from a count that a [uint8_t] holds, the count after the call lies
    between 0 and the count before it, whatever the mask, and so does the
    count after a second call that stops the same channels again. *)
Theorem stop_count_never_below_zero (mask mask' : Z) (st : driver) :
  0 <= start_num st < 256 ->
  0 <= start_num (stepper_stop mask st) <= start_num st /\
  0 <= start_num (stepper_stop mask' (stepper_stop mask st))
    <= start_num (stepper_stop mask st).
Proof.
  intros Hst.
  pose proof (stepper_stop_start_num mask st ltac:(lia)) as H1.
  pose proof (stepper_stop_start_num mask' (stepper_stop mask st) ltac:(lia)) as H2.
  lia.
Qed.

(** C10. A call of [stepper_move] that returns an error returns
    [InvalidUnit] or [UnitNotSetup] and leaves the state of the driver, and
    with it every field of every channel, as it was. *)
Theorem move_error_changes_nothing (unit : Z)
    (units initial_spd target_spd acc jerk : real) (st st' : driver)
    (e : stepper_err) :
  stepper_move unit units initial_spd target_spd acc jerk st
    = Returns (Some e) () st' ->
  (e = STEPPER_ERR_INVALID_UNIT \/ e = STEPPER_ERR_UNIT_NOT_SETUP) /\
  st' = st /\ stepper st' = stepper st.
Proof.
  unfold stepper_move. intros E.
  destruct (NSTEP <? unit).
  - injection E as <- <-. auto.
  - destruct (stepper st !! Z.to_nat unit) as [p|]; [|discriminate].
    destruct (negb (setup p)); [|discriminate].
    injection E as <- <-. auto.
Qed.

End DriverFacts.

(** * More facts about the driver *)

Section DriverMore.

Context `{H : StepperH} `{M : MotionH}.

#[local] Ltac Zify.zify_post_hook ::= Z.div_mod_to_equations.

(** [lia] after turning boolean comparisons into propositions. *)
#[local] Ltac blia :=
  rewrite ?Z.ltb_lt, ?Z.ltb_ge, ?Z.leb_le, ?Z.leb_gt, ?Z.eqb_eq, ?Z.eqb_neq in *;
  lia.

(** ** Relations kept by every channel *)

Lemma related_insert (R : stepper_t -> stepper_t -> Prop)
    (l : list stepper_t) i p p' :
  (forall q, R q q) -> l !! i = Some p -> R p p' ->
  Forall2 R l (<[i:=p']> l).
Proof.
  intros Hrefl Hi Hp. rewrite <- (list_insert_id l i p Hi) at 1.
  apply Forall2_insert; [|assumption].
  apply Forall_Forall2_diag, Forall_forall. intros; apply Hrefl.
Qed.

Lemma related_refl (R : stepper_t -> stepper_t -> Prop) (l : list stepper_t) :
  (forall q, R q q) -> Forall2 R l l.
Proof.
  intros Hrefl. apply Forall_Forall2_diag, Forall_forall. intros; apply Hrefl.
Qed.

(** A loop test of the task changes a channel in one of three ways: it
    pushes an end marker, runs a round of the step loop, or starts the
    transmission. *)
Lemma task_step_related (R : stepper_t -> stepper_t -> Prop) :
  (forall q, R q q) ->
  (forall p, steps p = 0 ->
     ring_next (rmt_data_head p) <> rmt_data_tail p ->
     R p (push_at 0 (ring_next (rmt_data_head p)) p)) ->
  (forall p next, 0 < steps p -> next <> rmt_data_tail p ->
     R p (snd (step_body next p))) ->
  (forall p n h, rmt_start p = true -> rmt_started p = false ->
     R p (set_rmt_started true
            (fst (start_copy (Z.to_nat STEPPER_RMT_BUFF_SIZE) n 0 p h)))) ->
  forall c, Forall2 R (stepper (snd c)) (stepper (snd (task_step c))).
Proof.
  intros Hrefl Hmark Hbody Hstart [pc st]. unfold task_step.
  destruct pc as [|cfm cm n|cfm cm n next|cfm cm n|]; cbn [snd].
  - destruct (acceleration_queue st) as [[|m q]|]; cbn;
      apply related_refl; assumption.
  - destruct (cm =? 0); [apply related_refl; assumption|].
    destruct (tst cm 1); [|apply related_refl; assumption].
    destruct (stepper st !! Z.to_nat n) as [p|] eqn:Hp;
      [|apply related_refl; assumption].
    destruct (steps p =? 0) eqn:Hs;
      [|cbn; apply related_refl; assumption].
    destruct (ring_next (rmt_data_head p) =? rmt_data_tail p) eqn:Hn;
      cbn [andb negb]; cbv zeta; [apply related_refl; assumption|].
    destruct (stray_store _); [apply related_refl; assumption|]. cbn.
    apply (related_insert R _ _ p); [assumption..|].
    apply Hmark; lia.
  - destruct (stepper st !! Z.to_nat n) as [p|] eqn:Hp;
      [|apply related_refl; assumption].
    destruct (0 <? steps p) eqn:Hs;
      [|cbn; apply related_refl; assumption].
    destruct (next =? rmt_data_tail p) eqn:Hn;
      cbn [andb negb]; [apply related_refl; assumption|].
    pose proof (Hbody p next ltac:(lia) ltac:(lia)) as Hb.
    destruct (step_body next p) as [next1 p1].
    destruct (stray_store p1); [apply related_refl; assumption|]. cbn in *.
    apply (related_insert R _ _ p); assumption.
  - destruct (cm =? 0); [apply related_refl; assumption|].
    destruct (tst cm 1); [|apply related_refl; assumption].
    destruct (stepper st !! Z.to_nat n) as [p|] eqn:Hp;
      [|apply related_refl; assumption].
    destruct (rmt_start p) eqn:Hs1; [|cbn; apply related_refl; assumption].
    destruct (rmt_started p) eqn:Hs2; cbn [andb negb];
      [apply related_refl; assumption|].
    pose proof (Hstart p n (hw st) Hs1 Hs2) as Hc.
    destruct (start_copy _ _ _ _ _) as [p1 h1]. cbn in *.
    apply (related_insert R _ _ p); assumption.
  - apply related_refl; assumption.
Qed.

(** An interrupt changes a channel by draining its buffer and moving its
    offset. *)
Lemma isr_channel_related (R : stepper_t -> stepper_t -> Prop) :
  (forall q, R q q) ->
  (forall p channel h,
     R p (set_rmt_offset
            ((rmt_offset
                (snd (fst (isr_drain
                             (Z.to_nat (Z.shiftr STEPPER_RMT_BUFF_SIZE 1))
                             channel 0 p h)))
              + Z.shiftr STEPPER_RMT_BUFF_SIZE 1) mod STEPPER_RMT_BUFF_SIZE)
            (snd (fst (isr_drain
                         (Z.to_nat (Z.shiftr STEPPER_RMT_BUFF_SIZE 1))
                         channel 0 p h))))) ->
  forall intr_st channel st,
  Forall2 R (stepper st) (stepper (isr_channel intr_st channel st)).
Proof.
  intros Hrefl Hdrain intr_st channel st. unfold isr_channel.
  set (st1 := if tst intr_st (BIT (channel * 3)) then _ else st).
  assert (E : stepper st1 = stepper st).
  { subst st1. destruct (tst intr_st (BIT (channel * 3))); [|reflexivity].
    destruct (_ =? 0); reflexivity. }
  destruct (tst intr_st (BIT (24 + channel)));
    [|rewrite E; apply related_refl; assumption].
  destruct (stepper st1 !! Z.to_nat channel) as [p|] eqn:Hp;
    [|rewrite E; apply related_refl; assumption].
  pose proof (Hdrain p channel (int_clr_write (BIT (24 + channel)) (hw st1)))
    as Hd.
  destruct (isr_drain _ _ _ _ _) as [[i p1] h2]. cbn [fst snd] in Hd.
  assert (Ht : Forall2 R (stepper st)
                 (<[Z.to_nat channel :=
                      set_rmt_offset
                        ((rmt_offset p1 + Z.shiftr STEPPER_RMT_BUFF_SIZE 1)
                           mod STEPPER_RMT_BUFF_SIZE) p1]> (stepper st1))).
  { rewrite E in *. apply (related_insert R _ _ p); assumption. }
  destruct (0 <? i); [|exact Ht].
  unfold queue_send_from_isr. cbn [acceleration_queue set_hw set_stepper].
  destruct (acceleration_queue st1) as [q|]; [|exact Ht].
  destruct (length q <? 100)%nat; exact Ht.
Qed.

Lemma rmt_isr_related (R : stepper_t -> stepper_t -> Prop) :
  (forall q, R q q) ->
  (forall p q r, R p q -> R q r -> R p r) ->
  (forall p channel h,
     R p (set_rmt_offset
            ((rmt_offset
                (snd (fst (isr_drain
                             (Z.to_nat (Z.shiftr STEPPER_RMT_BUFF_SIZE 1))
                             channel 0 p h)))
              + Z.shiftr STEPPER_RMT_BUFF_SIZE 1) mod STEPPER_RMT_BUFF_SIZE)
            (snd (fst (isr_drain
                         (Z.to_nat (Z.shiftr STEPPER_RMT_BUFF_SIZE 1))
                         channel 0 p h))))) ->
  forall intr_st st, Forall2 R (stepper st) (stepper (rmt_isr intr_st st)).
Proof.
  intros Hrefl Htrans Hdrain intr_st st. unfold rmt_isr.
  generalize 0 at 1. revert st.
  induction (Z.to_nat NSTEP) as [|n IH]; intros st channel; cbn [isr_loop].
  - apply related_refl; assumption.
  - eapply Forall2_trans; [exact Htrans| |apply IH].
    apply isr_channel_related; assumption.
Qed.

(** ** The encoding loop ends *)

Lemma encode_items_more_rounds n : forall k first ticks next p r,
  encode_items n first ticks next p = Some r ->
  encode_items (n + k) first ticks next p = Some r.
Proof.
  induction n as [|n IH]; intros k first ticks next p r E;
    cbn [encode_items Nat.add] in *; [discriminate|].
  destruct (0 <? ticks); [|exact E].
  destruct first.
  - destruct (u32 (ticks - STEPPER_PULSE_TICKS) <? 32767); apply IH; exact E.
  - destruct (negb (ring_next (rmt_data_head p) =? rmt_data_tail p));
      [|exact E].
    destruct (ticks <? Z.shiftl 32767 1); apply IH; exact E.
Qed.

(** X1. The [while (rmt_ticks > 0)] loop ends: started on a 32-bit tick
    count it reaches its exit within [encode_rounds ticks] rounds, and more
    rounds in the bound give the same channel. *)
Theorem encode_loop_ends ticks next p :
  0 <= ticks < 4294967296 ->
  exists r,
    encode_items (encode_rounds ticks) true ticks next p = Some r /\
    forall k, encode_items (encode_rounds ticks + k) true ticks next p = Some r.
Proof.
  intros Ht. destruct (encode_items_total ticks next p Ht) as [r E].
  exists r. split; [exact E|].
  intros k. apply encode_items_more_rounds. exact E.
Qed.

(** ** Producer and consumer *)

(** What the encoding loop leaves alone. *)
Lemma encode_items_consumer n : forall first ticks next p next' p',
  encode_items n first ticks next p = Some (next', p') ->
  rmt_data_tail p' = rmt_data_tail p /\ rmt_offset p' = rmt_offset p /\
  rmt_start p' = rmt_start p /\ rmt_started p' = rmt_started p /\
  setup p' = setup p /\ step_pin p' = step_pin p /\ dir_pin p' = dir_pin p /\
  dir p' = dir p /\ length (rmt_data p') = length (rmt_data p).
Proof.
  induction n as [|n IH]; intros first ticks next p next' p' E;
    cbn [encode_items] in E; [discriminate|].
  destruct (0 <? ticks).
  - destruct first.
    + destruct (u32 (ticks - STEPPER_PULSE_TICKS) <? 32767);
        apply IH in E; rewrite push_at_length in E; cbn in E; exact E.
    + destruct (negb (ring_next (rmt_data_head p) =? rmt_data_tail p)).
      * destruct (ticks <? Z.shiftl 32767 1);
          apply IH in E; rewrite push_at_length in E; cbn in E; exact E.
      * injection E as <- <-. cbn. repeat split; reflexivity.
  - injection E as <- <-. repeat split; reflexivity.
Qed.

Lemma step_body_consumer next p :
  let p' := snd (step_body next p) in
  rmt_data_tail p' = rmt_data_tail p /\ rmt_offset p' = rmt_offset p /\
  rmt_start p' = rmt_start p /\ rmt_started p' = rmt_started p /\
  setup p' = setup p /\ step_pin p' = step_pin p /\ dir_pin p' = dir_pin p /\
  dir p' = dir p /\ length (rmt_data p') = length (rmt_data p).
Proof.
  unfold step_body.
  set (start := if rmt_ticks_remain p =? 0 then _ else _).
  assert (Hstart :
    rmt_data_tail (snd start) = rmt_data_tail p /\
    rmt_offset (snd start) = rmt_offset p /\
    rmt_start (snd start) = rmt_start p /\
    rmt_started (snd start) = rmt_started p /\
    setup (snd start) = setup p /\ step_pin (snd start) = step_pin p /\
    dir_pin (snd start) = dir_pin p /\ dir (snd start) = dir p /\
    length (rmt_data (snd start)) = length (rmt_data p)).
  { subst start. destruct (rmt_ticks_remain p =? 0).
    - unfold call_motion_next. destruct (motion_next (motion p)) as [t m].
      cbn. repeat split; reflexivity.
    - cbn. repeat split; reflexivity. }
  destruct start as [ticks p1]. cbn [snd] in Hstart.
  destruct (encode_items _ _ _ _ _) as [[next1 p2]|] eqn:E;
    [|cbn; exact Hstart].
  apply encode_items_consumer in E.
  assert (Hp2 :
    rmt_data_tail p2 = rmt_data_tail p /\ rmt_offset p2 = rmt_offset p /\
    rmt_start p2 = rmt_start p /\ rmt_started p2 = rmt_started p /\
    setup p2 = setup p /\ step_pin p2 = step_pin p /\
    dir_pin p2 = dir_pin p /\ dir p2 = dir p /\
    length (rmt_data p2) = length (rmt_data p)).
  { destruct E as (E1 & E2 & E3 & E4 & E5 & E6 & E7 & E8 & E9).
    destruct Hstart as (S1 & S2 & S3 & S4 & S5 & S6 & S7 & S8 & S9).
    repeat split; congruence. }
  destruct (0 <? rmt_ticks_remain p2); [cbn; exact Hp2|].
  cbn [steps set_steps].
  destruct (u32 (steps p2 - 1) =? 0); [destruct (negb _)|]; cbn [snd];
    rewrite ?push_at_length; cbn; exact Hp2.
Qed.

(** Every store of the loop moves the head to a slot that is not the tail. *)
Lemma encode_items_head n : forall first ticks next p next' p',
  encode_items n first ticks next p = Some (next', p') ->
  (first = true -> next <> rmt_data_tail p) ->
  rmt_data_head p' = rmt_data_head p \/ rmt_data_head p' <> rmt_data_tail p.
Proof.
  induction n as [|n IH]; intros first ticks next p next' p' E Hn;
    cbn [encode_items] in E; [discriminate|].
  destruct (0 <? ticks).
  - destruct first.
    + specialize (Hn eq_refl).
      destruct (u32 (ticks - STEPPER_PULSE_TICKS) <? 32767);
        apply IH in E; try discriminate;
        match type of E with context [push_at ?v ?nx ?q] =>
          destruct (push_at_head v nx q) as [Hh|Hh]; rewrite Hh in E end;
        cbn in E; first [exact E|right; destruct E as [E|E]; congruence].
    + destruct (ring_next (rmt_data_head p) =? rmt_data_tail p) eqn:Hfull;
        cbn [negb] in E.
      * injection E as <- <-. cbn. left. reflexivity.
      * assert (ring_next (rmt_data_head p) <> rmt_data_tail p) by lia.
        destruct (ticks <? Z.shiftl 32767 1);
          apply IH in E; try discriminate;
          match type of E with context [push_at ?v ?nx ?q] =>
            destruct (push_at_head v nx q) as [Hh|Hh]; rewrite Hh in E end;
          cbn in E; first [exact E|right; destruct E as [E|E]; congruence].
  - injection E as <- <-. left. reflexivity.
Qed.

Lemma step_body_head next p :
  next <> rmt_data_tail p ->
  rmt_data_head (snd (step_body next p)) = rmt_data_head p \/
  rmt_data_head (snd (step_body next p)) <> rmt_data_tail p.
Proof.
  intros Hn. unfold step_body.
  set (start := if rmt_ticks_remain p =? 0 then _ else _).
  assert (Hstart : rmt_data_head (snd start) = rmt_data_head p /\
                   rmt_data_tail (snd start) = rmt_data_tail p).
  { subst start. destruct (rmt_ticks_remain p =? 0).
    - unfold call_motion_next. destruct (motion_next (motion p)) as [t m].
      cbn. split; reflexivity.
    - cbn. split; reflexivity. }
  destruct start as [ticks p1]. cbn [snd] in Hstart.
  destruct Hstart as [Hh Ht].
  destruct (encode_items _ _ _ _ _) as [[next1 p2]|] eqn:E;
    [|cbn; left; assumption].
  pose proof (encode_items_consumer _ _ _ _ _ _ _ E) as (Et & _).
  apply encode_items_head in E; [|intros _; congruence].
  assert (Hp2 : rmt_data_head p2 = rmt_data_head p \/
                rmt_data_head p2 <> rmt_data_tail p)
    by (destruct E; [left|right]; congruence).
  destruct (0 <? rmt_ticks_remain p2); [cbn; exact Hp2|].
  cbn [steps set_steps].
  destruct (u32 (steps p2 - 1) =? 0); [|cbn; exact Hp2].
  destruct (ring_next _ =? rmt_data_tail _) eqn:Hfull; cbn [negb];
    [cbn; exact Hp2|].
  cbn [snd].
  match goal with |- context [push_at ?v ?nx ?q] =>
    destruct (push_at_head v nx q) as [Hpush|Hpush]; rewrite Hpush end.
  - cbn in *. right. rewrite Et in Hfull. rewrite Ht in Hfull. lia.
  - cbn. exact Hp2.
Qed.

Lemma start_copy_producer n : forall stepper_num idx p h,
  let p' := fst (start_copy n stepper_num idx p h) in
  rmt_data_head p' = rmt_data_head p /\ rmt_data p' = rmt_data p /\
  rmt_offset p' = rmt_offset p /\ rmt_start p' = rmt_start p /\
  rmt_started p' = rmt_started p /\ motion p' = motion p /\
  setup p' = setup p /\ step_pin p' = step_pin p /\ dir_pin p' = dir_pin p /\
  dir p' = dir p.
Proof.
  induction n as [|n IH]; intros stepper_num idx p h; cbn [start_copy].
  - cbn. repeat split; reflexivity.
  - match goal with |- context [start_copy n ?a ?b ?c ?d] =>
      specialize (IH a b c d) end.
    cbn in *. exact IH.
Qed.

(** X3. The task never moves a head onto a tail: after a loop test the head
    of every channel is where it was, or on a slot that is not the tail.
    The producer cannot make a buffer that holds items look empty. *)
Theorem producer_never_reaches_tail (c : task_pc * driver) :
  Forall2
    (fun p p' =>
       rmt_data_head p' = rmt_data_head p \/
       rmt_data_head p' <> rmt_data_tail p')
    (stepper (snd c)) (stepper (snd (task_step c))).
Proof.
  apply task_step_related.
  - intros q. left. reflexivity.
  - intros p _ Hfree.
    destruct (push_at_head 0 (ring_next (rmt_data_head p)) p) as [Hh|Hh];
      [right; rewrite Hh; exact Hfree|left; exact Hh].
  - intros p next _ Hn.
    pose proof (step_body_consumer next p) as (Et & _).
    rewrite Et. apply step_body_head. exact Hn.
  - intros p n h _ _. left. cbn.
    apply (start_copy_producer (Z.to_nat STEPPER_RMT_BUFF_SIZE) n 0 p h).
Qed.

(** X4. Once the transmission of a channel has been started the task
    leaves its tail to the interrupt handler: a loop test of the task
    changes neither the tail nor the offset of a started channel, and the
    channel stays started. *)
Theorem task_leaves_tail_of_started_channel (c : task_pc * driver) :
  Forall2
    (fun p p' =>
       rmt_started p = true ->
       rmt_started p' = true /\ rmt_data_tail p' = rmt_data_tail p /\
       rmt_offset p' = rmt_offset p)
    (stepper (snd c)) (stepper (snd (task_step c))).
Proof.
  apply task_step_related.
  - intros q Hq. auto.
  - intros p _ _ Hs. cbn. auto.
  - intros p next _ _ Hs.
    pose proof (step_body_consumer next p) as (E1 & E2 & _ & E4 & _).
    rewrite E1, E2, E4. auto.
  - intros p n h _ Hno Hs. congruence.
Qed.

Lemma isr_drain_producer n : forall channel i p h,
  let p' := snd (fst (isr_drain n channel i p h)) in
  rmt_data_head p' = rmt_data_head p /\ rmt_data p' = rmt_data p /\
  steps p' = steps p /\ rmt_ticks p' = rmt_ticks p /\
  rmt_ticks_remain p' = rmt_ticks_remain p /\ motion p' = motion p /\
  rmt_start p' = rmt_start p /\ rmt_started p' = rmt_started p /\
  setup p' = setup p /\ step_pin p' = step_pin p /\ dir_pin p' = dir_pin p /\
  dir p' = dir p.
Proof.
  induction n as [|n IH]; intros channel i p h; cbn [isr_drain].
  - cbn. repeat split; reflexivity.
  - destruct (negb _); [|cbn; repeat split; reflexivity].
    match goal with |- context [isr_drain n ?a ?b ?c ?d] =>
      specialize (IH a b c d) end.
    cbn in *. exact IH.
Qed.

(** X6. The interrupt handler only consumes: whatever the interrupt status,
    [rmt_isr] keeps the number of channels and, of every channel, the head,
    the buffer contents, the step count, the carry, the motion model, the
    transmission flags, the configuration flag, the pins and the
    direction.  Only tails and offsets move. *)
Theorem isr_only_consumes (intr_st : Z) (st : driver) :
  Forall2
    (fun p p' =>
       rmt_data_head p' = rmt_data_head p /\ rmt_data p' = rmt_data p /\
       steps p' = steps p /\ rmt_ticks p' = rmt_ticks p /\
       rmt_ticks_remain p' = rmt_ticks_remain p /\ motion p' = motion p /\
       rmt_start p' = rmt_start p /\ rmt_started p' = rmt_started p /\
       setup p' = setup p /\ step_pin p' = step_pin p /\
       dir_pin p' = dir_pin p /\ dir p' = dir p)
    (stepper st) (stepper (rmt_isr intr_st st)).
Proof.
  apply rmt_isr_related.
  - intros q. repeat split; reflexivity.
  - intros p q r Hpq Hqr.
    destruct Hpq as (A1 & A2 & A3 & A4 & A5 & A6 & A7 & A8 & A9 & A10 & A11 & A12).
    destruct Hqr as (B1 & B2 & B3 & B4 & B5 & B6 & B7 & B8 & B9 & B10 & B11 & B12).
    repeat split; congruence.
  - intros p channel h.
    pose proof (isr_drain_producer
                  (Z.to_nat (Z.shiftr STEPPER_RMT_BUFF_SIZE 1)) channel 0 p h)
      as Hd.
    cbn in *. exact Hd.
Qed.

(** ** The threshold interrupt *)

Lemma occupancy_range p :
  0 < STEPPER_RMT_DATA_SIZE -> 0 <= occupancy p < STEPPER_RMT_DATA_SIZE.
Proof. intros Hd. unfold occupancy. apply Z.mod_pos_bound. assumption. Qed.

Lemma ring_distance h t d :
  0 <= h < d -> 0 <= t < d ->
  (h - t) mod d = if t <=? h then h - t else h - t + d.
Proof.
  intros Hh Ht. destruct (t <=? h) eqn:E.
  - apply Z.mod_small. lia.
  - symmetry. apply (Z.mod_unique _ _ (-1)); lia.
Qed.

Lemma occupancy_empty p :
  in_ring p -> (occupancy p = 0 <-> rmt_data_tail p = rmt_data_head p).
Proof.
  unfold occupancy, in_ring. intros [Hh Ht].
  rewrite ring_distance by assumption.
  destruct (rmt_data_tail p <=? rmt_data_head p) eqn:E; lia.
Qed.

Lemma occupancy_pop p :
  in_ring p -> rmt_data_tail p <> rmt_data_head p ->
  (rmt_data_head p - ring_next (rmt_data_tail p)) mod STEPPER_RMT_DATA_SIZE
  = occupancy p - 1.
Proof.
  unfold occupancy, in_ring, ring_next. intros [Hh Ht] Hne.
  rewrite Zminus_mod_idemp_r.
  rewrite (ring_distance (rmt_data_head p) (rmt_data_tail p)) by assumption.
  destruct (rmt_data_tail p <=? rmt_data_head p) eqn:E.
  - rewrite Z.mod_small; lia.
  - symmetry. apply (Z.mod_unique _ _ (-1)); lia.
Qed.

(** The drain loop takes an item in each round until the buffer is empty. *)
Lemma isr_drain_count n : forall channel i p h,
  0 < STEPPER_RMT_DATA_SIZE -> in_ring p ->
  let r := isr_drain n channel i p h in
  let k := Z.min (Z.of_nat n) (occupancy p) in
  fst (fst r) = i + k /\
  rmt_data_tail (snd (fst r)) = (rmt_data_tail p + k) mod STEPPER_RMT_DATA_SIZE /\
  occupancy (snd (fst r)) = occupancy p - k /\
  rmt_offset (snd (fst r)) = rmt_offset p.
Proof.
  induction n as [|n IH]; intros channel i p h Hd Hp; cbn [isr_drain].
  - pose proof (occupancy_range p Hd). cbn [fst snd].
    replace (Z.min (Z.of_nat 0) (occupancy p)) with 0 by lia.
    destruct Hp as [Hh Ht]. rewrite !Z.add_0_r, Z.mod_small by lia.
    repeat split; lia.
  - pose proof (occupancy_range p Hd) as Ho.
    pose proof (occupancy_empty p Hp) as He.
    destruct (rmt_data_tail p =? rmt_data_head p) eqn:E; cbn [negb].
    + assert (Hz : occupancy p = 0) by (apply He; lia).
      cbn [fst snd]. rewrite Hz.
      replace (Z.min (Z.of_nat (S n)) 0) with 0 by lia.
      destruct Hp as [Hh Ht]. rewrite !Z.add_0_r, Z.mod_small by lia.
      repeat split; lia.
    + assert (Hne : rmt_data_tail p <> rmt_data_head p) by lia.
      assert (Hpos : 1 <= occupancy p) by (destruct He; lia).
      set (p1 := set_rmt_data_tail (ring_next (rmt_data_tail p)) p).
      assert (Hp1 : in_ring p1).
      { destruct Hp as [Hh Ht]. split; cbn; [assumption|].
        apply ring_next_range; assumption. }
      assert (Ho1 : occupancy p1 = occupancy p - 1)
        by (unfold occupancy at 1; cbn; apply occupancy_pop; assumption).
      match goal with |- context [isr_drain n ?a ?b ?c ?d] =>
        specialize (IH a b c d Hd Hp1) end.
      cbn zeta in IH. destruct IH as (I1 & I2 & I3 & I4).
      rewrite Ho1 in *.
      replace (Z.min (Z.of_nat (S n)) (occupancy p))
        with (1 + Z.min (Z.of_nat n) (occupancy p - 1)) by lia.
      repeat split.
      * rewrite I1. lia.
      * rewrite I2. cbn [rmt_data_tail p1 set_rmt_data_tail].
        unfold ring_next. rewrite Zplus_mod_idemp_l. f_equal. lia.
      * rewrite I3. lia.
      * rewrite I4. reflexivity.
Qed.

(** X7. A threshold interrupt of a channel takes from its buffer as many
    items as it holds, half a playback window at most, and never more:
    the tail advances by that number, the occupancy drops by it, the
    offset moves on by half a window, and a refill request for the channel
    is queued exactly when at least one item was taken (and the queue
    exists and has room). *)
Theorem threshold_interrupt_takes_what_is_there intr_st channel st p :
  0 < STEPPER_RMT_DATA_SIZE -> 0 <= STEPPER_RMT_BUFF_SIZE ->
  stepper st !! Z.to_nat channel = Some p -> in_ring p ->
  tst intr_st (BIT (24 + channel)) = true ->
  let k := Z.min (Z.shiftr STEPPER_RMT_BUFF_SIZE 1) (occupancy p) in
  exists p',
    stepper (isr_channel intr_st channel st) !! Z.to_nat channel = Some p' /\
    rmt_data_tail p' = (rmt_data_tail p + k) mod STEPPER_RMT_DATA_SIZE /\
    occupancy p' = occupancy p - k /\
    rmt_offset p'
    = (rmt_offset p + Z.shiftr STEPPER_RMT_BUFF_SIZE 1) mod STEPPER_RMT_BUFF_SIZE /\
    acceleration_queue (isr_channel intr_st channel st)
    = match acceleration_queue st with
      | Some q => if (0 <? k) && (length q <? 100)%nat
                  then Some (q ++ [BIT channel]) else Some q
      | None => None
      end.
Proof.
  intros Hd Hb Hp Hr Hthr k. unfold isr_channel.
  set (st1 := if tst intr_st (BIT (channel * 3)) then _ else st).
  assert (E : stepper st1 = stepper st /\
              acceleration_queue st1 = acceleration_queue st).
  { subst st1. destruct (tst intr_st (BIT (channel * 3))); [|auto].
    destruct (_ =? 0); auto. }
  destruct E as [E1 E2]. rewrite Hthr, E1, Hp.
  pose proof (isr_drain_count (Z.to_nat (Z.shiftr STEPPER_RMT_BUFF_SIZE 1))
                channel 0 p (int_clr_write (BIT (24 + channel)) (hw st1))
                Hd Hr) as Hc.
  cbn zeta in Hc.
  assert (Hhalf : Z.of_nat (Z.to_nat (Z.shiftr STEPPER_RMT_BUFF_SIZE 1))
                  = Z.shiftr STEPPER_RMT_BUFF_SIZE 1).
  { apply Z2Nat.id. apply Z.shiftr_nonneg. assumption. }
  rewrite Hhalf in Hc. fold k in Hc.
  destruct (isr_drain _ _ _ _ _) as [[i p1] h2]. cbn [fst snd] in Hc.
  destruct Hc as (C1 & C2 & C3 & C4).
  exists (set_rmt_offset
            ((rmt_offset p1 + Z.shiftr STEPPER_RMT_BUFF_SIZE 1)
               mod STEPPER_RMT_BUFF_SIZE) p1).
  assert (Hlen : (Z.to_nat channel < length (stepper st))%nat)
    by (apply lookup_lt_is_Some; eauto).
  assert (Hq : forall st2 : driver,
            stepper st2 = <[Z.to_nat channel :=
                              set_rmt_offset
                                ((rmt_offset p1 + Z.shiftr STEPPER_RMT_BUFF_SIZE 1)
                                   mod STEPPER_RMT_BUFF_SIZE) p1]> (stepper st) ->
            stepper st2 !! Z.to_nat channel
            = Some (set_rmt_offset
                      ((rmt_offset p1 + Z.shiftr STEPPER_RMT_BUFF_SIZE 1)
                         mod STEPPER_RMT_BUFF_SIZE) p1)).
  { intros st2 ->. apply list_lookup_insert_eq. assumption. }
  replace (0 + k) with k in C1 by lia. subst i.
  split; [|split; [|split; [|split]]].
  - destruct (0 <? k); [|apply Hq; cbn; rewrite ?E1; reflexivity].
    unfold queue_send_from_isr. cbn [acceleration_queue set_hw set_stepper].
    destruct (acceleration_queue st1) as [q|];
      [destruct (length q <? 100)%nat|]; apply Hq; cbn; rewrite ?E1; reflexivity.
  - cbn. exact C2.
  - unfold occupancy in *. cbn. exact C3.
  - cbn. rewrite C4. reflexivity.
  - destruct (0 <? k); cbn [andb].
    + unfold queue_send_from_isr. cbn [acceleration_queue set_hw set_stepper].
      rewrite E2. destruct (acceleration_queue st) as [q|]; [|cbn; exact E2].
      destruct (length q <? 100)%nat; [reflexivity|cbn; exact E2].
    + cbn. rewrite E2. destruct (acceleration_queue st); reflexivity.
Qed.

Lemma ring_next_add t k :
  0 <= k ->
  (ring_next t + k) mod STEPPER_RMT_DATA_SIZE
  = (t + (k + 1)) mod STEPPER_RMT_DATA_SIZE.
Proof.
  intros Hk. unfold ring_next. rewrite Zplus_mod_idemp_l. f_equal. lia.
Qed.

(** The items that the drain loop takes land in the playback window in
    their order; the rest of the window is left alone. *)
Lemma isr_drain_mem n : forall channel i p h,
  0 < STEPPER_RMT_DATA_SIZE -> in_ring p ->
  let r := isr_drain n channel i p h in
  let k := Z.min (Z.of_nat n) (occupancy p) in
  (forall j, 0 <= j < k ->
     RMTMEM (snd r) channel (rmt_offset p + i + j)
     = data_read p ((rmt_data_tail p + j) mod STEPPER_RMT_DATA_SIZE)) /\
  (forall c idx,
     c <> channel \/ idx < rmt_offset p + i \/ rmt_offset p + i + k <= idx ->
     RMTMEM (snd r) c idx = RMTMEM h c idx).
Proof.
  induction n as [|n IH]; intros channel i p h Hd Hp; cbn [isr_drain].
  - pose proof (occupancy_range p Hd). cbn [fst snd].
    replace (Z.min (Z.of_nat 0) (occupancy p)) with 0 by lia.
    split; [intros j Hj; lia|reflexivity].
  - pose proof (occupancy_range p Hd) as Ho.
    pose proof (occupancy_empty p Hp) as He.
    destruct (rmt_data_tail p =? rmt_data_head p) eqn:E; cbn [negb].
    + assert (Hz : occupancy p = 0) by (apply He; lia).
      cbn [fst snd]. rewrite Hz.
      replace (Z.min (Z.of_nat (S n)) 0) with 0 by lia.
      split; [intros j Hj; lia|reflexivity].
    + assert (Hne : rmt_data_tail p <> rmt_data_head p) by lia.
      assert (Hpos : 1 <= occupancy p) by (destruct He; lia).
      set (p1 := set_rmt_data_tail (ring_next (rmt_data_tail p)) p).
      set (h1 := rmtmem_write channel (rmt_offset p + i)
                   (data_read p (rmt_data_tail p)) h).
      assert (Hp1 : in_ring p1).
      { destruct Hp as [Hh Ht]. split; cbn; [assumption|].
        apply ring_next_range; assumption. }
      assert (Ho1 : occupancy p1 = occupancy p - 1)
        by (unfold occupancy at 1; cbn; apply occupancy_pop; assumption).
      specialize (IH channel (i + 1) p1 h1 Hd Hp1).
      cbn zeta in IH. destruct IH as [I1 I2].
      rewrite Ho1 in *.
      replace (Z.min (Z.of_nat (S n)) (occupancy p))
        with (1 + Z.min (Z.of_nat n) (occupancy p - 1)) by lia.
      set (k1 := Z.min (Z.of_nat n) (occupancy p - 1)) in *.
      change (rmt_offset p1) with (rmt_offset p) in *.
      change (rmt_data_tail p1) with (ring_next (rmt_data_tail p)) in *.
      split.
      * intros j Hj. destruct (Z.eq_dec j 0) as [->|Hj0].
        -- rewrite I2 by lia. subst h1. cbn [RMTMEM rmtmem_write].
           rewrite !Z.add_0_r, !Z.eqb_refl. cbn [andb].
           destruct Hp as [Hh Ht]. rewrite Z.mod_small by lia. reflexivity.
        -- replace (rmt_offset p + i + j)
             with (rmt_offset p + (i + 1) + (j - 1)) by lia.
           rewrite I1 by lia. rewrite ring_next_add by lia.
           replace (j - 1 + 1) with j by lia. reflexivity.
      * intros c idx Hc. rewrite I2 by lia.
        subst h1. cbn [RMTMEM rmtmem_write].
        destruct (c =? channel) eqn:E1; [|reflexivity].
        destruct (idx =? rmt_offset p + i) eqn:E2; [|reflexivity]. lia.
Qed.

(** X8. The items taken by a threshold interrupt are copied into the
    playback window of the channel in their order, starting at the offset of
    the channel: item [j] of the buffer, counted from the tail, lands in
    slot [rmt_offset + j]. *)
Theorem threshold_interrupt_copies_in_order intr_st channel st p j :
  0 < STEPPER_RMT_DATA_SIZE -> 0 <= STEPPER_RMT_BUFF_SIZE ->
  stepper st !! Z.to_nat channel = Some p -> in_ring p ->
  tst intr_st (BIT (24 + channel)) = true ->
  0 <= j < Z.min (Z.shiftr STEPPER_RMT_BUFF_SIZE 1) (occupancy p) ->
  RMTMEM (hw (isr_channel intr_st channel st)) channel (rmt_offset p + j)
  = data_read p ((rmt_data_tail p + j) mod STEPPER_RMT_DATA_SIZE).
Proof.
  intros Hd Hb Hp Hr Hthr Hj. unfold isr_channel.
  set (st1 := if tst intr_st (BIT (channel * 3)) then _ else st).
  assert (E1 : stepper st1 = stepper st).
  { subst st1. destruct (tst intr_st (BIT (channel * 3))); [|auto].
    destruct (_ =? 0); auto. }
  rewrite Hthr, E1, Hp.
  pose proof (isr_drain_mem (Z.to_nat (Z.shiftr STEPPER_RMT_BUFF_SIZE 1))
                channel 0 p (int_clr_write (BIT (24 + channel)) (hw st1))
                Hd Hr) as Hc.
  cbn zeta in Hc.
  assert (Hhalf : Z.of_nat (Z.to_nat (Z.shiftr STEPPER_RMT_BUFF_SIZE 1))
                  = Z.shiftr STEPPER_RMT_BUFF_SIZE 1).
  { apply Z2Nat.id. apply Z.shiftr_nonneg. assumption. }
  rewrite Hhalf in Hc. destruct Hc as [Hc _]. specialize (Hc j Hj).
  rewrite Z.add_0_r in Hc.
  destruct (isr_drain _ _ _ _ _) as [[i p1] h2]. cbn [fst snd] in Hc.
  destruct (0 <? i); [|cbn; exact Hc].
  unfold queue_send_from_isr. cbn [acceleration_queue set_hw set_stepper].
  destruct (acceleration_queue st1) as [q|];
    [destruct (length q <? 100)%nat|]; cbn; exact Hc.
Qed.

(** ** The start of a transmission *)

(** The copy into the playback window: the tail moves on in every round,
    and round [j] reads the slot [idx] places after the tail it finds. *)
Lemma start_copy_mem n : forall stepper_num idx p h,
  0 < STEPPER_RMT_DATA_SIZE -> in_ring p ->
  let r := start_copy n stepper_num idx p h in
  rmt_data_tail (fst r)
  = (rmt_data_tail p + Z.of_nat n) mod STEPPER_RMT_DATA_SIZE /\
  (forall j, 0 <= j < Z.of_nat n ->
     RMTMEM (snd r) stepper_num (idx + j)
     = data_read p ((rmt_data_tail p + j) mod STEPPER_RMT_DATA_SIZE
                    + (idx + j))) /\
  (forall c i,
     c <> stepper_num \/ i < idx \/ idx + Z.of_nat n <= i ->
     RMTMEM (snd r) c i = RMTMEM h c i) /\
  (forall c r', RMT_ch (snd r) c r' = RMT_ch h c r').
Proof.
  induction n as [|n IH]; intros stepper_num idx p h Hd Hp; cbn [start_copy].
  - cbn [fst snd]. destruct Hp as [Hh Ht].
    rewrite Z.add_0_r, Z.mod_small by lia.
    repeat split; [intros j Hj; lia].
  - set (p1 := set_rmt_data_tail (ring_next (rmt_data_tail p)) p).
    set (h1 := rmtmem_write stepper_num idx
                 (data_read p (rmt_data_tail p + idx)) h).
    assert (Hp1 : in_ring p1).
    { destruct Hp as [Hh Ht]. split; cbn; [assumption|].
      apply ring_next_range; assumption. }
    specialize (IH stepper_num (idx + 1) p1 h1 Hd Hp1).
    cbn zeta in IH. destruct IH as (I1 & I2 & I3 & I4).
    change (rmt_data_tail p1) with (ring_next (rmt_data_tail p)) in *.
    repeat split.
    + rewrite I1. rewrite ring_next_add by lia. f_equal. lia.
    + intros j Hj. destruct (Z.eq_dec j 0) as [->|Hj0].
      * rewrite I3 by lia. subst h1. cbn [RMTMEM rmtmem_write].
        rewrite !Z.add_0_r, !Z.eqb_refl. cbn [andb].
        destruct Hp as [Hh Ht]. rewrite Z.mod_small by lia. reflexivity.
      * replace (idx + j) with (idx + 1 + (j - 1)) by lia.
        rewrite I2 by lia. rewrite ring_next_add by lia.
        replace (j - 1 + 1) with j by lia. reflexivity.
    + intros c i Hc. rewrite I3 by lia.
      subst h1. cbn [RMTMEM rmtmem_write].
      destruct (c =? stepper_num) eqn:E1; [|reflexivity].
      destruct (i =? idx) eqn:E2; [|reflexivity]. lia.
    + intros c r'. rewrite I4. reflexivity.
Qed.

(** X5. When the task starts the transmission of a requested channel that
    was moved and not started yet, it takes a whole playback window from the
    buffer, whatever the buffer holds: the tail advances by
    [STEPPER_RMT_BUFF_SIZE] (modulo the capacity), slot [j] of the window
    receives the buffer slot [j] places after the tail of round [j], that
    is [rmt_data[(tail + j) mod capacity + j]], the channel is marked
    started and its [tx_start] bit is set. *)
Theorem transmission_start_takes_a_window cfm cm n st p :
  0 < STEPPER_RMT_DATA_SIZE -> 0 <= STEPPER_RMT_BUFF_SIZE ->
  cm <> 0 -> tst cm 1 = true ->
  stepper st !! Z.to_nat n = Some p -> in_ring p ->
  rmt_start p = true -> rmt_started p = false ->
  let c' := task_step (Start cfm cm n, st) in
  fst c' = Start cfm (Z.shiftr cm 1) (u8 (n + 1)) /\
  RMT_ch (hw (snd c')) n tx_start = 1 /\
  (forall j, 0 <= j < STEPPER_RMT_BUFF_SIZE ->
     RMTMEM (hw (snd c')) n j
     = data_read p ((rmt_data_tail p + j) mod STEPPER_RMT_DATA_SIZE + j)) /\
  exists p',
    stepper (snd c') !! Z.to_nat n = Some p' /\
    rmt_started p' = true /\ rmt_data_head p' = rmt_data_head p /\
    rmt_data_tail p'
    = (rmt_data_tail p + STEPPER_RMT_BUFF_SIZE) mod STEPPER_RMT_DATA_SIZE.
Proof.
  intros Hd Hb Hcm Hbit Hp Hr Hs1 Hs2. unfold task_step.
  destruct (cm =? 0) eqn:E; [lia|].
  rewrite Hbit, Hp, Hs1, Hs2. cbn [andb negb].
  pose proof (start_copy_mem (Z.to_nat STEPPER_RMT_BUFF_SIZE) n 0 p (hw st)
                Hd Hr) as Hc.
  pose proof (start_copy_producer (Z.to_nat STEPPER_RMT_BUFF_SIZE) n 0 p (hw st))
    as Hf.
  cbn zeta in Hc, Hf. rewrite Z2Nat.id in Hc by assumption.
  destruct (start_copy _ _ _ _ _) as [p1 h1]. cbn [fst snd] in *.
  destruct Hc as (C1 & C2 & C3 & C4).
  destruct Hf as (F1 & _).
  split; [reflexivity|]. split; [|split].
  - cbn. rewrite Z.eqb_refl. reflexivity.
  - intros j Hj. specialize (C2 j Hj). rewrite !Z.add_0_l in C2.
    cbn [hw set_hw RMTMEM rmt_write]. exact C2.
  - exists (set_rmt_started true p1). split; [|split; [|split]].
    + cbn. apply list_lookup_insert_eq. apply lookup_lt_is_Some. eauto.
    + reflexivity.
    + cbn. exact F1.
    + cbn. exact C1.
Qed.

(** ** Bits of the masks *)

Lemma BIT_testbit n j : 0 <= n -> Z.testbit (BIT n) j = (n =? j).
Proof. intros Hn. rewrite BIT_pow by assumption. apply Z.pow2_bits_eqb. assumption. Qed.

Lemma tst_BIT x n : 0 <= n -> tst x (BIT n) = Z.testbit x n.
Proof.
  intros Hn. unfold tst. destruct (Z.testbit x n) eqn:E.
  - apply negb_true_iff, Z.eqb_neq. intros Hz.
    assert (Hb : Z.testbit (Z.land x (BIT n)) n = true)
      by (rewrite Z.land_spec, E, BIT_testbit, Z.eqb_refl by assumption; reflexivity).
    rewrite Hz, Z.bits_0 in Hb. discriminate.
  - apply negb_false_iff, Z.eqb_eq, Z.bits_inj'. intros m Hm.
    rewrite Z.land_spec, Z.bits_0, BIT_testbit by assumption.
    destruct (n =? m) eqn:Enm; [|apply andb_false_r].
    assert (n = m) by lia. subst m. rewrite E. reflexivity.
Qed.

Lemma clear_bit_testbit x n j :
  0 <= n -> 0 <= j ->
  Z.testbit (Z.land x (Z.lnot (BIT n))) j = Z.testbit x j && negb (n =? j).
Proof.
  intros Hn Hj. rewrite Z.land_spec, Z.lnot_spec, BIT_testbit by assumption.
  reflexivity.
Qed.

(** ** [rmt_isr]: the end of a transmission *)

Lemma isr_channel_start_mask intr_st channel st :
  start_mask (isr_channel intr_st channel st)
  = if tst intr_st (BIT (channel * 3))
    then Z.land (start_mask st) (Z.lnot (BIT channel))
    else start_mask st.
Proof.
  unfold isr_channel.
  set (st1 := if tst intr_st (BIT (channel * 3)) then _ else st).
  assert (E : start_mask st1
              = if tst intr_st (BIT (channel * 3))
                then Z.land (start_mask st) (Z.lnot (BIT channel))
                else start_mask st).
  { subst st1. destruct (tst intr_st (BIT (channel * 3))); [|reflexivity].
    destruct (_ =? 0); reflexivity. }
  rewrite <- E.
  destruct (tst intr_st (BIT (24 + channel))); [|reflexivity].
  destruct (stepper st1 !! Z.to_nat channel) as [p|]; [|reflexivity].
  destruct (isr_drain _ _ _ _ _) as [[i p1] h2].
  destruct (0 <? i); [|reflexivity].
  unfold queue_send_from_isr. cbn [acceleration_queue set_hw set_stepper].
  destruct (acceleration_queue st1) as [q|]; [|reflexivity].
  destruct (length q <? 100)%nat; reflexivity.
Qed.

Lemma isr_loop_start_mask n : forall intr_st c st j,
  0 <= c -> 0 <= j ->
  Z.testbit (start_mask (isr_loop n intr_st c st)) j
  = Z.testbit (start_mask st) j
    && negb ((c <=? j) && (j <? c + Z.of_nat n) && Z.testbit intr_st (j * 3)).
Proof.
  induction n as [|n IH]; intros intr_st c st j Hc Hj; cbn [isr_loop].
  - replace (j <? c + Z.of_nat 0) with (j <? c) by (f_equal; lia).
    destruct (c <=? j) eqn:E1; destruct (j <? c) eqn:E2; try (exfalso; blia);
      cbn; rewrite andb_true_r; reflexivity.
  - rewrite IH by lia. rewrite isr_channel_start_mask.
    rewrite tst_BIT by lia.
    destruct (Z.eq_dec c j) as [->|Hne].
    + destruct (Z.testbit intr_st (j * 3)).
      * rewrite clear_bit_testbit, Z.eqb_refl by lia.
        cbn [negb]. rewrite andb_false_r. cbn [andb].
        destruct (j <=? j) eqn:E1; destruct (j <? j + Z.of_nat (S n)) eqn:E2;
          try (exfalso; blia).
        cbn [andb negb]. rewrite ?andb_false_r. reflexivity.
      * rewrite !andb_false_r. reflexivity.
    + assert (Hb : Z.testbit (if Z.testbit intr_st (c * 3)
                              then Z.land (start_mask st) (Z.lnot (BIT c))
                              else start_mask st) j
                   = Z.testbit (start_mask st) j).
      { destruct (Z.testbit intr_st (c * 3)); [|reflexivity].
        rewrite clear_bit_testbit by lia.
        destruct (c =? j) eqn:E; [lia|]. apply andb_true_r. }
      rewrite Hb. f_equal. f_equal. f_equal.
      destruct (c + 1 <=? j) eqn:E1; destruct (c <=? j) eqn:E2;
        destruct (j <? c + 1 + Z.of_nat n) eqn:E3;
        destruct (j <? c + Z.of_nat (S n)) eqn:E4; try (exfalso; blia);
        reflexivity.
Qed.

(** X9. The interrupt handler clears from [start_mask] exactly the bits of
    the channels whose transmission-end flag (bit [3 * channel] of the
    status) is raised: bit [j] of the new mask is set when it was set and
    channel [j], if it is one of the [NSTEP] channels, has not ended. *)
Theorem isr_clears_the_ended_channels intr_st st j :
  0 <= NSTEP -> 0 <= j ->
  Z.testbit (start_mask (rmt_isr intr_st st)) j
  = Z.testbit (start_mask st) j
    && negb ((j <? NSTEP) && Z.testbit intr_st (j * 3)).
Proof.
  intros HN Hj. unfold rmt_isr. rewrite isr_loop_start_mask by lia.
  rewrite Z2Nat.id by assumption.
  destruct (0 <=? j) eqn:E; [|exfalso; blia]. reflexivity.
Qed.

(** ** [stepper_start] *)

Lemma count_started_spec n : forall i smask num,
  0 <= i -> 0 <= num -> num + Z.of_nat n <= 255 ->
  count_started n i smask num
  = num + Z.of_nat (length (List.filter
                              (fun k => Z.testbit smask (Z.of_nat k))
                              (seq (Z.to_nat i) n))).
Proof.
  induction n as [|n IH]; intros i smask num Hi Hnum Hle;
    cbn [count_started seq List.filter]; [cbn; lia|].
  rewrite tst_BIT by assumption. rewrite Z2Nat.id by assumption.
  replace (S (Z.to_nat i)) with (Z.to_nat (i + 1)) by lia.
  destruct (Z.testbit smask i).
  - rewrite IH; [|lia|unfold u8; lia|unfold u8; lia].
    cbn [length]. unfold u8. change (2 ^ 8) with 256.
    rewrite Z.mod_small by lia. lia.
  - apply IH; lia.
Qed.

(** X16. [stepper_start] adds the requested channels to the active mask,
    keeps the ones that were active, and counts as started the bits of the
    new mask that belong to the [NSTEP] channels; the caller becomes the
    waiting task, the new mask, not the requested one, is sent to the task,
    and no channel is changed. *)
Theorem start_counts_the_active_channels self mask st :
  0 <= NSTEP <= 255 ->
  let st' := stepper_start self mask st in
  start_mask st' = Z.lor (start_mask st) (u32 mask) /\
  start_num st'
  = Z.of_nat (length (List.filter
                        (fun k => Z.testbit (start_mask st') (Z.of_nat k))
                        (seq 0 (Z.to_nat NSTEP)))) /\
  waiting_task st' = Some self /\
  acceleration_queue st'
  = option_map (fun q => q ++ [start_mask st']) (acceleration_queue st) /\
  stepper st' = stepper st.
Proof.
  intros HN. unfold stepper_start, queue_send.
  cbn [start_mask start_num waiting_task acceleration_queue stepper set_hw
       set_start_mask set_waiting_task set_start_num set_queue].
  repeat split.
  rewrite count_started_spec by lia. change (Z.to_nat 0) with 0%nat. lia.
Qed.

Lemma start_dir_loop_other n : forall mask testMask ps h x,
  (forall c q, ps !! c = Some q -> dir_pin q <> x) ->
  gpio_level (start_dir_loop n mask testMask ps h) x = gpio_level h x.
Proof.
  induction n as [|n IH]; intros mask testMask ps h x Hx;
    cbn [start_dir_loop]; [reflexivity|].
  destruct (testMask =? BIT (NSTEP - 1)); [reflexivity|].
  destruct ps as [|p ps]; [reflexivity|].
  rewrite IH by (intros c q Hq; apply (Hx (S c) q Hq)).
  pose proof (Hx 0%nat p eq_refl) as Hp.
  destruct (tst mask testMask); [|reflexivity].
  destruct (negb (dir p =? 0)); cbn;
    (destruct (x =? dir_pin p) eqn:E; [lia|reflexivity]).
Qed.

Lemma start_dir_loop_pin n : forall j mask ps h (c : nat) p,
  (1 <= n)%nat -> 0 <= j -> Z.of_nat n = NSTEP - j ->
  ps !! c = Some p -> j + Z.of_nat c < NSTEP - 1 ->
  tst mask (BIT (j + Z.of_nat c)) = true ->
  (forall c' q, (c < c')%nat -> ps !! c' = Some q -> dir_pin q <> dir_pin p) ->
  gpio_level (start_dir_loop n mask (BIT j) ps h) (dir_pin p)
  = negb (dir p =? 0).
Proof.
  induction n as [|n IH]; intros j mask ps h c p Hn Hj Hnj Hc Hlt Hbit Hlater;
    [lia|].
  cbn [start_dir_loop].
  destruct (BIT j =? BIT (NSTEP - 1)) eqn:E.
  { apply Z.eqb_eq, BIT_inj in E; lia. }
  destruct ps as [|p0 ps]; [discriminate|].
  rewrite BIT_double by assumption.
  destruct c as [|c].
  - cbn in Hc. injection Hc as ->. rewrite Z.add_0_r in Hbit. rewrite Hbit.
    rewrite start_dir_loop_other
      by (intros c q Hq; apply (Hlater (S c) q); [lia|exact Hq]).
    destruct (negb (dir p =? 0)); cbn; rewrite Z.eqb_refl; reflexivity.
  - apply (IH (j + 1) mask ps _ c p); try lia.
    + exact Hc.
    + replace (j + 1 + Z.of_nat c) with (j + Z.of_nat (S c)) by lia. exact Hbit.
    + intros c' q Hc' Hq. apply (Hlater (S c') q); [lia|exact Hq].
Qed.

(** X17. [stepper_start] puts the stored direction of a requested channel
    on its direction pin, high for a direction other than 0 and low for 0,
    for every channel below the last one, [NSTEP - 1], provided no later
    channel uses the same pin. *)
Theorem start_sets_the_direction_pins self mask st (c : nat) p :
  1 <= NSTEP ->
  stepper st !! c = Some p -> Z.of_nat c < NSTEP - 1 ->
  tst mask (BIT (Z.of_nat c)) = true ->
  (forall c' q, (c < c')%nat -> stepper st !! c' = Some q ->
     dir_pin q <> dir_pin p) ->
  gpio_level (hw (stepper_start self mask st)) (dir_pin p)
  = negb (dir p =? 0).
Proof.
  intros HN Hc Hlt Hbit Hlater. unfold stepper_start, queue_send. cbn.
  change 1 with (BIT 0).
  apply (start_dir_loop_pin (Z.to_nat NSTEP) 0 mask (stepper st) (hw st) c p);
    try lia; assumption.
Qed.

(** ** [stepper_stop] *)

Lemma stop_loop_round n mask testMask channel st :
  stop_loop (S n) mask testMask channel st
  = if testMask =? BIT (NSTEP - 1) then st
    else
      stop_loop n mask (Z.shiftl testMask 1) (u8 (channel + 1))
        (if tst (start_mask st) testMask then
           let st_a := set_hw (rmt_halt channel (hw st)) st in
           let st_b := if 0 <? start_num st_a
                       then set_start_num (u8 (start_num st_a - 1)) st_a
                       else st_a in
           set_start_mask (Z.land (start_mask st_b) (Z.lnot mask)) st_b
         else st).
Proof. reflexivity. Qed.

Lemma stop_loop_mask m : forall j mask channel st,
  0 <= j -> Z.of_nat (S m) = NSTEP - j ->
  start_mask (stop_loop (S m) mask (BIT j) channel st)
  = if existsb (fun k => Z.testbit (start_mask st) (Z.of_nat k))
         (seq (Z.to_nat j) m)
    then Z.land (start_mask st) (Z.lnot mask)
    else start_mask st.
Proof.
  induction m as [|m IH]; intros j mask channel st Hj Hm.
  - cbn [stop_loop seq existsb].
    replace j with (NSTEP - 1) by lia. rewrite Z.eqb_refl. reflexivity.
  - rewrite stop_loop_round.
    destruct (BIT j =? BIT (NSTEP - 1)) eqn:E.
    { apply Z.eqb_eq, BIT_inj in E; lia. }
    rewrite BIT_double by assumption.
    rewrite IH by lia.
    cbn [seq existsb]. rewrite Z2Nat.id by assumption.
    replace (S (Z.to_nat j)) with (Z.to_nat (j + 1)) by lia.
    rewrite tst_BIT by assumption.
    destruct (Z.testbit (start_mask st) j); cbn [orb]; [|reflexivity].
    assert (Hm1 : forall s : driver,
              start_mask
                (set_start_mask (Z.land (start_mask s) (Z.lnot mask)) s)
              = Z.land (start_mask s) (Z.lnot mask)) by reflexivity.
    assert (Hm2 : forall s : driver,
              start_mask (if 0 <? start_num s
                          then set_start_num (u8 (start_num s - 1)) s else s)
              = start_mask s)
      by (intros s; destruct (0 <? start_num s); reflexivity).
    cbn zeta. rewrite Hm1, Hm2. cbn [start_mask set_hw].
    rewrite <- Z.land_assoc, Z.land_diag.
    destruct (existsb _ _); reflexivity.
Qed.

(** X18. [stepper_stop(mask)] clears the bits of [mask] from the active
    mask when one of the channels [0 .. NSTEP-2] is active, whichever it is,
    and leaves the active mask as it is otherwise; it changes no channel
    of the table. *)
Theorem stop_clears_the_mask_when_a_channel_is_active mask st :
  1 <= NSTEP ->
  start_mask (stepper_stop mask st)
  = (if existsb (fun k => Z.testbit (start_mask st) (Z.of_nat k))
          (seq 0 (Z.to_nat (NSTEP - 1)))
     then Z.land (start_mask st) (Z.lnot mask)
     else start_mask st) /\
  stepper (stepper_stop mask st) = stepper st.
Proof.
  intros HN. split; [|apply stepper_stop_stepper].
  unfold stepper_stop.
  assert (E : start_mask (stop_loop (Z.to_nat NSTEP) mask 1 0 st)
              = if existsb (fun k => Z.testbit (start_mask st) (Z.of_nat k))
                     (seq 0 (Z.to_nat (NSTEP - 1)))
                then Z.land (start_mask st) (Z.lnot mask)
                else start_mask st).
  { replace (Z.to_nat NSTEP) with (S (Z.to_nat (NSTEP - 1))) by lia.
    change (stop_loop (S (Z.to_nat (NSTEP - 1))) mask 1 0 st)
      with (stop_loop (S (Z.to_nat (NSTEP - 1))) mask (BIT 0) 0 st).
    rewrite stop_loop_mask by lia. reflexivity. }
  destruct (start_num _ =? 0); cbn [notify_give start_mask]; exact E.
Qed.

Lemma stop_loop_idle n : forall mask testMask channel st,
  start_mask st = 0 -> stop_loop n mask testMask channel st = st.
Proof.
  induction n as [|n IH]; intros mask testMask channel st Hz;
    cbn [stop_loop]; [reflexivity|].
  destruct (testMask =? BIT (NSTEP - 1)); [reflexivity|].
  unfold tst. rewrite Hz, Z.land_0_l. cbn [Z.eqb negb].
  apply IH. exact Hz.
Qed.

(** X19. On a driver with no active channel [stepper_stop] stops nothing;
    it still notifies the task recorded as waiting (which may be none) when
    the count of active channels is zero. *)
Theorem stop_on_idle_driver_only_notifies mask st :
  start_mask st = 0 ->
  stepper_stop mask st
  = if start_num st =? 0 then notify_give st else st.
Proof.
  intros Hz. unfold stepper_stop. rewrite stop_loop_idle by assumption.
  reflexivity.
Qed.

(** ** [stepper_setup] *)

(** X10. With a free slot and collaborators that succeed, [stepper_setup]
    takes the lowest free slot: it returns its index, marks it configured
    with the given pins and steps per unit, gives it a zeroed buffer of
    [STEPPER_RMT_DATA_SIZE] words with head and tail at 0, leaves the other
    slots alone, and the task and the interrupt handler exist afterwards;
    the request queue is created only if the task did not exist. *)
Theorem setup_takes_the_lowest_free_slot env step_pin_ dir_pin_
    min_s max_s max_a stpu unit0 st (k : nat) p :
  step_pin_ <= 31 -> NSTEP <= 256 -> Z.of_nat k < NSTEP ->
  stepper st !! k = Some p -> setup p = false ->
  (forall j q, (j < k)%nat -> stepper st !! j = Some q -> setup q = true) ->
  calloc_ok env = true -> queue_ok env = true -> task_ok env = true ->
  lock_step_err env = None -> lock_dir_err env = None ->
  gpio_step_err env = None -> gpio_dir_err env = None ->
  exists st' p',
    stepper_setup env step_pin_ dir_pin_ min_s max_s max_a stpu unit0 st
    = Returns None (Z.of_nat k) st' /\
    stepper st' = <[k := p']> (stepper st) /\
    setup p' = true /\ step_pin p' = step_pin_ /\ dir_pin p' = dir_pin_ /\
    steps_per_unit p' = stpu /\
    rmt_data p' = replicate (Z.to_nat STEPPER_RMT_DATA_SIZE) 0 /\
    rmt_data_head p' = 0 /\ rmt_data_tail p' = 0 /\
    steps p' = steps p /\
    acceleration_profile_task_h st' = true /\ isr_h st' = true /\
    acceleration_queue st'
    = (if acceleration_profile_task_h st then acceleration_queue st
       else Some []).
Proof.
  intros Hpin HN Hk Hp Hfree Hlow Hc Hq Ht Hl1 Hl2 Hg1 Hg2.
  unfold stepper_setup.
  destruct (31 <? step_pin_) eqn:E; [blia|].
  rewrite (find_free_lowest (stepper st) (Z.to_nat NSTEP) 0 unit0 k p)
    by (try assumption; lia).
  assert (Eu : u8 (0 + Z.of_nat k) = Z.of_nat k)
    by (unfold u8; change (2 ^ 8) with 256; rewrite Z.mod_small; lia).
  rewrite Eu. destruct (NSTEP <? 0 + Z.of_nat k) eqn:E2; [blia|].
  rewrite Nat2Z.id, Hp, Hc, Hq, Ht, Hl1, Hl2, Hg1, Hg2. cbn [negb].
  assert (Hlocks : forall A (a b : A),
            (if USE_HARDWARE_LOCKS then @None Z else None) = None)
    by (intros; destruct USE_HARDWARE_LOCKS; reflexivity).
  set (p1 := set_rmt_data_tail 0 _).
  set (p' := configure_slot step_pin_ dir_pin_ min_s max_s max_a stpu p1).
  assert (Hins : <[k:=p']> (<[k:=p1]> (stepper st)) = <[k:=p']> (stepper st))
    by apply list_insert_insert_eq.
  destruct (acceleration_profile_task_h (put_stepper (Z.of_nat k) p1 st)) eqn:Eh;
    cbn [negb];
    destruct USE_HARDWARE_LOCKS;
    (eexists; exists p'; split; [reflexivity|]);
    cbn; rewrite ?Nat2Z.id, ?Hins; cbn in Eh;
    repeat split; try reflexivity; try assumption;
    rewrite Eh; reflexivity.
Qed.

(** Every way [stepper_setup] returns: the goal is left with the error,
    the unit and the state of each return in place. *)
#[local] Ltac setup_returns E :=
  unfold stepper_setup in E;
  repeat match type of E with
  | (if ?b then _ else _) = _ => destruct b eqn:?
  | (let '(_, _) := ?f in _) = _ => destruct f as [? ?] eqn:?
  | match ?o with Some _ => _ | None => _ end = _ => destruct o eqn:?
  | match ?o with inl _ => _ | inr _ => _ end = _ => destruct o eqn:?
  end;
  try discriminate E;
  injection E as <- <- <-.

(** X11. A call of [stepper_setup] that returns an error configures
    nothing: the configuration flag, the pins, the calibration, the step
    count, the carry, the motion model and the direction of every slot are
    as before.  (The buffer of the slot it had chosen may have been
    replaced.) *)
Theorem setup_failure_configures_nothing env step_pin_ dir_pin_
    min_s max_s max_a stpu unit0 st e unit st' :
  stepper_setup env step_pin_ dir_pin_ min_s max_s max_a stpu unit0 st
    = Returns (Some e) unit st' ->
  Forall2
    (fun p p' =>
       setup p' = setup p /\ step_pin p' = step_pin p /\
       dir_pin p' = dir_pin p /\ steps_per_unit p' = steps_per_unit p /\
       units_per_step p' = units_per_step p /\ steps p' = steps p /\
       rmt_ticks_remain p' = rmt_ticks_remain p /\ motion p' = motion p /\
       dir p' = dir p)
    (stepper st) (stepper st').
Proof.
  intros E. setup_returns E;
    cbn [stepper put_stepper set_stepper set_queue set_task_h set_hw set_isr_h];
    try (apply related_refl; intros; repeat split; reflexivity);
    try (eapply related_insert;
         first [eassumption|intros; cbn; repeat split; reflexivity]).
  all: repeat match goal with
       | H : (if ?b then _ else _) = inl _ |- _ => destruct b eqn:?
       | H : (if ?b then _ else _) = inr _ |- _ => destruct b eqn:?
       | H : inl _ = inl _ |- _ => injection H as <-
       | H : inr _ = inr _ |- _ => injection H as <-
       | H : inl _ = inr _ |- _ => discriminate H
       | H : inr _ = inl _ |- _ => discriminate H
       end;
    cbn [stepper put_stepper set_stepper set_queue set_task_h set_hw set_isr_h];
    eapply related_insert;
      first [eassumption|intros; cbn; repeat split; reflexivity].
Qed.

(** X12. [stepper_setup] never returns the error [NoMoreUnits]: the search
    for a free slot ends with [i] at most [NSTEP], and the test that guards
    the error is [i > NSTEP]. *)
Theorem setup_never_reports_exhaustion env step_pin_ dir_pin_
    min_s max_s max_a stpu unit0 st unit st' :
  0 <= NSTEP ->
  stepper_setup env step_pin_ dir_pin_ min_s max_s max_a stpu unit0 st
  <> Returns (Some STEPPER_ERR_NO_MORE_UNITS) unit st'.
Proof.
  intros HN E.
  apply (stepper_setup_never_exhausted _ _ _ _ _ _ _ _ _ _ _ _ HN E).
  reflexivity.
Qed.

(** X13. The task and its request queue are created once: when the task
    exists, a call of [stepper_setup], whatever it returns, leaves the
    queue with the requests it holds, and the task still exists. *)
Theorem setup_keeps_the_existing_queue env step_pin_ dir_pin_
    min_s max_s max_a stpu unit0 st e unit st' :
  acceleration_profile_task_h st = true ->
  stepper_setup env step_pin_ dir_pin_ min_s max_s max_a stpu unit0 st
    = Returns e unit st' ->
  acceleration_queue st' = acceleration_queue st /\
  acceleration_profile_task_h st' = true.
Proof.
  intros Hh E. setup_returns E; cbn in *; try (split; [reflexivity|assumption]).
  all: repeat match goal with
       | H : (if ?b then _ else _) = inl _ |- _ => destruct b eqn:?
       | H : (if ?b then _ else _) = inr _ |- _ => destruct b eqn:?
       | H : inl _ = inl _ |- _ => injection H as <-
       | H : inr _ = inr _ |- _ => injection H as <-
       | H : inl _ = inr _ |- _ => discriminate H
       | H : inr _ = inl _ |- _ => discriminate H
       end;
    cbn in *; first [congruence|split; [reflexivity|assumption]].
Qed.

(** ** [stepper_move] *)

(** X14. A call of [stepper_move] that succeeds was made on a configured
    channel of the table and re-arms it: its buffer is empty (head and tail
    at 0), no step is pending, no call of [motion_next] is counted, the
    transmission is requested and not started, the direction is 1 for a
    distance that is not negative and 0 otherwise; the pins, the
    calibration, the buffer array and the configuration flag of the channel
    stay, and so do all other channels and the rest of the driver. *)
Theorem move_rearms_one_channel unit units initial_spd target_spd acc jerk
    st st' :
  stepper_move unit units initial_spd target_spd acc jerk st
    = Returns None () st' ->
  exists p p',
    stepper st !! Z.to_nat unit = Some p /\ setup p = true /\
    stepper st' = <[Z.to_nat unit := p']> (stepper st) /\
    occupancy p' = 0 /\ rmt_data_head p' = 0 /\ rmt_data_tail p' = 0 /\
    rmt_offset p' = 0 /\ pending p' = 0 /\ next_calls p' = 0%nat /\
    typed p' = true /\
    steps p' = u32 (step_count units (steps_per_unit p)) /\
    rmt_start p' = true /\ rmt_started p' = false /\
    dir p' = (if real_ge0 units then 1 else 0) /\
    setup p' = true /\ step_pin p' = step_pin p /\ dir_pin p' = dir_pin p /\
    steps_per_unit p' = steps_per_unit p /\ rmt_data p' = rmt_data p /\
    start_mask st' = start_mask st /\ start_num st' = start_num st /\
    acceleration_queue st' = acceleration_queue st /\ hw st' = hw st.
Proof.
  unfold stepper_move. intros E.
  destruct (NSTEP <? unit); [discriminate|].
  destruct (stepper st !! Z.to_nat unit) as [p|] eqn:Hp; [|discriminate].
  destruct (setup p) eqn:Hs; cbn [negb] in E; [|discriminate].
  injection E as <-.
  exists p, (prepare_move units initial_spd target_spd acc jerk p).
  pose proof (u32_range (step_count units (steps_per_unit p))) as Hu.
  unfold occupancy, pending, typed. cbn.
  rewrite Hs. repeat split; try reflexivity.
  rewrite !andb_true_iff. repeat split; blia.
Qed.

(** ** Runs of the whole driver *)

Lemma sys_step_related (R : stepper_t -> stepper_t -> Prop) :
  (forall q, R q q) ->
  (forall p q r, R p q -> R q r -> R p r) ->
  (forall p, steps p = 0 ->
     ring_next (rmt_data_head p) <> rmt_data_tail p ->
     R p (push_at 0 (ring_next (rmt_data_head p)) p)) ->
  (forall p next, 0 < steps p -> next <> rmt_data_tail p ->
     R p (snd (step_body next p))) ->
  (forall p n h, rmt_start p = true -> rmt_started p = false ->
     R p (set_rmt_started true
            (fst (start_copy (Z.to_nat STEPPER_RMT_BUFF_SIZE) n 0 p h)))) ->
  (forall p channel h,
     R p (set_rmt_offset
            ((rmt_offset
                (snd (fst (isr_drain
                             (Z.to_nat (Z.shiftr STEPPER_RMT_BUFF_SIZE 1))
                             channel 0 p h)))
              + Z.shiftr STEPPER_RMT_BUFF_SIZE 1) mod STEPPER_RMT_BUFF_SIZE)
            (snd (fst (isr_drain
                         (Z.to_nat (Z.shiftr STEPPER_RMT_BUFF_SIZE 1))
                         channel 0 p h))))) ->
  forall e c, Forall2 R (stepper (snd c)) (stepper (snd (sys_step e c))).
Proof.
  intros Hrefl Htrans Hmark Hbody Hstart Hdrain e c.
  destruct e; cbn [sys_step snd].
  - apply task_step_related; assumption.
  - apply rmt_isr_related; assumption.
  - rewrite stepper_start_stepper. apply related_refl; assumption.
  - rewrite stepper_stop_stepper. apply related_refl; assumption.
Qed.

Lemma sys_run_related (R : stepper_t -> stepper_t -> Prop) :
  (forall q, R q q) ->
  (forall p q r, R p q -> R q r -> R p r) ->
  (forall e c, Forall2 R (stepper (snd c)) (stepper (snd (sys_step e c)))) ->
  forall es c, Forall2 R (stepper (snd c)) (stepper (snd (sys_run es c))).
Proof.
  intros Hrefl Htrans Hstep es.
  induction es as [|e es IH]; intros c; cbn [sys_run].
  - apply related_refl; assumption.
  - eapply Forall2_trans; [exact Htrans|apply Hstep|apply IH].
Qed.

Lemma step_body_steps next p :
  typed p = true -> 0 < steps p ->
  steps (snd (step_body next p)) <= steps p.
Proof.
  intros Hp Hpos. apply typed_spec in Hp. destruct Hp as [Hs Hr].
  unfold step_body.
  set (start := if rmt_ticks_remain p =? 0 then _ else _).
  assert (Hstart : steps (snd start) = steps p).
  { subst start. destruct (rmt_ticks_remain p =? 0); [|reflexivity].
    unfold call_motion_next. destruct (motion_next (motion p)) as [t m].
    reflexivity. }
  destruct start as [ticks p1]. cbn [snd] in Hstart.
  destruct (encode_items _ _ _ _ _) as [[next1 p2]|] eqn:E; [|cbn; lia].
  apply encode_items_frame in E. destruct E as (F1 & _).
  destruct (0 <? rmt_ticks_remain p2); [cbn; lia|].
  assert (Hdec : u32 (steps p2 - 1) = steps p - 1) by (rewrite u32_id; lia).
  cbn [steps set_steps].
  destruct (u32 (steps p2 - 1) =? 0); [destruct (negb _)|]; cbn; lia.
Qed.

(** What a run keeps of a channel whose counters hold 32-bit values. *)
Lemma sys_run_counts es c :
  Forall2
    (fun p p' =>
       typed p = true ->
       typed p' = true /\ account p' = account p /\ steps p' <= steps p)
    (stepper (snd c)) (stepper (snd (sys_run es c))).
Proof.
  assert (Hfields : forall p p',
            steps p' = steps p -> rmt_ticks_remain p' = rmt_ticks_remain p ->
            next_calls p' = next_calls p ->
            typed p = true ->
            typed p' = true /\ account p' = account p /\ steps p' <= steps p).
  { intros p p' E1 E2 E3 Hp.
    destruct (keeps_account_fields p p' E1 E2 E3 Hp) as [Ht Ha].
    repeat split; [assumption..|lia]. }
  apply sys_run_related.
  - intros q Hq. repeat split; [assumption|lia].
  - intros p q r Hpq Hqr Hp. destruct (Hpq Hp) as (Hq & A1 & S1).
    destruct (Hqr Hq) as (Hr & A2 & S2). repeat split; [assumption| |lia].
    congruence.
  - intros e c0. apply sys_step_related.
    + intros q Hq. repeat split; [assumption|lia].
    + intros p q r Hpq Hqr Hp. destruct (Hpq Hp) as (Hq & A1 & S1).
      destruct (Hqr Hq) as (Hr & A2 & S2). repeat split; [assumption| |lia].
      congruence.
    + intros p _ _. apply Hfields; reflexivity.
    + intros p next Hpos _ Hp.
      destruct (step_body_account next p Hpos Hp) as [Ht Ha].
      repeat split; [assumption..|]. apply step_body_steps; assumption.
    + intros p n h _ _.
      pose proof (start_copy_fields (Z.to_nat STEPPER_RMT_BUFF_SIZE) n 0 p h)
        as (E1 & E2 & E3).
      apply Hfields; cbn; assumption.
    + intros p channel h.
      pose proof (isr_drain_fields
                    (Z.to_nat (Z.shiftr STEPPER_RMT_BUFF_SIZE 1)) channel 0 p h)
        as (E1 & E2 & E3).
      apply Hfields; cbn; assumption.
Qed.

(** X15. From a successful [stepper_move] on, whatever the task, the
    interrupt handler, [stepper_start] and [stepper_stop] do: the number of
    calls of [motion_next] on the moved channel is the number of steps
    taken off its step count, plus one while a step is pending; and the
    step count never exceeds the one that the move has set. *)
Theorem calls_since_the_move unit units initial_spd target_spd acc jerk
    st st0 es pc :
  stepper_move unit units initial_spd target_spd acc jerk st
    = Returns None () st0 ->
  exists p0 p',
    stepper st0 !! Z.to_nat unit = Some p0 /\
    stepper (snd (sys_run es (pc, st0))) !! Z.to_nat unit = Some p' /\
    Z.of_nat (next_calls p') = (steps p0 - steps p') + pending p' /\
    0 <= steps p' <= steps p0.
Proof.
  intros E.
  assert (Hp0 : exists p0, stepper st0 !! Z.to_nat unit = Some p0 /\
                typed p0 = true /\ account p0 = steps p0).
  { unfold stepper_move in E.
    destruct (NSTEP <? unit); [discriminate|].
    destruct (stepper st !! Z.to_nat unit) as [p|] eqn:Hp; [|discriminate].
    destruct (negb (setup p)); [discriminate|]. injection E as <-.
    exists (prepare_move units initial_spd target_spd acc jerk p).
    pose proof (u32_range (step_count units (steps_per_unit p))) as Hu.
    split; [|split].
    - cbn. apply list_lookup_insert_eq. apply lookup_lt_is_Some. eauto.
    - apply typed_spec. cbn. lia.
    - unfold account, pending. cbn. lia. }
  destruct Hp0 as (p0 & Hl & Ht & Ha).
  pose proof (sys_run_counts es (pc, st0)) as Hrun. cbn [snd] in Hrun.
  destruct (Forall2_lookup_l _ _ _ _ _ Hrun Hl) as (p' & Hl' & Hrel).
  destruct (Hrel Ht) as (Ht' & Ha' & Hs').
  exists p0, p'. apply typed_spec in Ht'.
  unfold account in *. repeat split; [assumption..|lia|lia|lia].
Qed.

(** ** States that the driver can reach *)

Lemma Forall_related (P : stepper_t -> Prop) (R : stepper_t -> stepper_t -> Prop)
    (l k : list stepper_t) :
  (forall p p', P p -> R p p' -> P p') ->
  Forall P l -> Forall2 R l k -> Forall P k.
Proof.
  intros HPR Hl Hlk. induction Hlk as [|p p' l k Hp Hlk IH]; [constructor|].
  inversion Hl; subst. constructor; [eapply HPR; eassumption|apply IH; assumption].
Qed.

Lemma well_formed_same pc st st' :
  stepper st' = stepper st -> well_formed (pc, st) -> well_formed (pc, st').
Proof.
  unfold well_formed, rings_ok. cbn [fst snd]. intros ->. auto.
Qed.

Lemma well_formed_insert pc st st' i p p' :
  well_formed (pc, st) -> stepper st !! i = Some p ->
  stepper st' = <[i:=p']> (stepper st) ->
  in_ring p' -> (typed p = true -> typed p' = true) ->
  ((setup p = true -> step_pin p <= 31) -> setup p' = true -> step_pin p' <= 31) ->
  well_formed (pc, st').
Proof.
  unfold well_formed, rings_ok. cbn [fst snd].
  intros (Hlen & (Hring & Hpc) & Hall) Hi -> Hr Ht Hpin.
  pose proof (Forall_lookup_1 _ _ _ _ Hall Hi) as [Hp1 Hp2].
  rewrite length_insert. repeat split; try assumption.
  - apply Forall_insert; assumption.
  - apply Forall_insert; [assumption|]. split; [apply Ht|apply Hpin]; assumption.
Qed.

Lemma sys_step_well_formed e c :
  0 < STEPPER_RMT_DATA_SIZE -> well_formed c -> well_formed (sys_step e c).
Proof.
  intros Hd (Hlen & Hrings & Hall). split; [|split].
  - rewrite <- Hlen. symmetry.
    apply (Forall2_length _ _ _ (sys_step_account e c)).
  - destruct e; cbn [sys_step].
    + apply task_step_ring; assumption.
    + destruct Hrings as [Hr Hpc]. split; [|exact Hpc].
      apply isr_loop_ring; assumption.
    + destruct Hrings as [Hr Hpc]. split; [|exact Hpc].
      cbn [snd]. rewrite stepper_start_stepper. exact Hr.
    + destruct Hrings as [Hr Hpc]. split; [|exact Hpc].
      cbn [snd]. rewrite stepper_stop_stepper. exact Hr.
  - refine (Forall_related _
              (fun p p' => (typed p = true -> typed p' = true) /\
                           setup p' = setup p /\ step_pin p' = step_pin p)
              _ _ _ Hall _).
    + intros p p' [Hp1 Hp2] (R1 & R2 & R3). rewrite R2, R3. auto.
    + apply sys_step_related.
      * intros q. auto.
      * intros p q r (A1 & A2 & A3) (B1 & B2 & B3).
        repeat split; [auto|congruence|congruence].
      * intros p _ _. repeat split. intros Hp. exact Hp.
      * intros p next Hpos _.
        pose proof (step_body_consumer next p)
          as (_ & _ & _ & _ & E5 & E6 & _).
        repeat split; [|assumption..].
        intros Hp. apply (step_body_account next p Hpos Hp).
      * intros p n h _ _.
        pose proof (start_copy_fields (Z.to_nat STEPPER_RMT_BUFF_SIZE) n 0 p h)
          as (E1 & E2 & E3).
        pose proof (start_copy_producer (Z.to_nat STEPPER_RMT_BUFF_SIZE) n 0 p h)
          as (_ & _ & _ & _ & _ & _ & F7 & F8 & _).
        cbn in *. repeat split; [|assumption..].
        unfold typed. cbn. rewrite E1, E2. auto.
      * intros p channel h.
        pose proof (isr_drain_producer
                      (Z.to_nat (Z.shiftr STEPPER_RMT_BUFF_SIZE 1)) channel 0 p h)
          as (_ & _ & E3 & _ & E5 & _ & _ & _ & E9 & E10 & _).
        cbn in *. repeat split; [|assumption..].
        unfold typed. cbn. rewrite E3, E5. auto.
Qed.

Lemma setup_well_formed env step_pin_ dir_pin_ min_s max_s max_a stpu unit0
    pc st e unit st' :
  0 < STEPPER_RMT_DATA_SIZE -> well_formed (pc, st) ->
  stepper_setup env step_pin_ dir_pin_ min_s max_s max_a stpu unit0 st
    = Returns e unit st' ->
  well_formed (pc, st').
Proof.
  intros Hd Hwf E.
  assert (Hp : forall u p, stepper st !! Z.to_nat u = Some p -> in_ring p).
  { intros u p Hu. destruct Hwf as (_ & (Hr & _) & _).
    apply (Forall_lookup_1 _ _ _ _ Hr Hu). }
  setup_returns E;
    repeat match goal with
    | H : (if ?b then _ else _) = inl _ |- _ => destruct b eqn:?
    | H : (if ?b then _ else _) = inr _ |- _ => destruct b eqn:?
    | H : inl _ = inl _ |- _ => injection H as <-
    | H : inr _ = inr _ |- _ => injection H as <-
    | H : inl _ = inr _ |- _ => discriminate H
    | H : inr _ = inl _ |- _ => discriminate H
    end;
    first
      [ apply (well_formed_same pc st); [reflexivity|assumption]
      | eapply (well_formed_insert pc st);
        [ eassumption
        | eassumption
        | cbn; rewrite ?list_insert_insert_eq; reflexivity
        | first [ split; cbn; lia
                | match goal with
                  | Hq : stepper st !! _ = Some ?q |- _ => exact (Hp _ q Hq)
                  end ]
        | intros Ht; exact Ht
        | cbn; intros; first [auto; fail | blia] ] ].
Qed.

Lemma move_well_formed unit units initial_spd target_spd acc jerk
    pc st e st' :
  0 < STEPPER_RMT_DATA_SIZE -> well_formed (pc, st) ->
  stepper_move unit units initial_spd target_spd acc jerk st
    = Returns e () st' ->
  well_formed (pc, st').
Proof.
  intros Hd Hwf E. unfold stepper_move in E.
  destruct (NSTEP <? unit); [injection E as <- <-; assumption|].
  destruct (stepper st !! Z.to_nat unit) as [p|] eqn:Hp; [|discriminate].
  destruct (negb (setup p)); injection E as <- <-; [assumption|].
  apply (well_formed_insert pc st _ (Z.to_nat unit) p
           (prepare_move units initial_spd target_spd acc jerk p));
    try assumption.
  - reflexivity.
  - split; cbn; lia.
  - intros _. apply typed_spec. cbn.
    pose proof (u32_range (step_count units (steps_per_unit p))). lia.
  - cbn. auto.
Qed.

Lemma init_well_formed h :
  0 < STEPPER_RMT_DATA_SIZE -> well_formed (Waiting, stepper_init h).
Proof.
  intros Hd. unfold well_formed, rings_ok, stepper_init. cbn [fst snd stepper].
  rewrite length_replicate. repeat split.
  - apply Forall_replicate. split; cbn; lia.
  - apply Forall_replicate. split; [reflexivity|]. cbn. discriminate.
Qed.

Lemma api_run_well_formed es : forall c c',
  0 < STEPPER_RMT_DATA_SIZE -> well_formed c ->
  api_run es c = Some c' -> well_formed c'.
Proof.
  induction es as [|e es IH]; intros c c' Hd Hwf E; cbn [api_run] in E.
  - injection E as <-. exact Hwf.
  - destruct (api_step e c) as [c1|] eqn:E1; [|discriminate].
    apply (IH c1 c' Hd); [|exact E].
    destruct c as [pc st]. destruct e; cbn in E1.
    + injection E1 as <-. apply sys_step_well_formed; assumption.
    + destruct (stepper_setup _ _ _ _ _ _ _ _ _) eqn:E2; [|discriminate].
      injection E1 as <-. eapply setup_well_formed; eassumption.
    + destruct (stepper_move _ _ _ _ _ _ _) eqn:E2; [|discriminate].
      injection E1 as <-. destruct out. eapply move_well_formed; eassumption.
Qed.

(** X20. Every state that the driver reaches from [stepper_init], by calls
    of [stepper_setup], [stepper_move], [stepper_start] and [stepper_stop],
    interrupts and loop tests of the task in any order, has a table of
    [NSTEP] slots, heads and tails inside the buffers, step counts and
    carries that fit 32 bits, and, on every configured channel, a step pin
    of at most 31. *)
Theorem reachable_states_are_well_formed h es c :
  0 < STEPPER_RMT_DATA_SIZE ->
  api_run es (Waiting, stepper_init h) = Some c ->
  well_formed c.
Proof.
  intros Hd E.
  apply (api_run_well_formed es (Waiting, stepper_init h) c Hd); [|exact E].
  apply init_well_formed. exact Hd.
Qed.

(** ** The words of a step *)

Lemma lor_shiftl_add a b n :
  0 <= n -> 0 <= a < 2 ^ n -> Z.lor a (Z.shiftl b n) = a + b * 2 ^ n.
Proof.
  intros Hn Ha.
  assert (Hz : Z.land a (Z.shiftl b n) = 0).
  { apply Z.bits_inj'. intros m Hm. rewrite Z.land_spec, Z.bits_0.
    destruct (Z.lt_ge_cases m n) as [Hlt|Hge].
    - rewrite Z.shiftl_spec_low by assumption. apply andb_false_r.
    - rewrite <- (Z.mod_small a (2 ^ n)) by assumption.
      rewrite Z.mod_pow2_bits_high by lia. reflexivity. }
  rewrite <- Z.lxor_lor by assumption.
  rewrite <- Z.add_nocarry_lxor by assumption.
  rewrite Z.shiftl_mul_pow2 by assumption. reflexivity.
Qed.

(** The word of an item as a number. *)
Lemma mk_item_value l0 d0 l1 d1 :
  0 <= l0 <= 1 -> 0 <= d0 < 32768 -> 0 <= l1 <= 1 -> 0 <= d1 < 32768 ->
  mk_item l0 d0 l1 d1 = d0 + l0 * 32768 + (d1 + l1 * 32768) * 65536.
Proof.
  intros Hl0 Hd0 Hl1 Hd1. unfold mk_item, rmt_val, field.
  cbn [level0 duration0 level1 duration1].
  change (2 ^ 15) with 32768. change (2 ^ 1) with 2.
  rewrite !Z.mod_small by lia.
  replace (Z.shiftl l1 31) with (Z.shiftl (Z.shiftl l1 15) 16)
    by (rewrite Z.shiftl_shiftl by lia; reflexivity).
  rewrite <- Z.shiftl_lor.
  rewrite !(lor_shiftl_add _ _ 15) by (change (2 ^ 15) with 32768; lia).
  rewrite (lor_shiftl_add _ _ 16)
    by (change (2 ^ 15) with 32768; change (2 ^ 16) with 65536; lia).
  change (2 ^ 15) with 32768. change (2 ^ 16) with 65536. reflexivity.
Qed.

Lemma land_1 x : Z.land x 1 = x mod 2.
Proof. apply (Z.land_ones x 1). lia. Qed.

Lemma land_32767 x : Z.land x 32767 = x mod 32768.
Proof. apply (Z.land_ones x 15). lia. Qed.

(** Packing and unpacking an item. *)
Lemma rmt_of_val_mk_item l0 d0 l1 d1 :
  0 <= l0 <= 1 -> 0 <= d0 < 32768 -> 0 <= l1 <= 1 -> 0 <= d1 < 32768 ->
  rmt_of_val (mk_item l0 d0 l1 d1)
  = {| level0 := l0; duration0 := d0; level1 := l1; duration1 := d1 |}.
Proof.
  intros Hl0 Hd0 Hl1 Hd1. rewrite mk_item_value by assumption.
  unfold rmt_of_val.
  rewrite !land_1, !land_32767. rewrite !Z.shiftr_div_pow2 by lia.
  change (2 ^ 15) with 32768. change (2 ^ 16) with 65536.
  change (2 ^ 31) with 2147483648.
  f_equal; lia.
Qed.

Lemma item_ticks_mk_item l0 d0 l1 d1 :
  0 <= l0 <= 1 -> 0 <= d0 < 32768 -> 0 <= l1 <= 1 -> 0 <= d1 < 32768 ->
  item_ticks (mk_item l0 d0 l1 d1) = d0 + d1 /\
  is_pulse (mk_item l0 d0 l1 d1) = (l0 =? 1).
Proof.
  intros Hl0 Hd0 Hl1 Hd1. unfold item_ticks, is_pulse.
  rewrite rmt_of_val_mk_item by assumption. split; reflexivity.
Qed.

Lemma push_all_later a b ws : forall p,
  push_all false a ws p = push_all false b ws p.
Proof.
  induction ws as [|v ws IH]; intros p; cbn [push_all]; [reflexivity|].
  apply IH.
Qed.

(** The rounds after the first item: their words hold level 0 and, with
    the ticks that are left, the ticks they started from. *)
Lemma encode_more_words n : forall ticks next p next' p',
  encode_items n false ticks next p = Some (next', p') ->
  0 <= ticks < 4294967296 ->
  exists ws left,
    rmt_data p' = rmt_data (push_all false next ws p) /\
    rmt_data_head p' = rmt_data_head (push_all false next ws p) /\
    Forall (fun v => is_pulse v = false) ws /\
    items_ticks ws + left = ticks /\ 0 <= left /\
    (rmt_ticks_remain p' = left \/
     (left = 0 /\ rmt_ticks_remain p' = rmt_ticks_remain p)).
Proof.
  induction n as [|n IH]; intros ticks next p next' p' E Ht;
    cbn [encode_items] in E; [discriminate|].
  destruct (0 <? ticks) eqn:Hpos.
  2:{ injection E as <- <-. exists [], 0. cbn.
      repeat split; first [apply Forall_nil; exact I|blia|right; split; reflexivity]. }
  destruct (negb (ring_next (rmt_data_head p) =? rmt_data_tail p)) eqn:Hfree.
  2:{ injection E as <- <-. exists [], ticks. cbn.
      repeat split; first [apply Forall_nil; exact I|blia|left; reflexivity]. }
  change (Z.shiftl 32767 1) with 65534 in E.
  destruct (ticks <? 65534) eqn:Hlt.
  - destruct n as [|n]; [discriminate E|].
    cbn [encode_items] in E. change (0 <? 0) with false in E. cbv iota in E.
    injection E as <- <-.
    set (d0 := field 15 (Z.shiftr ticks 1)).
    assert (Hd0 : d0 = ticks / 2 /\ 0 <= ticks / 2 < 32767).
    { subst d0. unfold field. rewrite Z.shiftr_div_pow2 by lia.
      change (2 ^ 1) with 2. change (2 ^ 15) with 32768.
      assert (0 <= ticks / 2 < 32767) by blia.
      rewrite Z.mod_small by lia. auto. }
    destruct Hd0 as [Hd0 Hhalf].
    assert (Hd1 : u32 (ticks - d0) = ticks - ticks / 2 /\
                  0 <= ticks - ticks / 2 < 32768).
    { rewrite Hd0. assert (0 <= ticks - ticks / 2 < 32768) by blia.
      rewrite u32_id by lia. auto. }
    destruct Hd1 as [Hd1 Hrest].
    destruct (item_ticks_mk_item 0 d0 0 (u32 (ticks - d0)))
      as [Hticks Hpulse]; try lia.
    exists [mk_item 0 d0 0 (u32 (ticks - d0))], 0.
    cbn [push_all items_ticks foldr]. repeat split.
    + constructor; [exact Hpulse|constructor].
    + rewrite Hticks. lia.
    + lia.
    + left. reflexivity.
  - assert (Hge : 65534 <= ticks) by blia.
    assert (E' : u32 (u32 (ticks - 32767) - 32767) = ticks - 65534).
    { rewrite (u32_id (ticks - 32767)) by lia. rewrite u32_id by lia. lia. }
    rewrite E' in E. apply IH in E; [|lia].
    destruct E as (ws & left & L1 & L2 & L3 & L4 & L5 & L6).
    destruct (item_ticks_mk_item 0 32767 0 32767) as [Hticks Hpulse]; try lia.
    exists (mk_item 0 32767 0 32767 :: ws), left.
    cbn [push_all items_ticks foldr].
    rewrite (push_all_later next (ring_next (rmt_data_head p))).
    repeat split; try assumption.
    + constructor; assumption.
    + rewrite Hticks. fold (items_ticks ws). lia.
Qed.

(** X2. The words of a step.  A round of the encoding loop that begins a
    step of [T] ticks, [T] at least the pulse width, stores one word that
    holds the pulse at level 1 for [STEPPER_PULSE_TICKS] and level 0 for the
    rest of the step or for 32767 ticks, and then words that hold level 0
    only.  Together with the carry left when the buffer filled, the
    durations of these words come to [T] when the step fits the first
    word, and to [T + STEPPER_PULSE_TICKS] when it does not: the first word
    then takes 32767 ticks off the step for the [32767 +
    STEPPER_PULSE_TICKS] ticks it holds. *)
Theorem words_of_a_step n T next p next' p' :
  0 < STEPPER_PULSE_TICKS < 32768 ->
  STEPPER_PULSE_TICKS <= T < 4294967296 ->
  rmt_ticks_remain p = 0 ->
  encode_items n true T next p = Some (next', p') ->
  exists w ws,
    rmt_data p' = rmt_data (push_all true next (w :: ws) p) /\
    rmt_data_head p' = rmt_data_head (push_all true next (w :: ws) p) /\
    rmt_of_val w
    = {| level0 := 1; duration0 := STEPPER_PULSE_TICKS;
         level1 := 0;
         duration1 := Z.min (T - STEPPER_PULSE_TICKS) 32767 |} /\
    Forall (fun v => is_pulse v = false) ws /\
    items_ticks (w :: ws) + rmt_ticks_remain p'
    = (if T - STEPPER_PULSE_TICKS <? 32767 then T
       else T + STEPPER_PULSE_TICKS).
Proof.
  intros Hpulse HT Hrem E.
  destruct n as [|n]; cbn [encode_items] in E; [discriminate|].
  destruct (0 <? T) eqn:Hpos; [|blia].
  rewrite (u32_id (T - STEPPER_PULSE_TICKS)) in E by lia.
  destruct (T - STEPPER_PULSE_TICKS <? 32767) eqn:Hshort.
  - destruct n as [|n]; [discriminate E|].
    cbn [encode_items] in E. change (0 <? 0) with false in E. cbv iota in E.
    injection E as <- <-.
    assert (Hr : 0 <= T - STEPPER_PULSE_TICKS < 32767) by blia.
    exists (mk_item 1 STEPPER_PULSE_TICKS 0 (T - STEPPER_PULSE_TICKS)), [].
    destruct (item_ticks_mk_item 1 STEPPER_PULSE_TICKS 0
                (T - STEPPER_PULSE_TICKS)) as [Hticks _]; try lia.
    cbn [push_all items_ticks foldr]. repeat split.
    + rewrite rmt_of_val_mk_item by lia. f_equal. lia.
    + constructor.
    + rewrite Hticks. cbn. lia.
  - assert (Hr : 32767 <= T - STEPPER_PULSE_TICKS) by blia.
    rewrite (u32_id (T - 32767)) in E by lia.
    apply encode_more_words in E; [|lia].
    destruct E as (ws & left & L1 & L2 & L3 & L4 & L5 & L6).
    exists (mk_item 1 STEPPER_PULSE_TICKS 0 32767), ws.
    destruct (item_ticks_mk_item 1 STEPPER_PULSE_TICKS 0 32767)
      as [Hticks _]; try lia.
    cbn [push_all items_ticks foldr]. repeat split; try assumption.
    + rewrite rmt_of_val_mk_item by lia. f_equal. lia.
    + rewrite Hticks. fold (items_ticks ws).
      assert (rmt_ticks_remain p' = left).
      { destruct L6 as [L6|[L6 L7]]; [assumption|].
        rewrite L7. cbn. lia. }
      lia.
Qed.

(** ** A round of the loop over the steps, by the words it stores *)

Lemma push_all_app ws : forall first next e p,
  push_all first next (ws ++ e) p
  = push_all (match ws with [] => first | _ => false end) next e
      (push_all first next ws p).
Proof.
  induction ws as [|v ws IH]; intros first next e p; [reflexivity|].
  cbn [app push_all]. rewrite IH. destruct ws; reflexivity.
Qed.

(** The stores look at the buffer and at the head only. *)
Lemma push_all_buffer ws : forall first next p q,
  rmt_data p = rmt_data q -> rmt_data_head p = rmt_data_head q ->
  rmt_data (push_all first next ws p) = rmt_data (push_all first next ws q) /\
  rmt_data_head (push_all first next ws p)
  = rmt_data_head (push_all first next ws q).
Proof.
  induction ws as [|v ws IH]; intros first next p q Ed Eh; cbn [push_all];
    [split; assumption|].
  apply IH; cbn; unfold store_ok; rewrite Ed, Eh; reflexivity.
Qed.

(** The words of the encoding loop that begins a step. *)
Lemma encode_first_words n T next p next' p' :
  0 < T < 4294967296 ->
  encode_items n true T next p = Some (next', p') ->
  exists ws left,
    rmt_data p'
    = rmt_data (push_all true next
                  (mk_item 1 STEPPER_PULSE_TICKS 0 (first_low T) :: ws) p) /\
    rmt_data_head p'
    = rmt_data_head (push_all true next
                       (mk_item 1 STEPPER_PULSE_TICKS 0 (first_low T) :: ws) p) /\
    Forall (fun v => is_pulse v = false) ws /\
    items_ticks ws + left = after_first T /\ 0 <= left /\
    (rmt_ticks_remain p' = left \/
     left = 0 /\ rmt_ticks_remain p' = rmt_ticks_remain p).
Proof.
  intros HT E. unfold first_low, after_first.
  destruct n as [|n]; cbn [encode_items] in E; [discriminate|].
  destruct (0 <? T) eqn:Hpos; [|blia].
  destruct (u32 (T - STEPPER_PULSE_TICKS) <? 32767) eqn:Hshort.
  - destruct n as [|n]; [discriminate E|].
    cbn [encode_items] in E. change (0 <? 0) with false in E. cbv iota in E.
    injection E as <- <-. exists [], 0. cbn [push_all].
    repeat split; first [apply Forall_nil; exact I|lia|left; reflexivity].
  - apply encode_more_words in E; [|apply u32_range].
    destruct E as (ws & left & L1 & L2 & L3 & L4 & L5 & L6).
    exists ws, left. cbn [push_all]. repeat split; assumption.
Qed.

(** A round of the loop over the steps encodes the ticks it starts from:
    those of a new step, which it asks of the motion model, or the carry
    of a suspended one. *)
Lemma step_body_encodes next q :
  typed q = true ->
  let T := if rmt_ticks_remain q =? 0
           then u32 (step_ticks (fst (motion_next (motion q))))
           else rmt_ticks_remain q in
  0 < T -> round_encodes T next q (snd (step_body next q)).
Proof.
  intros Hty T HT. apply typed_spec in Hty. destruct Hty as [Hs Hr].
  unfold step_body.
  set (start := if rmt_ticks_remain q =? 0 then _ else _).
  assert (Hstart :
    fst start = T /\ rmt_data (snd start) = rmt_data q /\
    rmt_data_head (snd start) = rmt_data_head q /\
    rmt_ticks_remain (snd start) = rmt_ticks_remain q /\
    steps (snd start) = steps q).
  { subst start T. destruct (rmt_ticks_remain q =? 0).
    - unfold call_motion_next. destruct (motion_next (motion q)) as [t m].
      cbn. repeat split; reflexivity.
    - cbn. repeat split; reflexivity. }
  destruct start as [ticks p1]. cbn [fst snd] in Hstart.
  destruct Hstart as (-> & Ed & Eh & Er & Est).
  assert (HT' : 0 < T < 4294967296).
  { split; [exact HT|]. subst T. destruct (rmt_ticks_remain q =? 0);
      [apply u32_range|lia]. }
  destruct (encode_items_total T next p1 ltac:(lia)) as [[next1 p2] E].
  rewrite E.
  pose proof (encode_items_frame _ _ _ _ _ _ _ E) as (F1 & _ & _ & F4).
  specialize (F4 ltac:(lia)). rewrite Er in F4. specialize (F4 Hr).
  apply encode_first_words in E; [|exact HT'].
  destruct E as (ws & left & L1 & L2 & L3 & L4 & L5 & L6).
  set (w := mk_item 1 STEPPER_PULSE_TICKS 0 (first_low T)) in *.
  destruct (push_all_buffer (w :: ws) true next p1 q Ed Eh) as [B1 B2].
  rewrite B1 in L1. rewrite B2 in L2. rewrite Er in L6.
  destruct (0 <? rmt_ticks_remain p2) eqn:Hrem.
  - exists ws, [], left. cbn [snd]. rewrite app_nil_r. fold w.
    destruct (rmt_ticks_remain p2 =? 0) eqn:Hz; [blia|].
    split; [exact L1|]. split; [exact L2|]. split; [exact L3|].
    split; [exact L4|]. split; [exact L5|]. split; [exact L6|].
    split; [congruence|]. left. reflexivity.
  - assert (Hz : rmt_ticks_remain p2 = 0) by blia.
    cbn [steps set_steps].
    set (p3 := set_steps (u32 (steps p2 - 1)) p2).
    assert (Hdec : u32 (steps p2 - 1) = u32 (steps q - 1)) by congruence.
    destruct (u32 (steps p2 - 1) =? 0) eqn:Hlast;
      [destruct (negb (ring_next (rmt_data_head p3) =? rmt_data_tail p3))|].
    + exists ws, [0], left. cbn [snd]. fold w.
      change (w :: ws ++ [0]) with ((w :: ws) ++ [0]).
      rewrite push_all_app. cbn [push_all].
      destruct (push_all_buffer [0] false next p3
                  (push_all true next (w :: ws) q) L1 L2) as [C1 C2].
      cbn [push_all] in C1, C2. subst p3.
      split; [exact C1|]. split; [exact C2|]. split; [exact L3|].
      split; [exact L4|]. split; [exact L5|]. split; [exact L6|].
      cbn [steps rmt_ticks_remain push_at set_steps]. rewrite Hz.
      change (0 =? 0) with true. cbv iota.
      split; [exact Hdec|]. right. split; [reflexivity|].
      apply Z.eqb_eq. exact Hlast.
    + exists ws, [], left. cbn [snd]. rewrite app_nil_r. subst p3. fold w.
      split; [exact L1|]. split; [exact L2|]. split; [exact L3|].
      split; [exact L4|]. split; [exact L5|]. split; [exact L6|].
      cbn [steps rmt_ticks_remain set_steps]. rewrite Hz.
      change (0 =? 0) with true. cbv iota.
      split; [exact Hdec|]. left. reflexivity.
    + exists ws, [], left. cbn [snd]. rewrite app_nil_r. subst p3. fold w.
      split; [exact L1|]. split; [exact L2|]. split; [exact L3|].
      split; [exact L4|]. split; [exact L5|]. split; [exact L6|].
      cbn [steps rmt_ticks_remain set_steps]. rewrite Hz.
      change (0 =? 0) with true. cbv iota.
      split; [exact Hdec|]. left. reflexivity.
Qed.

Lemma table_typed_after (l k : list stepper_t) :
  Forall2 keeps_account l k -> forallb typed l = true ->
  Forall (fun q => typed q = true) k.
Proof.
  intros Hlk. induction Hlk as [|p p' l k Hp Hlk IH]; intros Ht;
    [constructor|].
  cbn in Ht. apply andb_true_iff in Ht as [Ht1 Ht2].
  constructor; [apply (Hp Ht1)|apply IH; assumption].
Qed.

(** C8. Whatever the task, the interrupt handler and calls of
    [stepper_start] and [stepper_stop] do, in whatever order, on channels
    whose counters hold 32-bit values: for every channel the number of
    calls of [motion_next] made meanwhile equals the number of times its
    step count was decremented, plus one if a step is pending (suspended
    with a nonzero carry) at the end, less one if a step was pending at the
    beginning.  And in every state reached, for every channel: a round of
    the step loop that finds a nonzero carry does not call [motion_next],
    neither the count of calls nor the motion model changes, and it encodes
    the carry ([round_encodes]): its first word is the pulse with the low
    part that the carry gives, and its other words, with the ticks left
    when the buffer filled, come to what the carry leaves after the first
    word.  A round that finds the carry 0 calls [motion_next] once, keeps
    the tick count that the model gave in [rmt_ticks], and encodes that
    count when it is not 0. *)
Theorem motion_next_once_per_step (es : list event) (c : task_pc * driver) :
  forallb typed (stepper (snd c)) = true ->
  Forall2
    (fun p p' =>
       Z.of_nat (next_calls p') - Z.of_nat (next_calls p)
       = (steps p - steps p') + (pending p' - pending p))
    (stepper (snd c)) (stepper (snd (sys_run es c))) /\
  Forall
    (fun q => forall next,
       (rmt_ticks_remain q <> 0 ->
        next_calls (snd (step_body next q)) = next_calls q /\
        motion (snd (step_body next q)) = motion q /\
        round_encodes (rmt_ticks_remain q) next q (snd (step_body next q))) /\
       (rmt_ticks_remain q = 0 ->
        next_calls (snd (step_body next q)) = S (next_calls q) /\
        motion (snd (step_body next q)) = snd (motion_next (motion q)) /\
        rmt_ticks (snd (step_body next q))
        = u32 (step_ticks (fst (motion_next (motion q)))) /\
        (0 < u32 (step_ticks (fst (motion_next (motion q)))) ->
         round_encodes (u32 (step_ticks (fst (motion_next (motion q)))))
           next q (snd (step_body next q)))))
    (stepper (snd (sys_run es c))).
Proof.
  intros Ht. split.
  - refine (table_typed _ _ _ _ (sys_run_account es c) Ht).
    intros p p' _ E. unfold account in E. lia.
  - pose proof (table_typed_after _ _ (sys_run_account es c) Ht) as Hall.
    apply Forall_forall. intros q Hq next.
    pose proof (proj1 (Forall_forall _ _) Hall q Hq) as Hty.
    cbv beta in Hty.
    pose proof (step_body_encodes next q Hty) as Henc. cbv zeta in Henc.
    split; intros Hr.
    + destruct (step_body_resume next q Hr) as [R1 R2].
      split; [exact R1|]. split; [exact R2|].
      replace (rmt_ticks_remain q =? 0) with false in Henc by (symmetry; blia).
      apply Henc. apply typed_spec in Hty. lia.
    + replace (rmt_ticks_remain q =? 0) with true in Henc by (symmetry; blia).
      destruct (step_body_fresh next q Hr) as (R1 & R2 & R3).
      split; [exact R1|]. split; [exact R2|]. split; [exact R3|]. exact Henc.
Qed.

(** ** The task finishes every request *)

Lemma free_slots_range p :
  0 < STEPPER_RMT_DATA_SIZE -> 0 <= free_slots p < STEPPER_RMT_DATA_SIZE.
Proof. intros Hd. unfold free_slots. apply Z.mod_pos_bound. assumption. Qed.

Lemma free_slots_value h t d :
  0 <= h < d -> 0 <= t < d ->
  (t - h - 1) mod d = if h <? t then t - h - 1 else t - h - 1 + d.
Proof.
  intros Hh Ht. destruct (h <? t) eqn:E.
  - apply Z.mod_small. blia.
  - symmetry. apply (Z.mod_unique _ _ (-1)); blia.
Qed.

Lemma ring_next_value h :
  0 <= h < STEPPER_RMT_DATA_SIZE ->
  ring_next h = if h + 1 =? STEPPER_RMT_DATA_SIZE then 0 else h + 1.
Proof.
  intros Hh. unfold ring_next. destruct (h + 1 =? STEPPER_RMT_DATA_SIZE) eqn:E.
  - assert (E' : h + 1 = STEPPER_RMT_DATA_SIZE) by blia.
    rewrite E'. apply Z.mod_same. lia.
  - apply Z.mod_small. blia.
Qed.

Lemma free_slots_full p :
  in_ring p ->
  (free_slots p = 0 <-> ring_next (rmt_data_head p) = rmt_data_tail p).
Proof.
  unfold free_slots, in_ring. intros [Hh Ht].
  rewrite free_slots_value, ring_next_value by assumption.
  destruct (rmt_data_head p <? rmt_data_tail p) eqn:E1;
    destruct (rmt_data_head p + 1 =? STEPPER_RMT_DATA_SIZE) eqn:E2; blia.
Qed.

(** A store into the slot after the head takes one free slot. *)
Lemma free_slots_push v p :
  in_ring p -> store_ok p = true ->
  ring_next (rmt_data_head p) <> rmt_data_tail p ->
  free_slots (push_at v (ring_next (rmt_data_head p)) p) = free_slots p - 1.
Proof.
  intros Hp Hok Hfree. destruct Hp as [Hh Ht].
  rewrite push_at_stored by exact Hok.
  assert (Hd : 0 < STEPPER_RMT_DATA_SIZE) by lia.
  pose proof (ring_next_range (rmt_data_head p) Hd) as Hn.
  unfold free_slots. cbn [rmt_data_head rmt_data_tail push_at set_rmt_data_head
                          set_rmt_data].
  rewrite !free_slots_value by assumption.
  rewrite ring_next_value in * by assumption.
  destruct (rmt_data_head p + 1 =? STEPPER_RMT_DATA_SIZE) eqn:E2;
    destruct (rmt_data_head p <? rmt_data_tail p) eqn:E1;
    match goal with |- context [?a <? ?b] => destruct (a <? b) eqn:E3 end;
    blia.
Qed.

(** How the rounds after the first item end: with the step finished, with
    a full buffer and the carry set, or with the ticks used up and the
    carry as it was. *)
Lemma encode_more_progress n : forall t next p next' p',
  0 < STEPPER_RMT_DATA_SIZE -> has_buffer p -> in_ring p ->
  0 <= t < 4294967296 ->
  encode_items n false t next p = Some (next', p') ->
  has_buffer p' /\ in_ring p' /\ rmt_data_tail p' = rmt_data_tail p /\
  free_slots p' <= free_slots p /\
  (rmt_ticks_remain p' = 0 \/
   (0 < rmt_ticks_remain p' /\ next' = ring_next (rmt_data_head p') /\
    next' = rmt_data_tail p') \/
   (rmt_ticks_remain p' = rmt_ticks_remain p /\
    if 0 <? t then free_slots p' < free_slots p /\ next' = rmt_data_head p'
    else p' = p /\ next' = next)).
Proof.
  induction n as [|n IH]; intros t next p next' p' Hd Hb Hp Ht E;
    cbn [encode_items] in E; [discriminate|].
  pose proof (has_buffer_store_ok p Hb Hp) as Hok.
  destruct (0 <? t) eqn:Hpos.
  2:{ injection E as <- <-.
      split; [exact Hb|]. split; [exact Hp|]. split; [reflexivity|].
      split; [lia|]. right. right. auto. }
  destruct (ring_next (rmt_data_head p) =? rmt_data_tail p) eqn:Hfull;
    cbn [negb] in E.
  { injection E as <- <-.
    split; [exact Hb|]. split; [exact Hp|]. split; [reflexivity|].
    split; [cbn; unfold free_slots; cbn; lia|].
    right. left. cbn. repeat split; blia. }
  assert (Hfree : ring_next (rmt_data_head p) <> rmt_data_tail p) by blia.
  pose proof (ring_next_range (rmt_data_head p) Hd) as Hnext.
  change (Z.shiftl 32767 1) with 65534 in E.
  destruct (t <? 65534) eqn:Hlt.
  - destruct n as [|n]; [discriminate E|].
    cbn [encode_items] in E. change (0 <? 0) with false in E. cbv iota in E.
    injection E as <- <-.
    set (v := mk_item 0 (field 15 (Z.shiftr t 1)) 0
                (u32 (t - field 15 (Z.shiftr t 1)))).
    pose proof (free_slots_push v (set_rmt_ticks_remain 0 p) Hp Hok Hfree)
      as Hf.
    change (free_slots (set_rmt_ticks_remain 0 p)) with (free_slots p) in Hf.
    split; [apply (push_at_buffer v _ (set_rmt_ticks_remain 0 p) Hb Hp)|].
    split; [apply (push_at_ring v _ (set_rmt_ticks_remain 0 p) Hp Hnext)|].
    split; [reflexivity|].
    split; [change (rmt_data_head (set_rmt_ticks_remain 0 p))
              with (rmt_data_head p) in Hf; lia|].
    left. reflexivity.
  - assert (Hge : 65534 <= t) by blia.
    assert (E' : u32 (u32 (t - 32767) - 32767) = t - 65534).
    { rewrite (u32_id (t - 32767)) by lia. rewrite u32_id by lia. lia. }
    rewrite E' in E.
    pose proof (free_slots_push (mk_item 0 32767 0 32767) p Hp Hok Hfree) as Hf.
    set (p1 := push_at (mk_item 0 32767 0 32767)
                 (ring_next (rmt_data_head p)) p) in *.
    assert (Hp1 : in_ring p1) by (apply push_at_ring; assumption).
    assert (Hb1 : has_buffer p1) by (apply push_at_buffer; assumption).
    apply IH in E; try assumption; [|lia].
    destruct E as (I0 & I1 & I2 & I3 & I4).
    change (rmt_data_tail p1) with (rmt_data_tail p) in *.
    change (rmt_ticks_remain p1) with (rmt_ticks_remain p) in *.
    split; [exact I0|].
    split; [exact I1|]. split; [exact I2|]. split; [lia|].
    destruct I4 as [I4|[I4|[I4 I5]]]; [left; assumption|right; left; assumption|].
    right. right. split; [assumption|].
    destruct (0 <? t - 65534).
    + destruct I5 as [I5 I6]. split; [lia|assumption].
    + destruct I5 as [-> ->]. split; [lia|].
      subst p1. rewrite push_at_stored by exact Hok. reflexivity.
Qed.

(** The same for a round that begins with the first item. *)
Lemma encode_first_progress n t next p next' p' :
  0 < STEPPER_RMT_DATA_SIZE -> 1 <= STEPPER_PULSE_TICKS <= 32767 ->
  has_buffer p -> in_ring p -> 0 < t < 4294967296 ->
  next <> rmt_data_tail p ->
  (next = ring_next (rmt_data_head p) \/ next = rmt_data_head p) ->
  encode_items n true t next p = Some (next', p') ->
  has_buffer p' /\ in_ring p' /\ rmt_data_tail p' = rmt_data_tail p /\
  free_slots p' <= free_slots p /\
  (rmt_ticks_remain p' = 0 \/
   (0 < rmt_ticks_remain p' /\ next' = ring_next (rmt_data_head p') /\
    next' = rmt_data_tail p') \/
   (rmt_ticks_remain p' = rmt_ticks_remain p /\
    free_slots p' < free_slots p /\ next' = rmt_data_head p')).
Proof.
  intros Hd Hpulse Hb Hp Ht Hnt Hnext E.
  destruct n as [|n]; cbn [encode_items] in E; [discriminate|].
  destruct (0 <? t) eqn:Hpos; [|blia].
  pose proof (has_buffer_store_ok p Hb Hp) as Hok.
  assert (Hn : 0 <= next < STEPPER_RMT_DATA_SIZE).
  { pose proof (ring_next_range (rmt_data_head p) Hd) as Hr.
    destruct Hp as [Hh Htl]. destruct Hnext as [->| ->]; lia. }
  assert (Hpush : forall v q,
            has_buffer q -> in_ring q -> free_slots q = free_slots p ->
            rmt_data_head q = rmt_data_head p ->
            rmt_data_tail q = rmt_data_tail p ->
            has_buffer (push_at v next q) /\ in_ring (push_at v next q) /\
            free_slots (push_at v next q) <= free_slots p).
  { intros v q Hbq Hq Ef Eh Et.
    split; [apply push_at_buffer; assumption|].
    split; [apply push_at_ring; assumption|].
    pose proof (has_buffer_store_ok q Hbq Hq) as Hokq.
    destruct Hnext as [->| ->].
    - rewrite <- Eh. rewrite free_slots_push; [lia|assumption..|].
      rewrite Eh, Et. exact Hnt.
    - rewrite push_at_stored by exact Hokq.
      unfold free_slots. cbn. rewrite Et. lia. }
  destruct (u32 (t - STEPPER_PULSE_TICKS) <? 32767) eqn:Hshort.
  - destruct n as [|n]; [discriminate E|].
    cbn [encode_items] in E. change (0 <? 0) with false in E. cbv iota in E.
    injection E as <- <-.
    destruct (Hpush (mk_item 1 STEPPER_PULSE_TICKS 0
                       (u32 (t - STEPPER_PULSE_TICKS)))
                (set_rmt_ticks_remain 0 p) Hb Hp eq_refl eq_refl eq_refl)
      as (H0 & H1 & H2).
    split; [exact H0|].
    split; [exact H1|]. split; [reflexivity|]. split; [exact H2|].
    left. reflexivity.
  - destruct (Hpush (mk_item 1 STEPPER_PULSE_TICKS 0 32767) p Hb Hp
                eq_refl eq_refl eq_refl) as (H0 & H1 & H2).
    assert (Hrest : 0 < u32 (t - 32767) < 4294967296).
    { pose proof (u32_range (t - 32767)) as Hu.
      assert (u32 (t - 32767) <> 0); [|lia].
      intros Hz. unfold u32 in *. change (2 ^ 32) with 4294967296 in *.
      assert (t = 32767) by lia. subst t.
      rewrite Z.mod_small in Hshort by lia. blia. }
    apply encode_more_progress in E; try assumption; [|lia].
    destruct E as (I0 & I1 & I2 & I3 & I4).
    destruct (0 <? u32 (t - 32767)) eqn:Hp2; [|blia].
    split; [exact I0|].
    split; [exact I1|]. split; [exact I2|]. split; [lia|].
    destruct I4 as [I4|[I4|(I4 & I5 & I6)]];
      [left; assumption|right; left; assumption|].
    right. right. repeat split; [exact I4|lia|exact I6].
Qed.

Lemma encode_items_no_ticks n first next p r :
  encode_items n first 0 next p = Some r -> r = (next, p).
Proof.
  destruct n as [|n]; cbn [encode_items]; [discriminate|].
  change (0 <? 0) with false. cbv iota. intros [= <-]. reflexivity.
Qed.

Lemma rounds_left_bounds next q :
  steps q * (2 * STEPPER_RMT_DATA_SIZE) + 2 * free_slots q
  <= rounds_left next q
  <= steps q * (2 * STEPPER_RMT_DATA_SIZE) + 2 * free_slots q + 1.
Proof. unfold rounds_left. destruct (next =? rmt_data_tail q); lia. Qed.

(** A round of the loop over the steps brings its end nearer. *)
Lemma step_body_progress next p :
  0 < STEPPER_RMT_DATA_SIZE -> 1 <= STEPPER_PULSE_TICKS <= 32767 ->
  has_buffer p -> in_ring p -> typed p = true -> 0 < steps p ->
  next <> rmt_data_tail p ->
  (next = ring_next (rmt_data_head p) \/ next = rmt_data_head p) ->
  has_buffer (snd (step_body next p)) /\
  in_ring (snd (step_body next p)) /\
  typed (snd (step_body next p)) = true /\
  rmt_data_tail (snd (step_body next p)) = rmt_data_tail p /\
  (fst (step_body next p) = ring_next (rmt_data_head (snd (step_body next p))) \/
   fst (step_body next p) = rmt_data_head (snd (step_body next p))) /\
  0 <= rounds_left (fst (step_body next p)) (snd (step_body next p))
    < rounds_left next p.
Proof.
  intros Hd Hpulse Hb Hp Hty Hpos Hnt Hnext.
  destruct (step_body_account next p Hpos Hty) as [Hty' _].
  assert (Hring : in_ring (snd (step_body next p))).
  { apply (step_body_ring next p Hd Hp).
    pose proof (ring_next_range (rmt_data_head p) Hd).
    destruct Hp. destruct Hnext as [->| ->]; lia. }
  cut (has_buffer (snd (step_body next p)) /\
       rmt_data_tail (snd (step_body next p)) = rmt_data_tail p /\
       (fst (step_body next p)
        = ring_next (rmt_data_head (snd (step_body next p))) \/
        fst (step_body next p) = rmt_data_head (snd (step_body next p))) /\
       0 <= rounds_left (fst (step_body next p)) (snd (step_body next p))
         < rounds_left next p).
  { intros (C0 & C1 & C2 & C3).
    split; [exact C0|]. split; [exact Hring|]. split; [exact Hty'|].
    split; [exact C1|]. split; [exact C2|exact C3]. }
  clear Hring. revert Hty'. apply typed_spec in Hty. destruct Hty as [Hs Hr].
  pose proof (free_slots_range p Hd) as Hfp.
  assert (Hold : rounds_left next p
                 = steps p * (2 * STEPPER_RMT_DATA_SIZE) + 2 * free_slots p + 1).
  { unfold rounds_left. destruct (next =? rmt_data_tail p) eqn:E; [blia|lia]. }
  rewrite Hold. clear Hold.
  unfold step_body.
  set (start := if rmt_ticks_remain p =? 0 then _ else _).
  assert (Hstart :
    0 <= fst start < 4294967296 /\
    (rmt_ticks_remain p <> 0 -> 0 < fst start) /\
    steps (snd start) = steps p /\
    rmt_ticks_remain (snd start) = rmt_ticks_remain p /\
    rmt_data_head (snd start) = rmt_data_head p /\
    rmt_data_tail (snd start) = rmt_data_tail p /\
    has_buffer (snd start)).
  { subst start. destruct (rmt_ticks_remain p =? 0) eqn:Ez.
    - unfold call_motion_next. destruct (motion_next (motion p)) as [t m].
      cbn [fst snd]. pose proof (u32_range (step_ticks t)).
      repeat split; try apply Hb; cbn; try lia; intros; blia.
    - cbn [fst snd]. repeat split; try apply Hb; lia. }
  destruct start as [ticks p1]. cbn [fst snd] in Hstart.
  destruct Hstart as (Ht & Hres & E1 & E2 & E3 & E4 & Hb1).
  assert (Hp1 : in_ring p1) by (destruct Hp; split; lia).
  assert (Hf1 : free_slots p1 = free_slots p)
    by (unfold free_slots; rewrite E3, E4; reflexivity).
  destruct (encode_items_total ticks next p1 Ht) as [[next1 p2] E].
  rewrite E.
  pose proof (encode_items_frame _ _ _ _ _ _ _ E) as (F1 & _ & _ & F4).
  specialize (F4 Ht). rewrite E2 in F4. specialize (F4 Hr).
  assert (Hout :
    has_buffer p2 /\
    in_ring p2 /\ rmt_data_tail p2 = rmt_data_tail p /\
    free_slots p2 <= free_slots p /\
    (rmt_ticks_remain p2 = 0 \/
     (0 < rmt_ticks_remain p2 /\ next1 = ring_next (rmt_data_head p2) /\
      next1 = rmt_data_tail p2) \/
     (0 < rmt_ticks_remain p2 /\
      free_slots p2 < free_slots p /\ next1 = rmt_data_head p2))).
  { destruct (Z.eq_dec ticks 0) as [->|Hne].
    - apply encode_items_no_ticks in E. injection E as <- <-.
      split; [exact Hb1|].
      split; [exact Hp1|]. split; [exact E4|]. split; [lia|].
      left. destruct (Z.eq_dec (rmt_ticks_remain p) 0); [lia|].
      specialize (Hres ltac:(assumption)). lia.
    - apply encode_first_progress in E; try assumption; try lia;
        [|rewrite E3; assumption].
      destruct E as (I0 & I1 & I2 & I3 & I4).
      split; [exact I0|].
      split; [exact I1|]. split; [lia|]. split; [lia|].
      destruct I4 as [I4|[I4|(I4 & I5 & I6)]];
        [left; assumption|right; left; assumption|].
      destruct (Z.eq_dec (rmt_ticks_remain p2) 0) as [Ez|Ez];
        [left; assumption|].
      right. right. repeat split; [lia|lia|exact I6]. }
  destruct Hout as (O0 & O1 & O2 & O3 & O4).
  pose proof (free_slots_range p2 Hd) as Hfp2.
  destruct (0 <? rmt_ticks_remain p2) eqn:Hrem; cbn [fst snd].
  - intros _. split; [exact O0|]. split; [exact O2|].
    destruct O4 as [O4|[(O4 & O5 & O6)|(O4 & O5 & O6)]]; [blia| |].
    + split; [left; exact O5|]. unfold rounds_left.
      rewrite O6, Z.eqb_refl, F1, E1. nia.
    + split; [right; exact O6|].
      pose proof (rounds_left_bounds next1 p2) as Hbd.
      rewrite F1, E1 in Hbd. nia.
  - assert (Hdec : u32 (steps p2 - 1) = steps p - 1) by (rewrite u32_id; lia).
    cbn [steps set_steps]. rewrite Hdec.
    change (rmt_data_head (set_steps (steps p - 1) p2)) with (rmt_data_head p2).
    change (rmt_data_tail (set_steps (steps p - 1) p2)) with (rmt_data_tail p2).
    set (p3 := set_steps (steps p - 1) p2).
    assert (S3 : steps p3 = steps p - 1) by reflexivity.
    assert (T3 : free_slots p3 = free_slots p2) by reflexivity.
    pose proof (ring_next_range (rmt_data_head p2) Hd) as Hn2.
    destruct (steps p - 1 =? 0) eqn:Hlast.
    + destruct (ring_next (rmt_data_head p2) =? rmt_data_tail p2) eqn:Hfull;
        cbn [negb fst snd]; intros _.
      * split; [exact O0|]. split; [exact O2|]. split; [left; reflexivity|].
        pose proof (rounds_left_bounds (ring_next (rmt_data_head p2)) p3) as Hbd.
        rewrite S3, T3 in Hbd. nia.
      * assert (Hfree : ring_next (rmt_data_head p2) <> rmt_data_tail p2) by blia.
        pose proof (has_buffer_store_ok p2 O0 O1) as Hok2.
        pose proof (free_slots_push 0 p3 O1 Hok2 Hfree) as Hf.
        set (p4 := push_at 0 (ring_next (rmt_data_head p2)) p3) in *.
        assert (H4 : rmt_data_head p4 = ring_next (rmt_data_head p2)).
        { subst p4. rewrite push_at_stored by exact Hok2. reflexivity. }
        split; [apply (push_at_buffer 0 _ p3 O0 O1)|].
        split; [exact O2|]. split; [right; symmetry; exact H4|].
        assert (S4 : steps p4 = steps p - 1) by reflexivity.
        assert (T4 : free_slots p4 = free_slots p2 - 1) by exact Hf.
        pose proof (rounds_left_bounds (ring_next (rmt_data_head p2)) p4) as Hbd.
        pose proof (free_slots_range p4 Hd).
        rewrite S4, T4 in Hbd. nia.
    + cbn [fst snd]. intros _.
      split; [exact O0|]. split; [exact O2|]. split; [left; reflexivity|].
      pose proof (rounds_left_bounds (ring_next (rmt_data_head p2)) p3) as Hbd.
      rewrite S3, T3 in Hbd. nia.
Qed.

(** ** The task finishes what it was asked *)

Lemma task_run_add a b c : task_run (a + b) c = task_run b (task_run a c).
Proof. revert c. induction a as [|a IH]; intros c; [reflexivity|apply IH]. Qed.

Lemma start_copy_stray n : forall stepper_num idx p h,
  stray_store (fst (start_copy n stepper_num idx p h)) = stray_store p.
Proof.
  induction n as [|n IH]; intros stepper_num idx p h; cbn [start_copy];
    [reflexivity|].
  rewrite IH. reflexivity.
Qed.

(** A loop test of the task leaves every buffer in its place: a round
    with a stray store is not kept. *)
Lemma task_step_buffers c :
  Forall2 (fun p p' => has_buffer p -> has_buffer p')
    (stepper (snd c)) (stepper (snd (task_step c))).
Proof.
  assert (Hrefl : forall l : list stepper_t,
            Forall2 (fun p p' => has_buffer p -> has_buffer p') l l)
    by (intros l; apply related_refl; auto).
  destruct c as [pc st]. unfold task_step.
  destruct pc as [|cfm cm n|cfm cm n next|cfm cm n|]; cbn [snd].
  - destruct (acceleration_queue st) as [[|m q]|]; cbn; apply Hrefl.
  - destruct (cm =? 0); [apply Hrefl|].
    destruct (tst cm 1); [|apply Hrefl].
    destruct (stepper st !! Z.to_nat n) as [p|] eqn:Hp; [|apply Hrefl].
    destruct (_ && _); cbv zeta; [|apply Hrefl].
    destruct (stray_store _) eqn:Hs; [apply Hrefl|]. cbn [snd put_stepper].
    apply (related_insert _ _ _ p); [auto|exact Hp|].
    intros [Hlen _]. split; [rewrite push_at_length; exact Hlen|exact Hs].
  - destruct (stepper st !! Z.to_nat n) as [p|] eqn:Hp; [|apply Hrefl].
    destruct (_ && _); [|apply Hrefl].
    pose proof (step_body_consumer next p) as (_ & _ & _ & _ & _ & _ & _ & _ & El).
    destruct (step_body next p) as [next1 p1]. cbn [snd] in El.
    destruct (stray_store p1) eqn:Hs; [apply Hrefl|]. cbn [snd put_stepper].
    apply (related_insert _ _ _ p); [auto|exact Hp|].
    intros [Hlen _]. split; [rewrite El; exact Hlen|exact Hs].
  - destruct (cm =? 0); [apply Hrefl|].
    destruct (tst cm 1); [|apply Hrefl].
    destruct (stepper st !! Z.to_nat n) as [p|] eqn:Hp; [|apply Hrefl].
    destruct (_ && _); [|apply Hrefl].
    pose proof (start_copy_producer (Z.to_nat STEPPER_RMT_BUFF_SIZE) n 0 p (hw st))
      as (_ & Ed & _).
    pose proof (start_copy_stray (Z.to_nat STEPPER_RMT_BUFF_SIZE) n 0 p (hw st))
      as Es.
    destruct (start_copy _ _ _ _ _) as [p1 h1]. cbn [fst] in Ed, Es.
    cbn [snd put_stepper set_hw stepper set_stepper].
    apply (related_insert _ _ _ p); [auto|exact Hp|].
    intros [Hlen Hs]. split; cbn; [rewrite Ed; exact Hlen|rewrite Es; exact Hs].
  - apply Hrefl.
Qed.

Lemma task_step_buffers_of m c :
  buffers_of m (snd c) -> buffers_of m (snd (task_step c)).
Proof.
  intros Hb i p' Hi Hbit Hp'.
  destruct (Forall2_lookup_r _ _ _ _ _ (task_step_buffers c) Hp')
    as (p & Hp & Hpp').
  apply Hpp'. exact (Hb i p Hi Hbit Hp).
Qed.

(** What the task needs of a state to serve the mask [m] is kept by its
    loop tests. *)
Lemma task_run_ready m k : forall c,
  0 < STEPPER_RMT_DATA_SIZE ->
  well_formed c -> buffers_of m (snd c) ->
  well_formed (task_run k c) /\ buffers_of m (snd (task_run k c)).
Proof.
  induction k as [|k IH]; intros c Hd Hc Hb; [split; assumption|].
  cbn [task_run]. apply IH; [exact Hd| |].
  - apply (sys_step_well_formed TaskTest c Hd Hc).
  - apply task_step_buffers_of. exact Hb.
Qed.

Lemma leads_here pc st : leads (pc, st) pc.
Proof. exists 0%nat. split; reflexivity. Qed.

Lemma leads_step c pc' :
  acceleration_queue (snd (task_step c)) = acceleration_queue (snd c) ->
  leads (task_step c) pc' -> leads c pc'.
Proof.
  intros Hq (k & E1 & E2). exists (S k). cbn [task_run].
  split; [exact E1|]. rewrite E2. exact Hq.
Qed.

Lemma leads_trans m c pc1 pc2 :
  0 < STEPPER_RMT_DATA_SIZE -> well_formed c -> buffers_of m (snd c) ->
  leads c pc1 ->
  (forall st1, well_formed (pc1, st1) -> buffers_of m st1 ->
     leads (pc1, st1) pc2) ->
  leads c pc2.
Proof.
  intros Hd Hc Hb (k1 & E1 & E2) Hnext.
  pose proof (task_run_ready m k1 c Hd Hc Hb) as [Hc1 Hb1].
  destruct (task_run k1 c) as [pc st1] eqn:E. cbn [fst snd] in *. subst pc.
  destruct (Hnext st1 Hc1 Hb1) as (k2 & F1 & F2).
  exists (k1 + k2)%nat. rewrite task_run_add, E.
  split; [exact F1|]. rewrite F2. exact E2.
Qed.

Lemma well_formed_lookup pc st i p :
  well_formed (pc, st) -> stepper st !! i = Some p ->
  typed p = true /\ in_ring p.
Proof.
  intros (_ & (Hr & _) & Hall) Hi. cbn [fst snd] in *.
  pose proof (Forall_lookup_1 _ _ _ _ Hall Hi) as [Ht _].
  pose proof (Forall_lookup_1 _ _ _ _ Hr Hi) as Hin.
  split; assumption.
Qed.

Lemma rounds_left_ge0 next p :
  0 < STEPPER_RMT_DATA_SIZE -> typed p = true -> 0 <= rounds_left next p.
Proof.
  intros Hd Ht. apply typed_spec in Ht. destruct Ht as [Hs _].
  pose proof (rounds_left_bounds next p). pose proof (free_slots_range p Hd).
  nia.
Qed.

(** The loop over the steps of a channel that has its buffer ends. *)
Lemma steps_loop_ends m : forall cfm cm n next st p,
  0 < STEPPER_RMT_DATA_SIZE -> 1 <= STEPPER_PULSE_TICKS <= 32767 ->
  well_formed (Steps cfm cm n next, st) ->
  stepper st !! Z.to_nat n = Some p -> has_buffer p ->
  (next = ring_next (rmt_data_head p) \/ next = rmt_data_head p) ->
  rounds_left next p < Z.of_nat m ->
  leads (Steps cfm cm n next, st) (Fill cfm (Z.shiftr cm 1) (u8 (n + 1))).
Proof.
  induction m as [|m IH];
    intros cfm cm n next st p Hd Hpulse Hwf Hp Hb Hnext Hm.
  - destruct (well_formed_lookup _ _ _ _ Hwf Hp) as [Ht _].
    pose proof (rounds_left_ge0 next p Hd Ht). lia.
  - destruct (well_formed_lookup _ _ _ _ Hwf Hp) as [Ht Hin].
    pose proof (sys_step_well_formed TaskTest _ Hd Hwf) as Hwf'.
    cbn [sys_step] in Hwf'. revert Hwf'.
    assert (Hlt : (Z.to_nat n < length (stepper st))%nat)
      by (apply lookup_lt_is_Some; eauto).
    destruct ((0 <? steps p) && negb (next =? rmt_data_tail p)) eqn:Hc.
    + apply andb_prop in Hc as [Hc1 Hc2]. apply negb_true_iff in Hc2.
      assert (Hpos : 0 < steps p) by blia.
      assert (Hnt : next <> rmt_data_tail p) by blia.
      pose proof (step_body_progress next p Hd Hpulse Hb Hin Ht Hpos Hnt Hnext)
        as (P0 & _ & _ & _ & P4 & P5).
      assert (Es : task_step (Steps cfm cm n next, st)
                   = (Steps cfm cm n (fst (step_body next p)),
                      put_stepper n (snd (step_body next p)) st)).
      { cbn [task_step]. rewrite Hp, Hc1. cbn [andb].
        replace (next =? rmt_data_tail p) with false. cbn [negb].
        destruct P0 as [_ P0]. revert P0.
        destruct (step_body next p) as [next1 p1]. cbn [fst snd].
        intros ->. reflexivity. }
      intros Hwf'. rewrite Es in Hwf'.
      apply leads_step; rewrite Es; [reflexivity|].
      apply (IH _ _ _ _ _ (snd (step_body next p))); try assumption.
      * cbn. apply list_lookup_insert_eq. exact Hlt.
      * lia.
    + intros _. apply leads_step.
      * cbn [task_step]. rewrite Hp, Hc. reflexivity.
      * cbn [task_step]. rewrite Hp, Hc. apply leads_here.
Qed.

(** So does the handling of one channel in the first loop over the mask:
    the end markers that fill the buffer of an idle channel, then the loop
    over its steps. *)
Lemma channel_fill_ends m : forall cfm cm n st p,
  0 < STEPPER_RMT_DATA_SIZE -> 1 <= STEPPER_PULSE_TICKS <= 32767 ->
  well_formed (Fill cfm cm n, st) ->
  (cm =? 0) = false -> tst cm 1 = true ->
  stepper st !! Z.to_nat n = Some p -> has_buffer p ->
  free_slots p < Z.of_nat m ->
  leads (Fill cfm cm n, st) (Fill cfm (Z.shiftr cm 1) (u8 (n + 1))).
Proof.
  induction m as [|m IH];
    intros cfm cm n st p Hd Hpulse Hwf Hcm Hbit Hp Hb Hm.
  - pose proof (free_slots_range p Hd). lia.
  - destruct (well_formed_lookup _ _ _ _ Hwf Hp) as [Ht Hin].
    pose proof (sys_step_well_formed TaskTest _ Hd Hwf) as Hwf'.
    cbn [sys_step] in Hwf'. revert Hwf'.
    assert (Hlt : (Z.to_nat n < length (stepper st))%nat)
      by (apply lookup_lt_is_Some; eauto).
    pose proof (has_buffer_store_ok p Hb Hin) as Hok.
    destruct ((steps p =? 0)
              && negb (ring_next (rmt_data_head p) =? rmt_data_tail p)) eqn:Hc.
    + pose proof (push_at_buffer 0 (ring_next (rmt_data_head p)) p Hb Hin)
        as Hb'.
      assert (Es : task_step (Fill cfm cm n, st)
                   = (Fill cfm cm n,
                      put_stepper n
                        (push_at 0 (ring_next (rmt_data_head p)) p) st)).
      { cbn [task_step]. rewrite Hcm, Hbit, Hp, Hc. cbv zeta.
        destruct Hb' as [_ ->]. reflexivity. }
      apply andb_prop in Hc as [Hc1 Hc2]. apply negb_true_iff in Hc2.
      assert (Hfree : ring_next (rmt_data_head p) <> rmt_data_tail p) by blia.
      pose proof (free_slots_push 0 p Hin Hok Hfree) as Hf.
      intros Hwf'. rewrite Es in Hwf'.
      apply leads_step; rewrite Es; [reflexivity|].
      apply (IH _ _ _ _ (push_at 0 (ring_next (rmt_data_head p)) p));
        try assumption.
      * cbn. apply list_lookup_insert_eq. exact Hlt.
      * lia.
    + assert (Es : task_step (Fill cfm cm n, st)
                   = (Steps cfm cm n (ring_next (rmt_data_head p)), st)).
      { cbn [task_step]. rewrite Hcm, Hbit, Hp, Hc. reflexivity. }
      intros Hwf'. rewrite Es in Hwf'.
      apply leads_step; rewrite Es; [reflexivity|].
      apply (steps_loop_ends
               (S (Z.to_nat (rounds_left (ring_next (rmt_data_head p)) p)))
               _ _ _ _ _ p); try assumption; [left; reflexivity|].
      pose proof (rounds_left_ge0 (ring_next (rmt_data_head p)) p Hd Ht). lia.
Qed.

Lemma shiftr_1_bound cm b :
  0 <= cm < 2 ^ Z.of_nat (S b) -> 0 <= Z.shiftr cm 1 < 2 ^ Z.of_nat b.
Proof.
  intros Hcm. rewrite Z.shiftr_div_pow2 by lia. change (2 ^ 1) with 2.
  rewrite Nat2Z.inj_succ, Z.pow_succ_r in Hcm by lia. lia.
Qed.

(** [cycle_mask & 0x01] is bit 0 of the mask. *)
Lemma tst_1 cm : tst cm 1 = Z.testbit cm 0.
Proof.
  unfold tst. rewrite land_1, <- Z.bit0_mod.
  destruct (Z.testbit cm 0); reflexivity.
Qed.

(** The first loop over the mask ends: [cycle_mask] is what is left of
    [cycle_for_mask] after [stepper_num] shifts. *)
Lemma fill_loop_ends b : forall cfm cm n st,
  0 < STEPPER_RMT_DATA_SIZE -> 1 <= STEPPER_PULSE_TICKS <= 32767 ->
  NSTEP <= 255 -> 0 <= n -> 0 <= cm < 2 ^ Z.of_nat b ->
  n + Z.of_nat b <= NSTEP -> cm = Z.shiftr cfm n ->
  well_formed (Fill cfm cm n, st) -> buffers_of cfm st ->
  leads (Fill cfm cm n, st) (Start cfm cfm 0).
Proof.
  induction b as [|b IH];
    intros cfm cm n st Hd Hpulse Hn8 Hn Hcm Hb Hsh Hwf Hbuf.
  - assert (cm = 0) by (change (2 ^ Z.of_nat 0) with 1 in Hcm; lia).
    apply leads_step; cbn [task_step];
      replace (cm =? 0) with true by (symmetry; blia);
      [reflexivity|apply leads_here].
  - destruct (cm =? 0) eqn:Hz.
    { apply leads_step; cbn [task_step]; rewrite Hz;
        [reflexivity|apply leads_here]. }
    assert (Hu : u8 (n + 1) = n + 1)
      by (unfold u8; change (2 ^ 8) with 256; apply Z.mod_small; lia).
    pose proof (shiftr_1_bound cm b Hcm) as Hsh1.
    assert (Hsh' : Z.shiftr cm 1 = Z.shiftr cfm (n + 1))
      by (rewrite Hsh; apply Z.shiftr_shiftr; lia).
    assert (Hrest : forall st1,
              well_formed (Fill cfm (Z.shiftr cm 1) (u8 (n + 1)), st1) ->
              buffers_of cfm st1 ->
              leads (Fill cfm (Z.shiftr cm 1) (u8 (n + 1)), st1)
                    (Start cfm cfm 0)).
    { intros st1 Hwf1 Hbuf1. rewrite Hu in *.
      apply IH; try assumption; lia. }
    destruct (tst cm 1) eqn:Hbit.
    + destruct (lookup_lt_is_Some_2 (stepper st) (Z.to_nat n)) as [p Hp].
      { destruct Hwf as (Hlen & _). cbn [snd] in Hlen. rewrite Hlen. lia. }
      assert (Hbp : has_buffer p).
      { apply (Hbuf n p Hn); [|exact Hp].
        rewrite tst_1, Hsh, Z.shiftr_spec in Hbit by lia. exact Hbit. }
      apply (leads_trans cfm _ (Fill cfm (Z.shiftr cm 1) (u8 (n + 1))));
        try assumption.
      apply (channel_fill_ends (S (Z.to_nat (free_slots p))) _ _ _ _ p);
        try assumption.
      pose proof (free_slots_range p Hd). lia.
    + assert (Es : task_step (Fill cfm cm n, st)
                   = (Fill cfm (Z.shiftr cm 1) (u8 (n + 1)), st)).
      { cbn [task_step]. rewrite Hz, Hbit. reflexivity. }
      apply leads_step; rewrite Es; [reflexivity|].
      apply Hrest; [|exact Hbuf]. apply (well_formed_same _ st st eq_refl).
      destruct Hwf as (W1 & (W2 & _) & W3). split; [exact W1|].
      split; [split; [exact W2|exact I]|exact W3].
Qed.

(** The second loop over the mask ends, and the task waits again. *)
Lemma start_loop_ends b : forall cfm cm n st,
  0 < STEPPER_RMT_DATA_SIZE ->
  NSTEP <= 255 -> 0 <= n -> 0 <= cm < 2 ^ Z.of_nat b ->
  n + Z.of_nat b <= NSTEP ->
  well_formed (Start cfm cm n, st) ->
  leads (Start cfm cm n, st) Waiting.
Proof.
  induction b as [|b IH]; intros cfm cm n st Hd Hn8 Hn Hcm Hb Hwf.
  - assert (cm = 0) by (change (2 ^ Z.of_nat 0) with 1 in Hcm; lia). subst cm.
    apply leads_step; cbn [task_step]; change (0 =? 0) with true; cbv iota;
      [reflexivity|apply leads_here].
  - destruct (cm =? 0) eqn:Hz.
    { apply leads_step; cbn [task_step]; rewrite Hz;
        [reflexivity|apply leads_here]. }
    assert (Hu : u8 (n + 1) = n + 1)
      by (unfold u8; change (2 ^ 8) with 256; apply Z.mod_small; lia).
    pose proof (shiftr_1_bound cm b Hcm) as Hsh.
    pose proof (sys_step_well_formed TaskTest _ Hd Hwf) as Hwf'.
    cbn [sys_step] in Hwf'.
    destruct (lookup_lt_is_Some_2 (stepper st) (Z.to_nat n)) as [p Hp].
    { destruct Hwf as (Hlen & _). cbn [snd] in Hlen. rewrite Hlen. lia. }
    assert (Es : exists st1,
              task_step (Start cfm cm n, st)
              = (Start cfm (Z.shiftr cm 1) (u8 (n + 1)), st1) /\
              acceleration_queue st1 = acceleration_queue st).
    { cbn [task_step]. rewrite Hz, Hp.
      destruct (tst cm 1); [|eauto].
      destruct (rmt_start p && negb (rmt_started p)); [|eauto].
      destruct (start_copy _ _ _ _ _) as [p1 h1]. eauto. }
    destruct Es as (st1 & Es & Eq). rewrite Es in Hwf'.
    apply leads_step; rewrite Es; [exact Eq|].
    rewrite Hu in *. apply IH; try assumption; lia.
Qed.

(** X21. The task, left to run, finishes every request for channels that
    have their buffers.  Woken by a mask that names channels of the table
    only, every one of them with the buffer that [stepper_setup] allocates,
    it comes back to its [xQueueReceive] after finitely many loop tests.
    On the way it has not indexed [stepper] outside of the table and has
    made no store where no buffer slot is, which would have left it in
    [Fault]; and it has taken that one mask from the queue and no other.
    The pulse is between 1 and 32767 ticks wide and the channel number
    fits the [uint8_t] that counts it. *)
Theorem task_serves_a_request m q st :
  0 < STEPPER_RMT_DATA_SIZE -> 1 <= STEPPER_PULSE_TICKS <= 32767 ->
  NSTEP <= 255 -> 0 <= m < 2 ^ NSTEP ->
  well_formed (Waiting, st) -> buffers_of m st ->
  acceleration_queue st = Some (m :: q) ->
  exists k,
    fst (task_run (S k) (Waiting, st)) = Waiting /\
    acceleration_queue (snd (task_run (S k) (Waiting, st))) = Some q.
Proof.
  intros Hd Hpulse Hn8 Hm Hwf Hbuf Hq.
  assert (Hn0 : 0 <= NSTEP).
  { destruct (Z.lt_ge_cases NSTEP 0) as [Hneg|]; [|assumption].
    rewrite Z.pow_neg_r in Hm by assumption. lia. }
  assert (Es : task_step (Waiting, st) = (Fill m m 0, set_queue (Some q) st))
    by (cbn [task_step]; rewrite Hq; reflexivity).
  pose proof (sys_step_well_formed TaskTest _ Hd Hwf) as Hwf'.
  cbn [sys_step] in Hwf'. rewrite Es in Hwf'.
  assert (Hbits : 0 <= m < 2 ^ Z.of_nat (Z.to_nat NSTEP))
    by (rewrite Z2Nat.id by assumption; exact Hm).
  assert (L : leads (Fill m m 0, set_queue (Some q) st) Waiting).
  { apply (leads_trans m _ (Start m m 0)); try assumption.
    - apply (fill_loop_ends (Z.to_nat NSTEP)); try assumption; try lia.
      symmetry. apply Z.shiftr_0_r.
    - intros st1 Hwf1 _.
      apply (start_loop_ends (Z.to_nat NSTEP)); try assumption; lia. }
  destruct L as (k & L1 & L2). exists k.
  cbn [task_run]. rewrite Es. split; [exact L1|]. rewrite L2. reflexivity.
Qed.

(** X22. A request that names a channel without a buffer stops the task.
    On a channel whose [rmt_data] is NULL, as it is on every channel that
    [stepper_setup] has not configured, with no steps to take and the slot
    after the head free, the first loop over the mask stores the end
    marker through the NULL pointer (line 180): the task is in [Fault]. *)
Theorem request_for_channel_without_buffer cfm cm n st p :
  cm <> 0 -> tst cm 1 = true ->
  stepper st !! Z.to_nat n = Some p ->
  rmt_data p = [] -> steps p = 0 ->
  ring_next (rmt_data_head p) <> rmt_data_tail p ->
  task_step (Fill cfm cm n, st) = (Fault, st).
Proof.
  intros Hcm Hbit Hp Hnull Hs Hfree.
  assert (Hok : store_ok p = false).
  { unfold store_ok. rewrite Hnull. cbn [length].
    destruct (0 <=? rmt_data_head p) eqn:E0;
      destruct (rmt_data_head p <? Z.of_nat 0) eqn:E1;
      try reflexivity. blia. }
  cbn [task_step].
  replace (cm =? 0) with false by (symmetry; blia).
  rewrite Hbit, Hp, Hs.
  replace (ring_next (rmt_data_head p) =? rmt_data_tail p) with false
    by (symmetry; blia).
  cbn [andb negb Z.eqb]. cbv zeta.
  cbn [stray_store push_at]. rewrite Hok. reflexivity.
Qed.

End DriverMore.

(** * The driver on the concrete board *)

Import Board.

(** The eight calls of [stepper_setup] take the slots 0 to 7 in order. *)
Example all8_configured :
  map (fun p => (setup p, step_pin p, dir_pin p)) (stepper all8)
  = [(true, 0, 1); (true, 2, 3); (true, 4, 5); (true, 6, 7);
     (true, 8, 9); (true, 10, 11); (true, 12, 13); (true, 14, 15)].
Proof. vm_compute. reflexivity. Qed.

(** C1, on the code: with channels 0 and 2 active and transmitting,
    [stepper_stop(1 << 2)] halts the transmission of channel 0, which was
    not requested, leaves channel 2 transmitting, and clears bit 2 of
    [start_mask] while bit 0 stays set. *)
Theorem stop_halts_the_wrong_channel :
  start_mask two_running = 5 /\ start_num two_running = 2 /\
  RMT_ch (hw two_running) 0 tx_start = 1 /\
  RMT_ch (hw two_running) 2 tx_start = 1 /\
  let st := stepper_stop 4 two_running in
  RMT_ch (hw st) 0 tx_start = 0 /\
  RMT_ch (hw st) 2 tx_start = 1 /\
  start_mask st = 1 /\ start_num st = 1.
Proof. vm_compute. repeat split; reflexivity. Qed.

(** C2, on the code: with all eight slots configured, a ninth
    [stepper_setup] whose [*unit] holds 0 returns no error and configures
    slot 0 again, with the new pins and an empty buffer. *)
Theorem setup_ninth_call_succeeds :
  forallb setup (stepper all8) = true /\
  let o := stepper_setup env_ok 30 31 0 0 0 1 0 all8 in
  result_of o = Some (None, 0) /\
  map (fun p => (setup p, step_pin p, dir_pin p)) (stepper (state_after all8 o))
  = [(true, 30, 31); (true, 2, 3); (true, 4, 5); (true, 6, 7);
     (true, 8, 9); (true, 10, 11); (true, 12, 13); (true, 14, 15)].
Proof. vm_compute. repeat split; reflexivity. Qed.

(** C3, on the code: one step of 100000 ticks, a pulse of 40 ticks and an
    empty buffer.  The task encodes the step in three items, the first one
    with the pulse, and then the end marker; the durations of the three
    items sum to 100040. *)
Theorem long_step_gains_a_pulse_width :
  let st := moved 0 1 100000 all8 in
  steps (chan 0 (Waiting, st)) = 1 /\
  let p := chan 0 (cycle 7 1 st) in
  fst (cycle 7 1 st) = Waiting /\
  steps p = 0 /\ rmt_ticks p = 100000 /\ rmt_data_head p = 4 /\
  map rmt_of_val (take 4 (rmt_data p))
  = [ {| level0 := 1; duration0 := 40; level1 := 0; duration1 := 32767 |};
      {| level0 := 0; duration0 := 32767; level1 := 0; duration1 := 32767 |};
      {| level0 := 0; duration0 := 849; level1 := 0; duration1 := 850 |};
      {| level0 := 0; duration0 := 0; level1 := 0; duration1 := 0 |} ] /\
  map is_pulse (take 3 (rmt_data p)) = [true; false; false] /\
  items_ticks (take 3 (rmt_data p)) = 100040.
Proof. vm_compute. repeat split; reflexivity. Qed.

(** C4, on the code: channels 0 and 7 both moved forward, so both hold
    direction 1, and both direction pins are low.  [stepper_start(0x81)]
    sets the direction pin of channel 0 and leaves the direction pin of
    channel 7, the highest channel, low. *)
Theorem start_skips_the_highest_channel :
  let st := moved 0 5 2000 (moved 7 5 2000 all8) in
  (dir (chan 0 (Waiting, st)), dir_pin (chan 0 (Waiting, st))) = (1, 1) /\
  (dir (chan 7 (Waiting, st)), dir_pin (chan 7 (Waiting, st))) = (1, 15) /\
  gpio_level (hw st) 1 = false /\ gpio_level (hw st) 15 = false /\
  gpio_level (hw (stepper_start 1 129 st)) 1 = true /\
  gpio_level (hw (stepper_start 1 129 st)) 15 = false.
Proof. vm_compute. repeat split; reflexivity. Qed.

(** C5, on the code: a channel moved by zero steps and an empty buffer of
    256 slots.  One fill-cycle request for it appends 255 end markers: the
    head is at 255 when the task leaves the channel. *)
Theorem one_request_fills_the_buffer_with_end_markers :
  let st := moved 0 0 2000 all8 in
  let p0 := chan 0 (Waiting, st) in
  steps p0 = 0 /\ rmt_data_head p0 = 0 /\ rmt_data_tail p0 = 0 /\
  acceleration_queue (stepper_start 1 1 st) = Some [1] /\
  let c := cycle 258 1 st in
  fst c = Fill 1 0 1 /\
  rmt_data_head (chan 0 c) = 255 /\ rmt_data_tail (chan 0 c) = 0 /\
  next_calls (chan 0 c) = 0%nat.
Proof. vm_compute. repeat split; reflexivity. Qed.

(** C6, on the code: [stepper_move] with unit 8 on the board of eight
    channels does not return [InvalidUnit]; it goes on to [stepper[8]],
    outside of the table. *)
Theorem move_accepts_unit_NSTEP :
  stepper_move NSTEP 1 0 2000 0 0 all8 = OutOfBounds 8.
Proof. vm_compute. reflexivity. Qed.

(** C7, on the code: one step of 2000 ticks.  When the task reaches the
    start of the transmission the buffer holds two items (head 2, tail 0);
    the copy into the playback window reads 64 items: after two rounds the
    buffer is empty (tail = head), the third round reads again, and the
    tail ends at 64, past the head. *)
Theorem start_copy_reads_an_empty_buffer :
  let st := moved 0 1 2000 all8 in
  let c := cycle 5 1 st in
  fst c = Start 1 1 0 /\
  rmt_data_head (chan 0 c) = 2 /\ rmt_data_tail (chan 0 c) = 0 /\
  rmt_data_tail (fst (start_copy 2 0 0 (chan 0 c) (hw (snd c)))) = 2 /\
  rmt_data_tail (fst (start_copy 3 0 0 (chan 0 c) (hw (snd c)))) = 3 /\
  fst (task_step c) = Start 1 0 1 /\
  rmt_data_head (chan 0 (task_step c)) = 2 /\
  rmt_data_tail (chan 0 (task_step c)) = 64.
Proof. vm_compute. repeat split; reflexivity. Qed.

(** The suspended step of [long_move]: step 128 is pending with a carry of
    37233 ticks after the first fill, [motion_next] having been called 128
    times for 127 steps counted down.  The refill resumes it without a
    call and counts it down.  Its items, in slots 254, 255 and 0, hold two
    pulses and 70080 ticks for a step of 70000 ticks. *)
Example suspended_step_resumes_with_a_second_pulse :
  let c1 := sys_run first_fill (Waiting, long_move) in
  let c2 := sys_run refill c1 in
  fst c1 = Waiting /\
  (steps (chan 0 c1), rmt_ticks_remain (chan 0 c1), next_calls (chan 0 c1))
  = (73, 37233, 128%nat) /\
  (rmt_data_head (chan 0 c1), rmt_data_tail (chan 0 c1)) = (255, 64) /\
  (steps (chan 0 c2), rmt_ticks_remain (chan 0 c2), next_calls (chan 0 c2))
  = (72, 0, 128%nat) /\
  map rmt_of_val (drop 254 (rmt_data (chan 0 c2)) ++ take 1 (rmt_data (chan 0 c2)))
  = [ {| level0 := 1; duration0 := 40; level1 := 0; duration1 := 32767 |};
      {| level0 := 1; duration0 := 40; level1 := 0; duration1 := 32767 |};
      {| level0 := 0; duration0 := 2233; level1 := 0; duration1 := 2233 |} ] /\
  map is_pulse (drop 254 (rmt_data (chan 0 c2)) ++ take 1 (rmt_data (chan 0 c2)))
  = [true; true; false] /\
  items_ticks (drop 254 (rmt_data (chan 0 c2)) ++ take 1 (rmt_data (chan 0 c2)))
  = 70080.
Proof. vm_compute. repeat split; reflexivity. Qed.

(** ** The general facts at work *)

Lemma motion_next_once_per_step_witness :
  forallb typed (stepper long_move) = true /\
  (Forall2
     (fun p p' =>
        Z.of_nat (next_calls p') - Z.of_nat (next_calls p)
        = (steps p - steps p') + (pending p' - pending p))
     (stepper long_move)
     (stepper (snd (sys_run (first_fill ++ [Interrupt (BIT 24)]) (Waiting, long_move)))) /\
   Forall
     (fun q => forall next,
        (rmt_ticks_remain q <> 0 ->
         next_calls (snd (step_body next q)) = next_calls q /\
         motion (snd (step_body next q)) = motion q /\
         round_encodes (rmt_ticks_remain q) next q (snd (step_body next q))) /\
        (rmt_ticks_remain q = 0 ->
         next_calls (snd (step_body next q)) = S (next_calls q) /\
         motion (snd (step_body next q)) = snd (motion_next (motion q)) /\
         rmt_ticks (snd (step_body next q))
         = u32 (step_ticks (fst (motion_next (motion q)))) /\
         (0 < u32 (step_ticks (fst (motion_next (motion q)))) ->
          round_encodes (u32 (step_ticks (fst (motion_next (motion q)))))
            next q (snd (step_body next q)))))
     (stepper (snd (sys_run (first_fill ++ [Interrupt (BIT 24)]) (Waiting, long_move))))).
Proof.
  split; [vm_compute; reflexivity|].
  apply (motion_next_once_per_step (first_fill ++ [Interrupt (BIT 24)]) (Waiting, long_move)).
  vm_compute; reflexivity.
Defined.

Lemma stop_count_never_below_zero_witness :
  0 <= start_num two_running < 256 /\
  (0 <= start_num (stepper_stop 4 two_running) <= start_num two_running /\
   0 <= start_num (stepper_stop 4 (stepper_stop 4 two_running))
     <= start_num (stepper_stop 4 two_running)).
Proof.
  assert (Hn : 0 <= start_num two_running < 256)
    by (split; vm_compute; [discriminate|reflexivity]).
  split; [exact Hn|].
  exact (stop_count_never_below_zero 4 4 two_running Hn).
Defined.

Lemma move_error_changes_nothing_witness :
  stepper_move 3 1 0 2000 0 0 one_channel
    = Returns (Some STEPPER_ERR_UNIT_NOT_SETUP) () one_channel /\
  ((STEPPER_ERR_UNIT_NOT_SETUP = STEPPER_ERR_INVALID_UNIT \/
    STEPPER_ERR_UNIT_NOT_SETUP = STEPPER_ERR_UNIT_NOT_SETUP) /\
   one_channel = one_channel /\ stepper one_channel = stepper one_channel).
Proof.
  assert (E : stepper_move 3 1 0 2000 0 0 one_channel
              = Returns (Some STEPPER_ERR_UNIT_NOT_SETUP) () one_channel)
    by (vm_compute; reflexivity).
  split; [exact E|].
  exact (move_error_changes_nothing 3 1 0 2000 0 0 one_channel one_channel
           STEPPER_ERR_UNIT_NOT_SETUP E).
Defined.

(** ** More of the general facts at work *)

Lemma encode_loop_ends_witness :
  exists r,
    encode_items (encode_rounds 100000) true 100000 1 step_input = Some r /\
    forall k,
      encode_items (encode_rounds 100000 + k) true 100000 1 step_input = Some r.
Proof. apply (encode_loop_ends 100000 1 step_input). lia. Defined.

Lemma words_of_a_step_witness :
  exists w ws,
    rmt_data (snd step_output)
    = rmt_data (push_all true 1 (w :: ws) step_input) /\
    rmt_data_head (snd step_output)
    = rmt_data_head (push_all true 1 (w :: ws) step_input) /\
    rmt_of_val w
    = {| level0 := 1; duration0 := STEPPER_PULSE_TICKS; level1 := 0;
         duration1 := Z.min (100000 - STEPPER_PULSE_TICKS) 32767 |} /\
    Forall (fun v => is_pulse v = false) ws /\
    items_ticks (w :: ws) + rmt_ticks_remain (snd step_output)
    = (if 100000 - STEPPER_PULSE_TICKS <? 32767 then 100000
       else 100000 + STEPPER_PULSE_TICKS).
Proof.
  apply (words_of_a_step (encode_rounds 100000) 100000 1 step_input
           (fst step_output) (snd step_output)).
  - vm_compute. split; reflexivity.
  - vm_compute. split; [discriminate|reflexivity].
  - vm_compute. reflexivity.
  - vm_compute. reflexivity.
Defined.

Lemma transmission_start_takes_a_window_witness :
  let c' := task_step (Start 1 1 0, about_to_start) in
  let p := chan 0 (Waiting, about_to_start) in
  fst c' = Start 1 (Z.shiftr 1 1) (u8 (0 + 1)) /\
  RMT_ch (hw (snd c')) 0 tx_start = 1 /\
  (forall j, 0 <= j < STEPPER_RMT_BUFF_SIZE ->
     RMTMEM (hw (snd c')) 0 j
     = data_read p ((rmt_data_tail p + j) mod STEPPER_RMT_DATA_SIZE + j)) /\
  exists p',
    stepper (snd c') !! Z.to_nat 0 = Some p' /\
    rmt_started p' = true /\ rmt_data_head p' = rmt_data_head p /\
    rmt_data_tail p'
    = (rmt_data_tail p + STEPPER_RMT_BUFF_SIZE) mod STEPPER_RMT_DATA_SIZE.
Proof.
  apply (transmission_start_takes_a_window 1 1 0 about_to_start
           (chan 0 (Waiting, about_to_start))).
  - vm_compute. reflexivity.
  - vm_compute. discriminate.
  - discriminate.
  - vm_compute. reflexivity.
  - vm_compute. reflexivity.
  - split; vm_compute; split; first [discriminate|reflexivity].
  - vm_compute. reflexivity.
  - vm_compute. reflexivity.
Defined.

Lemma threshold_interrupt_takes_what_is_there_witness :
  let p := chan 0 (Waiting, filled) in
  let k := Z.min (Z.shiftr STEPPER_RMT_BUFF_SIZE 1) (occupancy p) in
  exists p',
    stepper (isr_channel (BIT 24) 0 filled) !! Z.to_nat 0 = Some p' /\
    rmt_data_tail p' = (rmt_data_tail p + k) mod STEPPER_RMT_DATA_SIZE /\
    occupancy p' = occupancy p - k /\
    rmt_offset p'
    = (rmt_offset p + Z.shiftr STEPPER_RMT_BUFF_SIZE 1) mod STEPPER_RMT_BUFF_SIZE /\
    acceleration_queue (isr_channel (BIT 24) 0 filled)
    = match acceleration_queue filled with
      | Some q => if (0 <? k) && (length q <? 100)%nat
                  then Some (q ++ [BIT 0]) else Some q
      | None => None
      end.
Proof.
  apply (threshold_interrupt_takes_what_is_there (BIT 24) 0 filled
           (chan 0 (Waiting, filled))).
  - vm_compute. reflexivity.
  - vm_compute. discriminate.
  - vm_compute. reflexivity.
  - split; vm_compute; split; first [discriminate|reflexivity].
  - vm_compute. reflexivity.
Defined.

Lemma threshold_interrupt_copies_in_order_witness :
  let p := chan 0 (Waiting, filled) in
  RMTMEM (hw (isr_channel (BIT 24) 0 filled)) 0 (rmt_offset p + 3)
  = data_read p ((rmt_data_tail p + 3) mod STEPPER_RMT_DATA_SIZE).
Proof.
  apply (threshold_interrupt_copies_in_order (BIT 24) 0 filled
           (chan 0 (Waiting, filled)) 3).
  - vm_compute. reflexivity.
  - vm_compute. discriminate.
  - vm_compute. reflexivity.
  - split; vm_compute; split; first [discriminate|reflexivity].
  - vm_compute. reflexivity.
  - vm_compute. split; [discriminate|reflexivity].
Defined.

Lemma isr_clears_the_ended_channels_witness :
  Z.testbit (start_mask (rmt_isr 1 two_running)) 0
  = Z.testbit (start_mask two_running) 0
    && negb ((0 <? NSTEP) && Z.testbit 1 (0 * 3)).
Proof.
  apply (isr_clears_the_ended_channels 1 two_running 0).
  - vm_compute. discriminate.
  - lia.
Defined.

Lemma setup_takes_the_lowest_free_slot_witness :
  exists st' p',
    stepper_setup env_ok 2 3 0 0 0 1 0 one_channel = Returns None (Z.of_nat 1) st' /\
    stepper st' = <[1%nat := p']> (stepper one_channel) /\
    setup p' = true /\ step_pin p' = 2 /\ dir_pin p' = 3 /\
    steps_per_unit p' = 1 /\
    rmt_data p' = replicate (Z.to_nat STEPPER_RMT_DATA_SIZE) 0 /\
    rmt_data_head p' = 0 /\ rmt_data_tail p' = 0 /\
    steps p' = steps (chan 1 (Waiting, one_channel)) /\
    acceleration_profile_task_h st' = true /\ isr_h st' = true /\
    acceleration_queue st'
    = (if acceleration_profile_task_h one_channel
       then acceleration_queue one_channel else Some []).
Proof.
  apply (setup_takes_the_lowest_free_slot (H := esp32) (M := constant_period) env_ok 2 3 0 0 0 1 0 one_channel
           1%nat (chan 1 (Waiting, one_channel))); try reflexivity.
  - lia.
  - vm_compute. discriminate.
  - intros j q Hj Hq. destruct j as [|j]; [|lia].
    vm_compute in Hq. injection Hq as <-. reflexivity.
Defined.

Lemma setup_failure_configures_nothing_witness :
  Forall2
    (fun p p' =>
       setup p' = setup p /\ step_pin p' = step_pin p /\
       dir_pin p' = dir_pin p /\ steps_per_unit p' = steps_per_unit p /\
       units_per_step p' = units_per_step p /\ steps p' = steps p /\
       rmt_ticks_remain p' = rmt_ticks_remain p /\ motion p' = motion p /\
       dir p' = dir p)
    (stepper one_channel)
    (stepper (state_after one_channel
                (stepper_setup env_no_memory 2 3 0 0 0 1 0 one_channel))).
Proof.
  apply (setup_failure_configures_nothing (H := esp32) (M := constant_period) env_no_memory 2 3 0 0 0 1 0
           one_channel STEPPER_ERR_NOT_ENOUGH_MEMORY 1).
  vm_compute. reflexivity.
Defined.

Lemma setup_never_reports_exhaustion_witness :
  stepper_setup env_ok 30 31 0 0 0 1 0 all8
  <> Returns (Some STEPPER_ERR_NO_MORE_UNITS) 0 all8.
Proof.
  apply (setup_never_reports_exhaustion (H := esp32) (M := constant_period) env_ok 30 31 0 0 0 1 0 all8 0 all8).
  vm_compute. discriminate.
Defined.

Lemma setup_keeps_the_existing_queue_witness :
  acceleration_queue requested = Some [1] /\
  acceleration_queue
    (state_after requested (stepper_setup env_ok 2 3 0 0 0 1 0 requested))
  = acceleration_queue requested /\
  acceleration_profile_task_h
    (state_after requested (stepper_setup env_ok 2 3 0 0 0 1 0 requested))
  = true.
Proof.
  split; [vm_compute; reflexivity|].
  apply (setup_keeps_the_existing_queue (H := esp32) (M := constant_period) env_ok 2 3 0 0 0 1 0 requested None 1).
  - vm_compute. reflexivity.
  - vm_compute. reflexivity.
Defined.

Lemma move_rearms_one_channel_witness :
  exists p p',
    stepper all8 !! Z.to_nat 0 = Some p /\ setup p = true /\
    stepper (moved 0 5 2000 all8) = <[Z.to_nat 0 := p']> (stepper all8) /\
    occupancy p' = 0 /\ rmt_data_head p' = 0 /\ rmt_data_tail p' = 0 /\
    rmt_offset p' = 0 /\ pending p' = 0 /\ next_calls p' = 0%nat /\
    typed p' = true /\
    steps p' = u32 (step_count 5 (steps_per_unit p)) /\
    rmt_start p' = true /\ rmt_started p' = false /\
    dir p' = (if real_ge0 5 then 1 else 0) /\
    setup p' = true /\ step_pin p' = step_pin p /\ dir_pin p' = dir_pin p /\
    steps_per_unit p' = steps_per_unit p /\ rmt_data p' = rmt_data p /\
    start_mask (moved 0 5 2000 all8) = start_mask all8 /\
    start_num (moved 0 5 2000 all8) = start_num all8 /\
    acceleration_queue (moved 0 5 2000 all8) = acceleration_queue all8 /\
    hw (moved 0 5 2000 all8) = hw all8.
Proof.
  apply (move_rearms_one_channel (H := esp32) (M := constant_period) 0 5 0 2000 0 0 all8 (moved 0 5 2000 all8)).
  vm_compute. reflexivity.
Defined.

Lemma calls_since_the_move_witness :
  exists p0 p',
    stepper long_move !! Z.to_nat 0 = Some p0 /\
    stepper (snd (sys_run (first_fill ++ refill) (Waiting, long_move)))
      !! Z.to_nat 0 = Some p' /\
    Z.of_nat (next_calls p') = (steps p0 - steps p') + pending p' /\
    0 <= steps p' <= steps p0.
Proof.
  apply (calls_since_the_move (H := esp32) (M := constant_period) 0 200 0 70000 0 0 all8 long_move
           (first_fill ++ refill) Waiting).
  vm_compute. reflexivity.
Defined.

Lemma start_counts_the_active_channels_witness :
  let st' := stepper_start 1 5 all8 in
  start_mask st' = Z.lor (start_mask all8) (u32 5) /\
  start_num st'
  = Z.of_nat (length (List.filter
                        (fun k => Z.testbit (start_mask st') (Z.of_nat k))
                        (seq 0 (Z.to_nat NSTEP)))) /\
  waiting_task st' = Some 1 /\
  acceleration_queue st'
  = option_map (fun q => q ++ [start_mask st']) (acceleration_queue all8) /\
  stepper st' = stepper all8.
Proof.
  apply (start_counts_the_active_channels 1 5 all8).
  vm_compute. split; discriminate.
Defined.

Lemma start_sets_the_direction_pins_witness :
  let st := moved 0 5 2000 all8 in
  let p := chan 0 (Waiting, st) in
  gpio_level (hw (stepper_start 1 1 st)) (dir_pin p) = negb (dir p =? 0).
Proof.
  apply (start_sets_the_direction_pins 1 1 (moved 0 5 2000 all8) 0%nat
           (chan 0 (Waiting, moved 0 5 2000 all8))).
  - vm_compute. discriminate.
  - vm_compute. reflexivity.
  - vm_compute. reflexivity.
  - vm_compute. reflexivity.
  - intros c' q Hc Hq.
    do 8 (destruct c' as [|c'];
          [first [lia|vm_compute in Hq; injection Hq as <-; vm_compute; discriminate]|]).
    vm_compute in Hq. discriminate.
Defined.

Lemma stop_clears_the_mask_when_a_channel_is_active_witness :
  start_mask (stepper_stop 4 two_running)
  = (if existsb (fun k => Z.testbit (start_mask two_running) (Z.of_nat k))
          (seq 0 (Z.to_nat (NSTEP - 1)))
     then Z.land (start_mask two_running) (Z.lnot 4)
     else start_mask two_running) /\
  stepper (stepper_stop 4 two_running) = stepper two_running.
Proof.
  apply (stop_clears_the_mask_when_a_channel_is_active 4 two_running).
  vm_compute. discriminate.
Defined.

Lemma stop_on_idle_driver_only_notifies_witness :
  stepper_stop 1 (stepper_init hw0)
  = if start_num (stepper_init hw0) =? 0
    then notify_give (stepper_init hw0) else stepper_init hw0.
Proof.
  apply (stop_on_idle_driver_only_notifies 1 (stepper_init hw0)).
  reflexivity.
Defined.

Lemma reachable_states_are_well_formed_witness :
  api_run session (Waiting, stepper_init hw0) = Some after_session /\
  well_formed after_session.
Proof.
  assert (E : api_run session (Waiting, stepper_init hw0) = Some after_session)
    by (vm_compute; reflexivity).
  split; [exact E|].
  apply (reachable_states_are_well_formed hw0 session after_session).
  - vm_compute. reflexivity.
  - exact E.
Defined.

Lemma task_serves_a_request_witness :
  exists k,
    fst (task_run (S k) (Waiting, requested)) = Waiting /\
    acceleration_queue (snd (task_run (S k) (Waiting, requested))) = Some [].
Proof.
  apply (task_serves_a_request (H := esp32) (M := constant_period)
           1 [] requested).
  - vm_compute. reflexivity.
  - split; vm_compute; discriminate.
  - vm_compute. discriminate.
  - split; vm_compute; [discriminate|reflexivity].
  - apply (api_run_well_formed (H := esp32) (M := constant_period)
             [CallSetup (M := constant_period) env_ok 0 1 0 0 0 1 0;
              CallMove (M := constant_period) 0 5 0 2000 0 0;
              Sys (CallStart 1 1)] (Waiting, stepper_init hw0)).
    + vm_compute. reflexivity.
    + apply init_well_formed. vm_compute. reflexivity.
    + vm_compute. reflexivity.
  - intros i p Hi Hbit Hp.
    destruct i as [|i|i]; [|destruct i; discriminate Hbit|lia].
    assert (E : p = chan 0 (Waiting, requested))
      by (vm_compute in Hp; injection Hp as <-; vm_compute; reflexivity).
    rewrite E. split; vm_compute; reflexivity.
  - vm_compute. reflexivity.
Defined.

Lemma request_for_channel_without_buffer_witness :
  fst (cycle 2 2 one_channel) = Fill 2 1 1 /\
  task_step (Fill 2 1 1, unserved) = (Fault, unserved).
Proof.
  split; [vm_compute; reflexivity|].
  apply (request_for_channel_without_buffer (H := esp32)
           (M := constant_period) 2 1 1 unserved (chan 1 (Waiting, unserved)));
    vm_compute; first [reflexivity|discriminate].
Defined.
